(** * FTPSync / FTPBackup / FTPRestore: path mapping and three-pass synchronisation

    A shallow embedding of the synchronisation drivers of the Antik example
    programs ([FTPSync.cpp], [FTPBackup.cpp], [FTPRestore.cpp]).

    - [std::string] is [string]; positions are [nat]; [std::string::npos] is
      [None] in the result of [StdString.rfind].
    - C++ exceptions are the [Throw] case of [Result].
    - [std::vector<std::string>] is [list string] (order and duplicates kept).
    - [std::unordered_map<std::string, CFTP::DateTime>] is [gmap string DateTime].
    - The FTP server and the local file system are external collaborators:
      they are a world [W] driven through a record of operations, and every
      call made to them is recorded in a trace.
    - Progress messages on [std::cout] are left out; the verdict lines of
      [FTPBackup] and [FTPRestore] are in the trace. *)

From Stdlib Require Import Ascii String ZArith Lia.
From stdpp Require Import gmap strings list fin_maps.

Local Open Scope string_scope.

(** ** Exceptions *)

Inductive Exception : Type :=
| out_of_range                      (* std::out_of_range, from std::string::substr *)
| CFTP_Exception (what : string)    (* CFTP::Exception thrown by the driver itself *)
| external_error (what : string).   (* any std::exception raised by a collaborator *)

Inductive Result (A : Type) : Type :=
| Ok (a : A)
| Throw (e : Exception).
Arguments Ok {A} a.
Arguments Throw {A} e.

Definition is_Ok {A} (r : Result A) : bool :=
  match r with Ok _ => true | Throw _ => false end.

(** ** std::string operations used by the path mapping *)

Module StdString.

(** [s.substr(pos)]: the suffix from [pos]; throws [std::out_of_range]
    when [pos > s.size()]. *)
Fixpoint substr (s : string) (pos : nat) {struct pos} : Result string :=
  match pos with
  | O => Ok s
  | S n => match s with
           | EmptyString => Throw out_of_range
           | String _ t => substr t n
           end
  end.

(** [s.rfind(c)]: position of the last occurrence of [c]; [None] is
    [npos]. *)
Fixpoint rfind (s : string) (c : ascii) : option nat :=
  match s with
  | EmptyString => None
  | String a t =>
      match rfind t c with
      | Some i => Some (S i)
      | None => if Ascii.eqb a c then Some O else None
      end
  end.

(** [s.back()]: the last character; [None] on the empty string, where
    the C++ call has no defined result. *)
Fixpoint back (s : string) : option ascii :=
  match s with
  | EmptyString => None
  | String a EmptyString => Some a
  | String _ t => back t
  end.

(** [s.push_back(c)] *)
Definition push_back (s : string) (c : ascii) : string :=
  s +:+ String c EmptyString.

(** [p] begins with [root]. *)
Fixpoint starts_with (root p : string) : bool :=
  match root with
  | EmptyString => true
  | String a r =>
      match p with
      | EmptyString => false
      | String b q => Ascii.eqb a b && starts_with r q
      end
  end.

End StdString.

(** ** Command line parameter data (the two roots) *)

Record ParamArgData : Type := mkArgs {
  remoteDirectory : string;   (* FTP remote directory for sync *)
  localDirectory : string     (* Local directory for sync with server *)
}.

Definition sep : ascii := "/"%char.

(** The last statement of [procCmdLine]:
    [if (localDirectory.back() != '/') localDirectory.push_back('/')].
    [None] on an empty directory name, for which [back()] is undefined. *)
Definition normalizeLocalDirectory (dir : string) : option string :=
  match StdString.back dir with
  | None => None
  | Some c => if Ascii.eqb c sep then Some dir else Some (StdString.push_back dir sep)
  end.

(** Convert local file path to remote server path. The position given by
    [rfind] is [npos] when [localDirectory] holds no separator, and
    [substr(npos)] throws. *)
Definition localFileToRemote (argData : ParamArgData) (localFilePath : string)
  : Result string :=
  match StdString.rfind (localDirectory argData) sep with
  | None => Throw out_of_range
  | Some pos =>
      match StdString.substr localFilePath pos with
      | Ok suffix => Ok (remoteDirectory argData +:+ suffix)
      | Throw e => Throw e
      end
  end.

(** Convert remote server file path to local path. *)
Definition remoteFileToLocal (argData : ParamArgData) (remoteFilePath : string)
  : Result string :=
  match StdString.substr remoteFilePath (String.length (remoteDirectory argData) + 1) with
  | Ok suffix => Ok (localDirectory argData +:+ suffix)
  | Throw e => Throw e
  end.

(** ** CFTP::DateTime

    The type is declared in the Antik library, outside these programs. The
    drivers use its default constructor (through [operator[]] of the map),
    its [operator<] and its conversion from [std::tm*]. *)

Class DateTimeOps (DateTime : Type) : Type := {
  DateTime_default : DateTime;
  DateTime_lt : DateTime -> DateTime -> bool;
  DateTime_of_localtime : Z -> DateTime
}.

(** ** The collaborators

    Every call to the FTP server ([CFTP], [FTPUtil]) or to the local file
    system ([CFile]) acts on a world [W] and may throw. Status codes are the
    FTP reply codes the drivers test. *)

Record Port (DateTime W : Type) : Type := mkPort {
  connect : W -> Result (Z * W);
  fileExists : string -> W -> Result (bool * W);
  makeRemotePath : string -> W -> Result (unit * W);
  changeWorkingDirectory : string -> W -> Result (Z * W);
  (* the argument is the current content of the by-reference string, the
     result its content after the call *)
  getCurrentWoringDirectory : string -> W -> Result (string * W);
  listRemoteRecursive : string -> W -> Result (list string * W);
  listLocalRecursive : string -> W -> Result (list string * W);
  putFiles : string -> list string -> W -> Result (list string * W);
  getFiles : string -> list string -> W -> Result (list string * W);
  deleteFile : string -> W -> Result (Z * W);
  removeDirectory : string -> W -> Result (Z * W);
  (* status and the content of the by-reference DateTime after the call *)
  getModifiedDateTime : string -> W -> Result (Z * DateTime * W);
  isFile : string -> W -> Result (bool * W);
  lastWriteTime : string -> W -> Result (Z * W);
  putFile : string -> string -> W -> Result (Z * W);
  disconnect : W -> Result (unit * W)
}.
Arguments connect {DateTime W}.
Arguments fileExists {DateTime W}.
Arguments makeRemotePath {DateTime W}.
Arguments changeWorkingDirectory {DateTime W}.
Arguments getCurrentWoringDirectory {DateTime W}.
Arguments listRemoteRecursive {DateTime W}.
Arguments listLocalRecursive {DateTime W}.
Arguments putFiles {DateTime W}.
Arguments getFiles {DateTime W}.
Arguments deleteFile {DateTime W}.
Arguments removeDirectory {DateTime W}.
Arguments getModifiedDateTime {DateTime W}.
Arguments isFile {DateTime W}.
Arguments lastWriteTime {DateTime W}.
Arguments putFile {DateTime W}.
Arguments disconnect {DateTime W}.

(** What the program asks of its collaborators and what it prints as its
    verdict, in the order it happens. *)
Inductive Call : Type :=
| call_connect
| call_fileExists (path : string)
| call_makeRemotePath (path : string)
| call_changeWorkingDirectory (path : string)
| call_getCurrentWoringDirectory
| call_listRemoteRecursive (path : string)
| call_listLocalRecursive (path : string)
| call_putFiles (localDir : string) (files : list string)
| call_getFiles (localDir : string) (files : list string)
| call_deleteFile (path : string)
| call_removeDirectory (path : string)
| call_getModifiedDateTime (path : string)
| call_isFile (path : string)
| call_lastWriteTime (path : string)
| call_putFile (remote local : string)
| call_disconnect
| print (line : string).

Global Instance Call_eq_dec : EqDecision Call.
Proof. solve_decision. Defined.

(** ** The driver monad: state (the roots and the world), exceptions and
    the trace of calls *)

Record State (W : Type) : Type := mkState {
  argData : ParamArgData;
  ftpServer : W
}.
Arguments mkState {W}.
Arguments argData {W}.
Arguments ftpServer {W}.

Record Outcome (W A : Type) : Type := mkOutcome {
  result : Result A;
  final : State W;
  trace : list Call
}.
Arguments mkOutcome {W A}.
Arguments result {W A}.
Arguments final {W A}.
Arguments trace {W A}.

Definition M (W A : Type) : Type := State W -> Outcome W A.

Definition ret {W A} (a : A) : M W A :=
  fun s => mkOutcome (Ok a) s [].

Definition throw {W A} (e : Exception) : M W A :=
  fun s => mkOutcome (Throw e) s [].

Definition bind {W A B} (m : M W A) (f : A -> M W B) : M W B :=
  fun s =>
    let o := m s in
    match result o with
    | Ok a =>
        let o' := f a (final o) in
        mkOutcome (result o') (final o') (trace o ++ trace o')
    | Throw e => mkOutcome (Throw e) (final o) (trace o)
    end.

Declare Scope driver_scope.
Delimit Scope driver_scope with driver.
Notation "x <- m ;; k" := (bind m (fun x => k))
  (at level 100, m at next level, right associativity) : driver_scope.
Notation "m ;;; k" := (bind m (fun _ => k))
  (at level 100, right associativity) : driver_scope.
Local Open Scope driver_scope.

Definition lift {W A} (r : Result A) : M W A :=
  fun s => mkOutcome r s [].

Definition getArgs {W} : M W ParamArgData :=
  fun s => mkOutcome (Ok (argData s)) s [].

Definition setRemoteDirectory {W} (dir : string) : M W unit :=
  fun s => mkOutcome (Ok tt)
             (mkState (mkArgs dir (localDirectory (argData s))) (ftpServer s)) [].

(** One call to a collaborator, recorded in the trace. *)
Definition call {W A} (c : Call) (op : W -> Result (A * W)) : M W A :=
  fun s =>
    match op (ftpServer s) with
    | Ok (a, w) => mkOutcome (Ok a) (mkState (argData s) w) [c]
    | Throw e => mkOutcome (Throw e) s [c]
    end.

Definition say {W} (line : string) : M W unit :=
  fun s => mkOutcome (Ok tt) s [print line].

(** [for (auto x : l) body(x)] *)
Fixpoint for_each {W A} (l : list A) (body : A -> M W unit) : M W unit :=
  match l with
  | [] => ret tt
  | x :: rest => body x ;;; for_each rest body
  end.

(** A loop that updates a local variable [acc]. *)
Fixpoint for_each_acc {W A S} (l : list A) (acc : S) (body : S -> A -> M W S)
  : M W S :=
  match l with
  | [] => ret acc
  | x :: rest => acc' <- body acc x ;; for_each_acc rest acc' body
  end.

Definition EXIT_SUCCESS : Z := 0.
Definition EXIT_FAILURE : Z := 1.

(** [try { body } catch (std::exception &e) { exitWithError(e.what()); }
    exit(EXIT_SUCCESS);] *)
Definition exit_code {W A} (o : Outcome W A) : Z :=
  match result o with
  | Ok _ => EXIT_SUCCESS
  | Throw _ => EXIT_FAILURE
  end.

(** ** The drivers *)

Section Drivers.

Context {DateTime : Type} `{DT : DateTimeOps DateTime} {W : Type}.
Variable ftp : Port DateTime W.

(** [if (ftpServer.connect() != 230) throw CFTP::Exception(...)].
    The option setters before it ([setServerAndPort], [setUserAndPassword],
    [setSslEnabled]) only store their arguments. The message ends with the
    server's response, which is left out. *)
Definition connectOrThrow : M W unit :=
  st <- call call_connect (connect ftp) ;;
  if Z.eqb st 230 then ret tt
  else throw (CFTP_Exception "Unable to connect status returned = ").

(** *** FTPSync *)

(** Create remote directory. *)
Definition createRemoteDirectory : M W unit :=
  a <- getArgs ;;
  found <- call (call_fileExists (remoteDirectory a))
                (fileExists ftp (remoteDirectory a)) ;;
  if found then ret tt
  else
    call (call_makeRemotePath (remoteDirectory a))
         (makeRemotePath ftp (remoteDirectory a)) ;;;
    again <- call (call_fileExists (remoteDirectory a))
                  (fileExists ftp (remoteDirectory a)) ;;
    if again then ret tt
    else throw (CFTP_Exception
                  ("Remote FTP server directory " +:+ remoteDirectory a
                     +:+ " could not created.")).

(** [changeWorkingDirectory(remoteDirectory);
     getCurrentWoringDirectory(remoteDirectory);] the second call
    overwrites [argData.remoteDirectory]. *)
Definition enterRemoteDirectory : M W unit :=
  a <- getArgs ;;
  call (call_changeWorkingDirectory (remoteDirectory a))
       (changeWorkingDirectory ftp (remoteDirectory a)) ;;;
  dir <- call call_getCurrentWoringDirectory
              (getCurrentWoringDirectory ftp (remoteDirectory a)) ;;
  setRemoteDirectory dir.

(** PASS 1, the selection loop: the local files whose remote name is not
    in [remoteFiles]. *)
Fixpoint selectNewFiles (a : ParamArgData) (remoteFiles localFiles : list string)
  : Result (list string) :=
  match localFiles with
  | [] => Ok []
  | file :: rest =>
      match localFileToRemote a file with
      | Throw e => Throw e
      | Ok r =>
          match selectNewFiles a remoteFiles rest with
          | Throw e => Throw e
          | Ok newFiles =>
              Ok (if bool_decide (r ∈ remoteFiles) then newFiles
                  else file :: newFiles)
          end
      end
  end.

Record Pass1 : Type := mkPass1 {
  newFiles : list string;
  newFilesTransfered : list string;
  remoteFiles1 : list string      (* [remoteFiles] after the pass *)
}.

(** PASS 1) Copy new files to server. *)
Definition pass1 (localFiles remoteFiles : list string) : M W Pass1 :=
  a <- getArgs ;;
  new <- lift (selectNewFiles a remoteFiles localFiles) ;;
  match new with
  | [] => ret (mkPass1 [] [] remoteFiles)
  | _ :: _ =>
      done <- call (call_putFiles (localDirectory a) new)
                   (putFiles ftp (localDirectory a) new) ;;
      ret (mkPass1 new done (remoteFiles ++ done))
  end.

(** PASS 2, loop body. *)
Definition removeIfOrphan (localFiles : list string) (file : string) : M W unit :=
  a <- getArgs ;;
  l <- lift (remoteFileToLocal a file) ;;
  if bool_decide (l ∈ localFiles) then ret tt
  else
    st <- call (call_deleteFile file) (deleteFile ftp file) ;;
    if Z.eqb st 250 then ret tt
    else
      call (call_removeDirectory file) (removeDirectory ftp file) ;;;
      ret tt.

(** PASS 2) Remove any deleted local files from server. *)
Definition pass2 (localFiles remoteFiles : list string) : M W unit :=
  for_each remoteFiles (removeIfOrphan localFiles).

(** PASS 3, first loop body: keep the time when the query answers 213. *)
Definition recordModifiedTime (times : gmap string DateTime) (file : string)
  : M W (gmap string DateTime) :=
  reply <- call (call_getModifiedDateTime file) (getModifiedDateTime ftp file) ;;
  ret (if Z.eqb (fst reply) 213 then <[file := snd reply]> times else times).

(** Fill out remote file name, date/time modified map. *)
Definition fillModifiedTimes (remoteFiles : list string) : M W (gmap string DateTime) :=
  for_each_acc remoteFiles ∅ recordModifiedTime.

(** [times[key]] of [std::unordered_map]: the value stored at [key]; a
    missing key is first inserted with a default-constructed value. *)
Definition index (times : gmap string DateTime) (key : string)
  : DateTime * gmap string DateTime :=
  match times !! key with
  | Some t => (t, times)
  | None => (DateTime_default, <[key := DateTime_default]> times)
  end.

(** PASS 3, second loop body. The remote name is computed three times in
    the source (for the lookup, the message and [putFile]) from the same
    arguments; it is computed once here. *)
Definition updateIfStale (times : gmap string DateTime) (file : string)
  : M W (gmap string DateTime) :=
  regular <- call (call_isFile file) (isFile ftp file) ;;
  if regular then
    localModifiedTime <- call (call_lastWriteTime file) (lastWriteTime ftp file) ;;
    a <- getArgs ;;
    r <- lift (localFileToRemote a file) ;;
    let looked := index times r in
    if DateTime_lt (fst looked) (DateTime_of_localtime localModifiedTime) then
      call (call_putFile r file) (putFile ftp r file) ;;;
      ret (snd looked)
    else ret (snd looked)
  else ret times.

(** PASS 3) Copy any updated local files to remote server. *)
Definition pass3 (localFiles remoteFiles : list string) : M W (gmap string DateTime) :=
  times <- fillModifiedTimes remoteFiles ;;
  for_each_acc localFiles times updateIfStale.

(** The local variables of [main] at its end. *)
Record SyncLocals : Type := mkSyncLocals {
  localFiles : list string;
  remoteFiles0 : list string;     (* as listed, before PASS 1 *)
  afterPass1 : Pass1;
  remoteFileModifiedTimes : gmap string DateTime
}.

(** The three passes, each on the lists the one before left. *)
Definition threePasses (localFiles remoteFiles : list string) : M W SyncLocals :=
  p1 <- pass1 localFiles remoteFiles ;;
  pass2 localFiles (remoteFiles1 p1) ;;;
  times <- pass3 localFiles (remoteFiles1 p1) ;;
  ret (mkSyncLocals localFiles remoteFiles p1 times).

(** Get local and remote file lists, run the passes, disconnect. *)
Definition listAndSync : M W SyncLocals :=
  a <- getArgs ;;
  remoteFiles <- call (call_listRemoteRecursive (remoteDirectory a))
                      (listRemoteRecursive ftp (remoteDirectory a)) ;;
  localFiles <- call (call_listLocalRecursive (localDirectory a))
                     (listLocalRecursive ftp (localDirectory a)) ;;
  locals <- threePasses localFiles remoteFiles ;;
  call call_disconnect (disconnect ftp) ;;;
  ret locals.

(** The body of the [try] block of [main] of [FTPSync.cpp], after
    [procCmdLine]. *)
Definition FTPSync_main : M W SyncLocals :=
  connectOrThrow ;;;
  createRemoteDirectory ;;;
  enterRemoteDirectory ;;;
  listAndSync.

(** *** FTPBackup and FTPRestore *)

(** Signal success or failure. *)
Definition signal (ok failed : string) (files : list string) : M W unit :=
  match files with
  | [] => say failed
  | _ :: _ => for_each files (fun file => say (ok +:+ file +:+ "]"))
  end.

(** The body of the [try] block of [main] of [FTPBackup.cpp]. *)
Definition FTPBackup_main : M W (list string) :=
  connectOrThrow ;;;
  a <- getArgs ;;
  locaFileList <- call (call_listLocalRecursive (localDirectory a))
                       (listLocalRecursive ftp (localDirectory a)) ;;
  filesBackedUp <-
    match locaFileList with
    | [] => ret []
    | _ :: _ => call (call_putFiles (localDirectory a) locaFileList)
                     (putFiles ftp (localDirectory a) locaFileList)
    end ;;
  signal "Sucessfully backed up [" "Backup failed." filesBackedUp ;;;
  call call_disconnect (disconnect ftp) ;;;
  ret filesBackedUp.

(** The body of the [try] block of [main] of [FTPRestore.cpp]. *)
Definition FTPRestore_main : M W (list string) :=
  connectOrThrow ;;;
  a <- getArgs ;;
  remoteFileList <- call (call_listRemoteRecursive (remoteDirectory a))
                         (listRemoteRecursive ftp (remoteDirectory a)) ;;
  restoredFiles <-
    match remoteFileList with
    | [] => ret []
    | _ :: _ => call (call_getFiles (localDirectory a) remoteFileList)
                     (getFiles ftp (localDirectory a) remoteFileList)
    end ;;
  signal "Successfully restored [" "Restore failed." restoredFiles ;;;
  call call_disconnect (disconnect ftp) ;;;
  ret restoredFiles.

End Drivers.

(** ** Vocabulary of the properties *)


(** [obeysAt P m s]: run from [s], the step [m] leaves the two roots as
    they are and makes only calls allowed by [P] (which may look at the
    roots). *)
Definition obeysAt {W A} (P : ParamArgData -> Call -> Prop) (m : M W A) (s : State W)
  : Prop :=
  argData (final (m s)) = argData s /\ Forall (P (argData s)) (trace (m s)).

(** [m] never changes the local root. *)
Definition keepsLocal {W A} (m : M W A) : Prop :=
  forall s, localDirectory (argData (final (m s))) = localDirectory (argData s).

(** Any call at all. *)
Definition anyCall (a : ParamArgData) (c : Call) : Prop := True.

(** The value PASS 3 compares with for the remote name [r]: the recorded
    time, or the default-constructed one when nothing is recorded. *)
Definition oracleValue {DateTime} `{DateTimeOps DateTime}
  (times : gmap string DateTime) (r : string) : DateTime :=
  default DateTime_default (times !! r).

(** [now] is [times] after some lookups through [operator[]]: the recorded
    times, plus default values at keys that [times] does not hold. *)
Definition lookedUp {DateTime} `{DateTimeOps DateTime}
  (times now : gmap string DateTime) : Prop :=
  forall k, now !! k = times !! k \/
            (times !! k = None /\ now !! k = Some DateTime_default).

(** The calls of one round of the update loop of PASS 3, for a local tree
    that answers [regular] and [mtime]. *)
Definition updateCalls {DateTime} `{DateTimeOps DateTime}
  (regular : string -> bool) (mtime : string -> Z)
  (a : ParamArgData) (times : gmap string DateTime) (file : string) : list Call :=
  call_isFile file ::
  if regular file then
    call_lastWriteTime file ::
    match localFileToRemote a file with
    | Ok r =>
        if DateTime_lt (oracleValue times r) (DateTime_of_localtime (mtime file))
        then [call_putFile r file] else []
    | Throw _ => []
    end
  else [].

Definition is_print (c : Call) : bool :=
  match c with print _ => true | _ => false end.

(** The transfer step of a one-way driver: nothing is asked for an empty
    list; otherwise the transfer answers [moved]. *)
Definition transferred {W} (transfer : list string -> W -> Result (list string * W))
  (listed : list string) (w : W) (moved : list string) (w' : W) : Prop :=
  match listed with
  | [] => moved = [] /\ w' = w
  | _ :: _ => transfer listed w = Ok (moved, w')
  end.

(** What [signal] prints. *)
Definition verdict (ok failed : string) (files : list string) : list Call :=
  match files with
  | [] => [print failed]
  | _ :: _ => map (fun file => print (ok +:+ file +:+ "]")) files
  end.

(** The common shape of [FTPBackup] and [FTPRestore]: connect, list one
    side, hand a non-empty list to the transfer, signal, disconnect. *)
Definition oneWay {W} (connecting : M W unit)
  (listing : ParamArgData -> M W (list string))
  (transfer : ParamArgData -> list string -> M W (list string))
  (signalling : list string -> M W unit) (disconnecting : M W unit)
  : M W (list string) :=
  (connecting ;;;
   a <- getArgs ;;
   listed <- listing a ;;
   moved <- match listed with
            | [] => ret []
            | _ :: _ => transfer a listed
            end ;;
   signalling moved ;;;
   disconnecting ;;;
   ret moved)%driver.

(** A one-way driver whose listing and transfer are single calls. *)
Definition oneWayDriver {DateTime W} (ftp : Port DateTime W) (ok failed : string)
  (listCall : ParamArgData -> Call)
  (listOp : ParamArgData -> W -> Result (list string * W))
  (moveCall : ParamArgData -> list string -> Call)
  (moveOp : ParamArgData -> list string -> W -> Result (list string * W))
  : M W (list string) :=
  oneWay (connectOrThrow ftp)
    (fun a => call (listCall a) (listOp a))
    (fun a listed => call (moveCall a listed) (moveOp a listed))
    (signal ok failed)
    (call call_disconnect (disconnect ftp)).

(** A call may remove [r] only when its local name is not in [localFiles]. *)
Definition onlyOrphans (localFiles : list string) (a : ParamArgData) (c : Call) : Prop :=
  match c with
  | call_deleteFile r | call_removeDirectory r =>
      exists l, remoteFileToLocal a r = Ok l /\ l ∉ localFiles
  | _ => True
  end.

(** ** A reference world

    The programs talk to a real FTP server; to run the drivers on concrete
    trees, and to speak of two runs in a row, the collaborators are given a
    reference behaviour. *)

Module Ideal.

(** Modelled from the spec: [CFTP::DateTime] is not declared in these
    programs. The spec speaks of timestamps ordered by [<] (T1 < T2 in
    scenario A) and of the default-constructed value as a "default/zero
    timestamp" (§9); a timestamp is a number and the default is zero. *)
#[global] Instance ZTime : DateTimeOps Z := {|
  DateTime_default := 0%Z;
  DateTime_lt := Z.ltb;
  DateTime_of_localtime := fun t => t
|}.

(** One entry of the local tree. *)
Record Entry : Type := mkEntry {
  path : string;
  regular : bool;       (* a file, not a directory *)
  mtime : Z             (* last write time *)
}.

(** Modelled from the spec: the trees behind the Remote Storage Port
    (§4.4) and the listers (§4.2, §6), which are not part of these
    programs. The remote tree maps each remote path to its modification
    time; [put] leaves the remote entry with the time of the local file
    (scenario A: after the push of [a.txt@T2] the remote holds
    [a.txt@T2]); [delete] and [removeDirectory] remove the entry; a lister
    enumerates every path below its root; every operation on an existing
    entry succeeds. *)
Record Store : Type := mkStore {
  remote : gmap string Z;
  dirs : list string;            (* directories made with [makeRemotePath] *)
  cwd : string;                  (* working directory of the session *)
  local : list Entry
}.

(** [w] with the remote tree [r]. *)
Definition withRemote (w : Store) (r : gmap string Z) : Store :=
  mkStore r (dirs w) (cwd w) (local w).

(** The entry of the local path [p]. *)
Definition lookupLocal (w : Store) (p : string) : option Entry :=
  List.find (fun e => String.eqb (path e) p) (local w).

(** What [CFile::isFile] and [CFile::lastWriteTime] answer for [p]. *)
Definition regularIn (w : Store) (p : string) : bool :=
  match lookupLocal w p with Some e => regular e | None => false end.

Definition mtimeIn (w : Store) (p : string) : Z :=
  match lookupLocal w p with Some e => mtime e | None => 0%Z end.

(** [w] has the local tree of [w0]. *)
Definition sameLocal (w0 w : Store) : Prop := local w = local w0.

(** [exists(path)]: a directory that was made, or an entry of the tree. *)
Definition present (w : Store) (p : string) : bool :=
  bool_decide (p ∈ dirs w) || bool_decide (is_Some (remote w !! p)).

(** [p] is [root], a separator, and a name. *)
Definition below (root p : string) : bool :=
  StdString.starts_with (StdString.push_back root sep) p.

(** Modelled from the spec: [put] (§4.4, scenario A) leaves the remote
    entry with the time of the local file. *)
Definition store (r : string) (t : Z) (w : Store) : Store :=
  withRemote w (<[r := t]> (remote w)).

(** Modelled from the spec: [delete] and [removeDirectory] (§4.4) remove
    an entry that exists (250) and fail otherwise. *)
Definition erase (r : string) (w : Store) : Z * Store :=
  match remote w !! r with
  | Some _ => (250%Z, withRemote w (delete r (remote w)))
  | None => (550%Z, w)
  end.

(** Modelled from the spec: [putFiles] of the Antik library is missing.
    Backup (§4.5) puts every local path; the paths that transfer are the
    ones unioned into the remote snapshot (§4.3, pass 1): every listed local
    path that exists is stored under its mapped name below the working
    directory of the session, and the mapped names are returned. *)
Fixpoint putAll (a : ParamArgData) (files : list string) (w : Store)
  : list string * Store :=
  match files with
  | [] => ([], w)
  | f :: rest =>
      match localFileToRemote a f, lookupLocal w f with
      | Ok r, Some e =>
          let res := putAll a rest (store r (mtime e) w) in
          (r :: fst res, snd res)
      | _, _ => putAll a rest w
      end
  end.

(** Modelled from the spec: [getFiles] of the Antik library is missing.
    Restore (§4.5) gets every remote path: every listed remote path that
    exists is fetched to its mapped name below the local directory, and the
    local names are returned. *)
Fixpoint getAll (a : ParamArgData) (files : list string) (w : Store)
  : list string * Store :=
  match files with
  | [] => ([], w)
  | f :: rest =>
      match remoteFileToLocal a f, remote w !! f with
      | Ok l, Some t =>
          let res := getAll a rest
                       (mkStore (remote w) (dirs w) (cwd w)
                                (mkEntry l true t :: local w)) in
          (l :: fst res, snd res)
      | _, _ => getAll a rest w
      end
  end.

(** Modelled from the spec: the listers (§4.2) give a full recursive
    enumeration: every remote path below the root, every local path that
    begins with the root. *)
Definition listedRemote (root : string) (w : Store) : list string :=
  filter (fun p => below root p = true) (map fst (map_to_list (remote w))).

Definition listedLocal (root : string) (w : Store) : list string :=
  filter (fun p => StdString.starts_with root p = true) (map path (local w)).

(** Modelled from the spec: the Remote Storage Port of §4.4 ([exists],
    [ensurePath], [put], [get], [delete], [removeDirectory],
    [getModifiedTime]) and the local file queries, none of which is part of
    these programs, on the trees of [Store]. Status codes are those the
    drivers test for success (230, 250, 213, 226). *)
Definition port : Port Z Store := {|
  connect := fun w => Ok (230%Z, w);
  fileExists := fun p w => Ok (present w p, w);
  makeRemotePath := fun p w =>
    Ok (tt, mkStore (remote w) (p :: dirs w) (cwd w) (local w));
  changeWorkingDirectory := fun p w =>
    if present w p
    then Ok (250%Z, mkStore (remote w) (dirs w) p (local w))
    else Ok (550%Z, w);
  getCurrentWoringDirectory := fun _ w => Ok (cwd w, w);
  listRemoteRecursive := fun root w => Ok (listedRemote root w, w);
  listLocalRecursive := fun root w => Ok (listedLocal root w, w);
  putFiles := fun localDir files w =>
    Ok (putAll (mkArgs (cwd w) localDir) files w);
  getFiles := fun localDir files w =>
    Ok (getAll (mkArgs (cwd w) localDir) files w);
  deleteFile := fun p w => Ok (erase p w);
  removeDirectory := fun p w => Ok (erase p w);
  getModifiedDateTime := fun p w =>
    match remote w !! p with
    | Some t => Ok (213%Z, t, w)
    | None => Ok (550%Z, 0%Z, w)
    end;
  isFile := fun p w => Ok (regularIn w p, w);
  lastWriteTime := fun p w =>
    match lookupLocal w p with
    | Some e => Ok (mtime e, w)
    | None => Throw (external_error "last_write_time")
    end;
  putFile := fun r l w =>
    match lookupLocal w l with
    | Some e => Ok (226%Z, store r (mtime e) w)
    | None => Ok (550%Z, w)
    end;
  disconnect := fun w => Ok (tt, w)
|}.

(** The remote tree that the three passes leave, pass by pass, when run
    against [port]. *)

(** After [makeRemotePath] on a missing root and [changeWorkingDirectory]. *)
Definition entered (root : string) (w : Store) : Store :=
  mkStore (remote w) (if present w root then dirs w else root :: dirs w) root (local w).





(** A server on which directories cannot be made. *)
Definition readOnly : Port Z Store := {|
  connect := connect port;
  fileExists := fileExists port;
  makeRemotePath := fun _ w => Ok (tt, w);
  changeWorkingDirectory := changeWorkingDirectory port;
  getCurrentWoringDirectory := getCurrentWoringDirectory port;
  listRemoteRecursive := listRemoteRecursive port;
  listLocalRecursive := listLocalRecursive port;
  putFiles := putFiles port;
  getFiles := getFiles port;
  deleteFile := deleteFile port;
  removeDirectory := removeDirectory port;
  getModifiedDateTime := getModifiedDateTime port;
  isFile := isFile port;
  lastWriteTime := lastWriteTime port;
  putFile := putFile port;
  disconnect := disconnect port
|}.

(** A server that does not answer the modification time query (no MDTM
    command): the status is not 213 and the by-reference [DateTime] is left
    as the caller constructed it. *)
Definition noModifiedTime : Port Z Store := {|
  connect := connect port;
  fileExists := fileExists port;
  makeRemotePath := makeRemotePath port;
  changeWorkingDirectory := changeWorkingDirectory port;
  getCurrentWoringDirectory := getCurrentWoringDirectory port;
  listRemoteRecursive := listRemoteRecursive port;
  listLocalRecursive := listLocalRecursive port;
  putFiles := putFiles port;
  getFiles := getFiles port;
  deleteFile := deleteFile port;
  removeDirectory := removeDirectory port;
  getModifiedDateTime := fun _ w => Ok (500%Z, 0%Z, w);
  isFile := isFile port;
  lastWriteTime := lastWriteTime port;
  putFile := putFile port;
  disconnect := disconnect port
|}.

End Ideal.

(** ** Concrete trees *)

Module Scenario.
Import Ideal.

(** Scenario A of the spec, with an orphan on the server: [a.txt] is
    newer locally, [dir] and [dir/b.txt] are missing remotely. *)
Definition tree : Store := {|
  remote := {[ "/backup/a.txt" := 10%Z; "/backup/orphan.txt" := 3%Z ]};
  dirs := ["/backup"];
  cwd := "/";
  local := [ mkEntry "/home/u/a.txt" true 20;
             mkEntry "/home/u/dir" false 5;
             mkEntry "/home/u/dir/b.txt" true 7 ]
|}.

(** The roots as [procCmdLine] leaves them for [--remote /backup --local /home/u]. *)
Definition args : ParamArgData := mkArgs "/backup" "/home/u/".

Definition start : State Store := mkState args tree.

End Scenario.

(** * More of the drivers *)

(** ** Further vocabulary *)

(** [m] makes only calls allowed by [P], whatever the state it starts
    from. *)
Definition onlyCalls {W A} (P : Call -> Prop) (m : M W A) : Prop :=
  forall s, Forall P (trace (m s)).

(** The session is closed at the end and only there: either [disconnect]
    is the last call of the run and the only one of its kind, an exception
    of the run being then its own; or it is not called at all, and the run
    ended with an exception. *)
Definition disconnectsLast {DateTime W A} (ftp : Port DateTime W) (m : M W A) : Prop :=
  forall s,
    (exists pre,
        trace (m s) = (pre ++ [call_disconnect])%list /\
        (call_disconnect ∉ pre) /\
        forall e, result (m s) = Throw e ->
                  disconnect ftp (ftpServer (final (m s))) = Throw e) \/
    ((call_disconnect ∉ trace (m s)) /\ exists e, result (m s) = Throw e).

(** The calls of each pass. *)
Definition inPass1 (c : Call) : Prop :=
  match c with call_putFiles _ _ => True | _ => False end.

Definition inPass2 (c : Call) : Prop :=
  match c with call_deleteFile _ | call_removeDirectory _ => True | _ => False end.

Definition inFill (c : Call) : Prop :=
  match c with call_getModifiedDateTime _ => True | _ => False end.

Definition inUpdate (c : Call) : Prop :=
  match c with
  | call_isFile _ | call_lastWriteTime _ | call_putFile _ _ => True
  | _ => False
  end.

(** The calls of each program. *)
Definition syncCall (c : Call) : Prop :=
  match c with
  | call_getFiles _ _ => False
  | _ => True
  end.

Definition backupCall (c : Call) : Prop :=
  match c with
  | call_connect | call_listLocalRecursive _ | call_putFiles _ _
  | call_disconnect | print _ => True
  | _ => False
  end.

Definition restoreCall (c : Call) : Prop :=
  match c with
  | call_connect | call_listRemoteRecursive _ | call_getFiles _ _
  | call_disconnect | print _ => True
  | _ => False
  end.

(** The test of PASS 1 on a local path: its remote name is not in
    [remoteFiles]. *)
Definition isNew (a : ParamArgData) (remoteFiles : list string) (file : string) : bool :=
  match localFileToRemote a file with
  | Ok r => negb (bool_decide (r ∈ remoteFiles))
  | Throw _ => false
  end.

(** The test of PASS 2 on a remote path: its local name is not in
    [localFiles]. *)
Definition isOrphan (a : ParamArgData) (localFiles : list string) (file : string) : bool :=
  match remoteFileToLocal a file with
  | Ok l => negb (bool_decide (l ∈ localFiles))
  | Throw _ => false
  end.

(** The calls of one removal of PASS 2, for a remote path and the status
    that [deleteFile] answered for it. *)
Definition removalCalls (attempt : string * Z) : list Call :=
  call_deleteFile (fst attempt) ::
  if Z.eqb (snd attempt) 250 then [] else [call_removeDirectory (fst attempt)].

(** The removals of PASS 2 replayed on the worlds of a run, from [w] to
    [w']: [deleteFile] answers the status of each attempt in turn, and after
    each status other than 250 [removeDirectory] answers, with any status. *)
Fixpoint replays {DateTime W} (ftp : Port DateTime W) (attempts : list (string * Z))
  (w w' : W) : Prop :=
  match attempts with
  | [] => w' = w
  | attempt :: rest =>
      exists w1,
        deleteFile ftp (fst attempt) w = Ok (snd attempt, w1) /\
        if Z.eqb (snd attempt) 250 then replays ftp rest w1 w'
        else exists st w2,
            removeDirectory ftp (fst attempt) w1 = Ok (st, w2) /\
            replays ftp rest w2 w'
  end.

Definition is_deleteFile (c : Call) : bool :=
  match c with call_deleteFile _ => true | _ => false end.

(** The calls that send a file to the server. *)
Definition is_push (c : Call) : bool :=
  match c with call_putFiles _ _ | call_putFile _ _ => true | _ => false end.

(** Collaborators that answer every request of the passes, with whatever
    status: in a world that satisfies [good] none of them throws, and they
    keep [good]. [lastWriteTime] need only answer for a path that [isFile]
    has just found to be a regular file. *)
Record Answering {DateTime W} (ftp : Port DateTime W) (good : W -> Prop) : Prop := {
  putFiles_answers : forall dir files w, good w ->
    exists done w', putFiles ftp dir files w = Ok (done, w') /\ good w';
  deleteFile_answers : forall p w, good w ->
    exists st w', deleteFile ftp p w = Ok (st, w') /\ good w';
  removeDirectory_answers : forall p w, good w ->
    exists st w', removeDirectory ftp p w = Ok (st, w') /\ good w';
  getModifiedDateTime_answers : forall p w, good w ->
    exists st t w', getModifiedDateTime ftp p w = Ok (st, t, w') /\ good w';
  isFile_answers : forall p w, good w ->
    exists b w', isFile ftp p w = Ok (b, w') /\ good w' /\
                 (b = true ->
                  exists t w'', lastWriteTime ftp p w' = Ok (t, w'') /\ good w'');
  putFile_answers : forall r l w, good w ->
    exists st w', putFile ftp r l w = Ok (st, w') /\ good w'
}.

(** ** Further servers *)

Module Servers.
Import Ideal.

(** A server that does not let the user in: [connect] answers 530. *)
Definition closed : Port Z Store := {|
  connect := fun w => Ok (530%Z, w);
  fileExists := fileExists port;
  makeRemotePath := makeRemotePath port;
  changeWorkingDirectory := changeWorkingDirectory port;
  getCurrentWoringDirectory := getCurrentWoringDirectory port;
  listRemoteRecursive := listRemoteRecursive port;
  listLocalRecursive := listLocalRecursive port;
  putFiles := putFiles port;
  getFiles := getFiles port;
  deleteFile := deleteFile port;
  removeDirectory := removeDirectory port;
  getModifiedDateTime := getModifiedDateTime port;
  isFile := isFile port;
  lastWriteTime := lastWriteTime port;
  putFile := putFile port;
  disconnect := disconnect port
|}.

(** A server that lets the user in and then refuses every request: no
    file is transferred, removed or dated. The local side is that of the
    reference world. *)
Definition deaf : Port Z Store := {|
  connect := connect port;
  fileExists := fileExists port;
  makeRemotePath := makeRemotePath port;
  changeWorkingDirectory := changeWorkingDirectory port;
  getCurrentWoringDirectory := getCurrentWoringDirectory port;
  listRemoteRecursive := listRemoteRecursive port;
  listLocalRecursive := listLocalRecursive port;
  putFiles := fun _ _ w => Ok ([], w);
  getFiles := fun _ _ w => Ok ([], w);
  deleteFile := fun _ w => Ok (550%Z, w);
  removeDirectory := fun _ w => Ok (550%Z, w);
  getModifiedDateTime := fun _ w => Ok (550%Z, 0%Z, w);
  isFile := isFile port;
  lastWriteTime := lastWriteTime port;
  putFile := fun _ _ w => Ok (550%Z, w);
  disconnect := disconnect port
|}.

End Servers.

(** ** The command line

    [procCmdLine] of [FTPSync.cpp], [FTPBackup.cpp] and [FTPRestore.cpp].
    Boost's program options and the file system are collaborators: the
    function is modelled over what they answer. *)

Module CmdLine.

(** What is thrown inside [procCmdLine]: a [po::error], which its handler
    catches, or something else, which it lets through. *)
Inductive Raised : Type :=
| po_error (what : string)
| other (e : Exception).

Inductive Try (A : Type) : Type :=
| Done (a : A)
| Raise (r : Raised).
Arguments Done {A}.
Arguments Raise {A}.

(** The calls of [procCmdLine], on a variables map [VM]. *)
Record Options (VM Stream : Type) : Type := mkOptions {
  (* po::store(po::parse_command_line(argc, argv, commandLine), vm) *)
  parse_command_line : list string -> Try VM;
  (* vm.count(name) *)
  count : string -> VM -> nat;
  (* vm["config"].as<std::string>() *)
  config : VM -> string;
  (* CFile::exists(path) *)
  file_exists : string -> Try bool;
  (* std::ifstream configFileStream{path}; if (configFileStream) *)
  open : string -> option Stream;
  (* po::store(po::parse_config_file(configFileStream, configFile), vm) *)
  parse_config_file : Stream -> VM -> Try VM;
  (* po::notify(vm): checks the required options and fills argData *)
  notify : VM -> Try ParamArgData
}.
Arguments parse_command_line {VM Stream}.
Arguments count {VM Stream}.
Arguments config {VM Stream}.
Arguments file_exists {VM Stream}.
Arguments open {VM Stream}.
Arguments parse_config_file {VM Stream}.
Arguments notify {VM Stream}.

Inductive Program : Type := FTPSync | FTPBackup | FTPRestore.

(** How [procCmdLine] ends: it returns with [argData] filled, calls
    [exit], lets an exception through, or has called [back()] on an empty
    string. *)
Inductive Ending : Type :=
| returns (argData : ParamArgData)
| exits (status : Z)
| throws (e : Exception)
| undefined.

(** The [if (vm.count("config"))] block. *)
Definition storeConfigFile {VM Stream} (lib : Options VM Stream) (vm : VM) : Try VM :=
  if Nat.ltb 0 (count lib "config" vm) then
    match file_exists lib (config lib vm) with
    | Raise r => Raise r
    | Done true =>
        match open lib (config lib vm) with
        | Some configFileStream => parse_config_file lib configFileStream vm
        | None => Done vm
        end
    | Done false => Raise (po_error "Specified config file does not exist.")
    end
  else Done vm.

(** The last statement of the [try] block: only [FTPSync] has the
    normalisation of the local directory. *)
Definition lastStatement (program : Program) (a : ParamArgData) : Ending :=
  match program with
  | FTPSync =>
      match normalizeLocalDirectory (localDirectory a) with
      | Some l => returns (mkArgs (remoteDirectory a) l)
      | None => undefined
      end
  | FTPBackup | FTPRestore => returns a
  end.

(** The [try] block. *)
Definition tryBlock {VM Stream} (lib : Options VM Stream) (program : Program)
  (argv : list string) : Try Ending :=
  match parse_command_line lib argv with
  | Raise r => Raise r
  | Done vm =>
      if Nat.ltb 0 (count lib "help" vm) then Done (exits EXIT_SUCCESS)
      else
        match storeConfigFile lib vm with
        | Raise r => Raise r
        | Done vm' =>
            match notify lib vm' with
            | Raise r => Raise r
            | Done a => Done (lastStatement program a)
            end
        end
  end.

(** [try { ... } catch (po::error& e) { ...; exit(EXIT_FAILURE); }] *)
Definition procCmdLine {VM Stream} (lib : Options VM Stream) (program : Program)
  (argv : list string) : Ending :=
  match tryBlock lib program argv with
  | Done ending => ending
  | Raise (po_error _) => exits EXIT_FAILURE
  | Raise (other e) => throws e
  end.

End CmdLine.

(** ** The SSH programs

    [SCPBackup.cpp] and [SFTPRestore.cpp]: the same one-way transfers over
    an SSH session, which is verified and authorised before use. The
    session ([CSSHSession], [CSFTP]) and the Antik transfer functions are
    collaborators, on a world [W]. The lines about the progress of the
    session ("Server verified...", "Client authorized...") are left out, as
    the option setters are; the lines of the verdict are kept. *)

Module SSH.

Record ParamArgData : Type := mkArgs {
  serverPort : string;
  remoteDirectory : string;
  localDirectory : string
}.

(** [std::runtime_error(what)], thrown by [main] itself; [main] catches it
    as any other [std::exception]. *)
Definition runtime_error (what : string) : Exception := external_error what.

Record Port (W : Type) : Type := mkPort {
  (* std::stoi(argData.serverPort): pure, may throw *)
  stoi : string -> Result Z;
  connect : W -> Result (unit * W);
  verifyKnownServer : W -> Result (bool * W);
  userAuthorize : W -> Result (bool * W);
  (* putFiles(sshSession, FileMapper{local, remote}) *)
  putFiles : string -> string -> W -> Result (list string * W);
  (* sftpServer.open() *)
  open : W -> Result (unit * W);
  listRemoteRecursive : string -> W -> Result (list string * W);
  (* getFiles(sftpServer, FileMapper{local, remote}, remoteFileList) *)
  getFiles : string -> string -> list string -> W -> Result (list string * W);
  (* sftpServer.close() *)
  close : W -> Result (unit * W);
  disconnect : W -> Result (unit * W)
}.
Arguments stoi {W}.
Arguments connect {W}.
Arguments verifyKnownServer {W}.
Arguments userAuthorize {W}.
Arguments putFiles {W}.
Arguments open {W}.
Arguments listRemoteRecursive {W}.
Arguments getFiles {W}.
Arguments close {W}.
Arguments disconnect {W}.

Inductive Call : Type :=
| call_connect
| call_verifyKnownServer
| call_userAuthorize
| call_putFiles (localDir remoteDir : string)
| call_open
| call_listRemoteRecursive (path : string)
| call_getFiles (localDir remoteDir : string) (files : list string)
| call_close
| call_disconnect
| print (line : string).

(** The world, exceptions and the trace of calls. *)
Record Outcome (W A : Type) : Type := mkOutcome {
  result : Result A;
  final : W;
  trace : list Call
}.
Arguments mkOutcome {W A}.
Arguments result {W A}.
Arguments final {W A}.
Arguments trace {W A}.

Definition M (W A : Type) : Type := W -> Outcome W A.

Definition ret {W A} (a : A) : M W A :=
  fun w => mkOutcome (Ok a) w [].

Definition throw {W A} (e : Exception) : M W A :=
  fun w => mkOutcome (Throw e) w [].

Definition lift {W A} (r : Result A) : M W A :=
  fun w => mkOutcome r w [].

Definition bind {W A B} (m : M W A) (f : A -> M W B) : M W B :=
  fun w =>
    let o := m w in
    match result o with
    | Ok a =>
        let o' := f a (final o) in
        mkOutcome (result o') (final o') (trace o ++ trace o')
    | Throw e => mkOutcome (Throw e) (final o) (trace o)
    end.

(** [try { body } catch (...) { handler; }] where the handler is given
    the exception to throw again. *)
Definition catching {W A} (body : M W A) (handler : Exception -> M W A) : M W A :=
  fun w =>
    let o := body w in
    match result o with
    | Ok a => o
    | Throw e =>
        let o' := handler e (final o) in
        mkOutcome (result o') (final o') (trace o ++ trace o')
    end.

Declare Scope ssh_scope.
Delimit Scope ssh_scope with ssh.
Notation "x <- m ;; k" := (bind m (fun x => k))
  (at level 100, m at next level, right associativity) : ssh_scope.
Notation "m ;;; k" := (bind m (fun _ => k))
  (at level 100, right associativity) : ssh_scope.
Local Open Scope ssh_scope.

Definition call {W A} (c : Call) (op : W -> Result (A * W)) : M W A :=
  fun w =>
    match op w with
    | Ok (a, w') => mkOutcome (Ok a) w' [c]
    | Throw e => mkOutcome (Throw e) w [c]
    end.

Definition say {W} (line : string) : M W unit :=
  fun w => mkOutcome (Ok tt) w [print line].

Fixpoint for_each {W A} (l : list A) (body : A -> M W unit) : M W unit :=
  match l with
  | [] => ret tt
  | x :: rest => body x ;;; for_each rest body
  end.

Definition exit_code {W A} (o : Outcome W A) : Z :=
  match result o with
  | Ok _ => EXIT_SUCCESS
  | Throw _ => EXIT_FAILURE
  end.

Section Drivers.
Context {W : Type}.
Variable ssh : Port W.

(** Signal success or failure. *)
Definition signal (ok failed : string) (files : list string) : M W unit :=
  match files with
  | [] => say failed
  | _ :: _ => for_each files (fun file => say (ok +:+ file +:+ "]"))
  end.

(** The start of both [main]s: set the port, connect, verify the server's
    identity, authenticate. *)
Definition startSession (argData : ParamArgData) : M W unit :=
  lift (stoi ssh (serverPort argData)) ;;;
  call call_connect (connect ssh) ;;;
  verified <- call call_verifyKnownServer (verifyKnownServer ssh) ;;
  if negb verified then throw (runtime_error "Unable to verify server.")
  else
    authorized <- call call_userAuthorize (userAuthorize ssh) ;;
    if negb authorized then throw (runtime_error "Server unable to authorize client")
    else ret tt.

(** [performBackup] of [SCPBackup.cpp]; its handler only throws again. *)
Definition performBackup (argData : ParamArgData) : M W unit :=
  catching
    (filesBackedUp <- call (call_putFiles (localDirectory argData) (remoteDirectory argData))
                           (putFiles ssh (localDirectory argData) (remoteDirectory argData)) ;;
     signal "Sucessfully backed up [" "Backup failed." filesBackedUp)
    (fun e => throw e).

(** The body of the [try] block of [main] of [SCPBackup.cpp], after
    [procCmdLine]. *)
Definition SCPBackup_main (argData : ParamArgData) : M W unit :=
  startSession argData ;;;
  performBackup argData ;;;
  call call_disconnect (disconnect ssh).

(** The [try] block of [performRestore] of [SFTPRestore.cpp]. *)
Definition restoreBlock (argData : ParamArgData) : M W unit :=
  call call_open (open ssh) ;;;
  remoteFileList <- call (call_listRemoteRecursive (remoteDirectory argData))
                         (listRemoteRecursive ssh (remoteDirectory argData)) ;;
  restoredFiles <-
    match remoteFileList with
    | [] => ret []
    | _ :: _ =>
        call (call_getFiles (localDirectory argData) (remoteDirectory argData)
                remoteFileList)
             (getFiles ssh (localDirectory argData) (remoteDirectory argData)
                remoteFileList)
    end ;;
  signal "Successfully restored [" "Restore failed." restoredFiles ;;;
  call call_close (close ssh).

(** [performRestore]: [try { ... } catch (...) { sftpServer.close(); throw; }] *)
Definition performRestore (argData : ParamArgData) : M W unit :=
  catching (restoreBlock argData)
    (fun e => call call_close (close ssh) ;;; throw e).

(** The body of the [try] block of [main] of [SFTPRestore.cpp], after
    [procCmdLine]. *)
Definition SFTPRestore_main (argData : ParamArgData) : M W unit :=
  startSession argData ;;;
  performRestore argData ;;;
  call call_disconnect (disconnect ssh).

End Drivers.

(** What [signal] prints. *)
Definition verdict (ok failed : string) (files : list string) : list Call :=
  match files with
  | [] => [print failed]
  | _ :: _ => map (fun file => print (ok +:+ file +:+ "]")) files
  end.

(** The calls that use the session for a transfer. *)
Definition is_transfer (c : Call) : bool :=
  match c with
  | call_putFiles _ _ | call_open | call_listRemoteRecursive _
  | call_getFiles _ _ _ | call_close => true
  | _ => false
  end.

(** [m] makes only calls allowed by [P]. *)
Definition onlyCalls {W A} (P : Call -> Prop) (m : M W A) : Prop :=
  forall w, Forall P (trace (m w)).

(** The SSH session is disconnected at the end and only there: either
    [disconnect] is the last call and the only one of its kind, an
    exception of the run being then its own; or it is not called at all,
    and the run ended with an exception. *)
Definition disconnectsLast {W A} (ssh : Port W) (m : M W A) : Prop :=
  forall w,
    (exists pre,
        trace (m w) = (pre ++ [call_disconnect])%list /\
        (call_disconnect ∉ pre) /\
        forall e, result (m w) = Throw e -> disconnect ssh (final (m w)) = Throw e) \/
    ((call_disconnect ∉ trace (m w)) /\ exists e, result (m w) = Throw e).

(** A session on a world that counts the SFTP sessions left open.
    Nothing is listed on the server; [close] refuses when none is open. *)
Definition counting : Port Z := {|
  stoi := fun _ => Ok 22%Z;
  connect := fun w => Ok (tt, w);
  verifyKnownServer := fun w => Ok (true, w);
  userAuthorize := fun w => Ok (true, w);
  putFiles := fun _ _ w => Ok ([], w);
  open := fun w => Ok (tt, (w + 1)%Z);
  listRemoteRecursive := fun _ w => Throw (external_error "SFTP listing");
  getFiles := fun _ _ _ w => Ok ([], w);
  close := fun w =>
    if Z.ltb 0 w then Ok (tt, (w - 1)%Z) else Throw (external_error "SFTP close");
  disconnect := fun w => Ok (tt, w)
|}.

(** A server whose key is not the known one. *)
Definition unknown : Port Z := {|
  stoi := stoi counting;
  connect := connect counting;
  verifyKnownServer := fun w => Ok (false, w);
  userAuthorize := userAuthorize counting;
  putFiles := putFiles counting;
  open := open counting;
  listRemoteRecursive := listRemoteRecursive counting;
  getFiles := getFiles counting;
  close := close counting;
  disconnect := disconnect counting
|}.

End SSH.

(** * Properties *)

(** ** Strings *)

Module StdStringFacts.
Import StdString.

Lemma append_cons (x : ascii) (a b : string) :
  String x a +:+ b = String x (a +:+ b).
Proof. reflexivity. Qed.

Lemma substr_app (a b : string) : substr (a +:+ b) (String.length a) = Ok b.
Proof. induction a as [|c a IH]; simpl; [by destruct b|exact IH]. Qed.

Lemma substr_Ok_length (s : string) (pos : nat) (t : string) :
  substr s pos = Ok t -> pos <= String.length s.
Proof.
  revert s; induction pos as [|n IH]; intros s H; simpl in *; [lia|].
  destruct s as [|c s]; [discriminate|]. apply IH in H. simpl. lia.
Qed.

Lemma substr_Throw (s : string) (pos : nat) (e : Exception) :
  substr s pos = Throw e -> e = out_of_range /\ String.length s < pos.
Proof.
  revert s; induction pos as [|n IH]; intros s H; simpl in *; [discriminate|].
  destruct s as [|c s]; [inversion H; simpl; split; [done|lia]|].
  apply IH in H as [-> ?]. simpl. split; [done|lia].
Qed.

Lemma rfind_snoc (d : string) (c : ascii) :
  rfind (push_back d c) c = Some (String.length d).
Proof.
  unfold push_back. induction d as [|x d IH]; simpl.
  - by rewrite Ascii.eqb_refl.
  - by rewrite IH.
Qed.

Lemma back_snoc (s : string) (c : ascii) :
  back s = Some c -> exists d, s = push_back d c.
Proof.
  unfold push_back. induction s as [|x s IH]; simpl; [discriminate|].
  destruct s as [|y s].
  - intros [= ->]. by exists EmptyString.
  - intros H. destruct (IH H) as [d Hd]. exists (String x d). rewrite Hd. reflexivity.
Qed.

Lemma back_push_back (s : string) (c : ascii) : back (push_back s c) = Some c.
Proof.
  unfold push_back. induction s as [|x s IH]; simpl; [done|].
  rewrite IH. by destruct (s +:+ String c EmptyString) eqn:E; [destruct s|].
Qed.

Lemma starts_with_app (root p : string) :
  starts_with root p = true <-> exists s, p = root +:+ s.
Proof.
  revert p; induction root as [|a r IH]; intros p; simpl.
  - split; [by exists p|done].
  - destruct p as [|b q].
    + split; [done|by intros [s ?]].
    + rewrite andb_true_iff, Ascii.eqb_eq, IH. split.
      * intros [-> [s ->]]. by exists s.
      * intros [s [= -> ->]]. eauto.
Qed.

Lemma append_assoc (a b c : string) : (a +:+ b) +:+ c = a +:+ (b +:+ c).
Proof.
  induction a as [|x a IH]; [done|]. by rewrite !append_cons, IH.
Qed.

Lemma append_length (a b : string) :
  String.length (a +:+ b) = String.length a + String.length b.
Proof.
  induction a as [|x a IH]; [done|]. rewrite append_cons. simpl. by rewrite IH.
Qed.

End StdStringFacts.

(** ** The path mapping *)

Section PathMapping.
Import StdString StdStringFacts.

(** With a local root ending in the separator, the remote name of
    [localDirectory ++ s] is [remoteDirectory ++ "/" ++ s]. *)
Lemma localFileToRemote_under (a : ParamArgData) (s : string) :
  back (localDirectory a) = Some sep ->
  localFileToRemote a (localDirectory a +:+ s)
  = Ok (remoteDirectory a +:+ String sep s).
Proof.
  intros Hb. destruct (back_snoc _ _ Hb) as [d Hd].
  unfold localFileToRemote. rewrite Hd at 1. rewrite rfind_snoc.
  rewrite Hd. unfold push_back. rewrite append_assoc, substr_app. done.
Qed.

(** The local name of [remoteDirectory ++ "/" ++ s] is
    [localDirectory ++ s]. *)
Lemma remoteFileToLocal_under (a : ParamArgData) (s : string) :
  remoteFileToLocal a (remoteDirectory a +:+ String sep s)
  = Ok (localDirectory a +:+ s).
Proof.
  unfold remoteFileToLocal.
  replace (remoteDirectory a +:+ String sep s)
    with (push_back (remoteDirectory a) sep +:+ s)
    by (unfold push_back; by rewrite append_assoc).
  replace (String.length (remoteDirectory a) + 1)
    with (String.length (push_back (remoteDirectory a) sep))
    by (unfold push_back; rewrite append_length; simpl; lia).
  by rewrite substr_app.
Qed.

Lemma mapping_total_local (a : ParamArgData) (p : string) :
  back (localDirectory a) = Some sep ->
  starts_with (localDirectory a) p = true ->
  exists r, localFileToRemote a p = Ok r.
Proof.
  intros Hb [s ->]%starts_with_app. rewrite localFileToRemote_under; eauto.
Qed.

End PathMapping.

(** C1. For every local path [p] that begins with the local root, the
    root ending with ['/'] as [procCmdLine] leaves it, mapping [p] to the
    remote name space and back gives [p] again: [localFileToRemote] returns
    a remote name and [remoteFileToLocal] of that name returns [p]. *)
Theorem mapping_inverse (a : ParamArgData) (p : string) :
  StdString.back (localDirectory a) = Some sep ->
  StdString.starts_with (localDirectory a) p = true ->
  exists r, localFileToRemote a p = Ok r /\ remoteFileToLocal a r = Ok p.
Proof.
  intros Hb Hp. apply StdStringFacts.starts_with_app in Hp as [s ->].
  exists (remoteDirectory a +:+ String sep s). split.
  - by apply localFileToRemote_under.
  - apply remoteFileToLocal_under.
Qed.

Lemma mapping_inverse_witness :
  exists r, localFileToRemote (mkArgs "/backup" "/home/u/") "/home/u/dir/b.txt" = Ok r
         /\ remoteFileToLocal (mkArgs "/backup" "/home/u/") r = Ok "/home/u/dir/b.txt".
Proof.
  apply (mapping_inverse (mkArgs "/backup" "/home/u/") "/home/u/dir/b.txt");
    reflexivity.
Defined.

(** C7, as the code has it. Neither mapping looks at the root as a
    prefix. [localFileToRemote] throws [std::out_of_range], and nothing
    else, exactly when the local root holds no ['/'] or the path is shorter
    than the position of the last ['/'] of the local root;
    [remoteFileToLocal] throws it exactly when the path is shorter than the
    remote root plus one character. In every other case a path is
    returned. *)
Theorem mapping_throws_exactly (a : ParamArgData) (p : string) :
  (forall e, localFileToRemote a p = Throw e <->
     e = out_of_range /\
     match StdString.rfind (localDirectory a) sep with
     | None => True
     | Some pos => String.length p < pos
     end) /\
  (forall e, remoteFileToLocal a p = Throw e <->
     e = out_of_range /\ String.length p < String.length (remoteDirectory a) + 1).
Proof.
  split; intros e.
  - unfold localFileToRemote.
    destruct (StdString.rfind (localDirectory a) sep) as [pos|].
    + destruct (StdString.substr p pos) as [t|e'] eqn:E.
      * apply StdStringFacts.substr_Ok_length in E. split; [done|]. intros [_ ?]; lia.
      * apply StdStringFacts.substr_Throw in E as [-> ?]. split; [by intros [= <-]|].
        by intros [-> _].
    + split; [by intros [= <-]|by intros [-> _]].
  - unfold remoteFileToLocal.
    destruct (StdString.substr p _) as [t|e'] eqn:E.
    + apply StdStringFacts.substr_Ok_length in E. split; [done|]. intros [_ ?]; lia.
    + apply StdStringFacts.substr_Throw in E as [-> ?]. split; [by intros [= <-]|].
      by intros [-> _].
Qed.

(** C7 as stated fails: a path that does not begin with the root is
    mapped, not refused, by either function. *)
Lemma mapping_outside_root_counterexample :
  StdString.starts_with "/home/u/" "/var/tmp/x.txt" = false /\
  localFileToRemote (mkArgs "/backup" "/home/u/") "/var/tmp/x.txt"
  = Ok "/backupp/x.txt" /\
  StdString.starts_with "/backup" "/elsewhere/y" = false /\
  remoteFileToLocal (mkArgs "/backup" "/home/u/") "/elsewhere/y"
  = Ok "/home/u/re/y".
Proof. repeat split. Qed.

(** ** The driver monad *)

Section MonadFacts.
Context {W : Type}.

Lemma bind_Ok {A B} (m : M W A) (f : A -> M W B) (s : State W) (a : A) :
  result (m s) = Ok a ->
  bind m f s = mkOutcome (result (f a (final (m s)))) (final (f a (final (m s))))
                 (trace (m s) ++ trace (f a (final (m s)))).
Proof. intros H. unfold bind. by rewrite H. Qed.

Lemma bind_Throw {A B} (m : M W A) (f : A -> M W B) (s : State W) (e : Exception) :
  result (m s) = Throw e ->
  bind m f s = mkOutcome (Throw e) (final (m s)) (trace (m s)).
Proof. intros H. unfold bind. by rewrite H. Qed.

Lemma call_Ok {A} (c : Call) (op : W -> Result (A * W)) (s : State W) (a : A) (w : W) :
  op (ftpServer s) = Ok (a, w) ->
  call c op s = mkOutcome (Ok a) (mkState (argData s) w) [c].
Proof. intros H. unfold call. by rewrite H. Qed.

Lemma call_Throw {A} (c : Call) (op : W -> Result (A * W)) (s : State W) (e : Exception) :
  op (ftpServer s) = Throw e ->
  call c op s = mkOutcome (Throw e) s [c].
Proof. intros H. unfold call. by rewrite H. Qed.

Lemma bind_call_Ok {A B} (c : Call) (op : W -> Result (A * W)) (f : A -> M W B)
  (s : State W) (a : A) (w : W) :
  op (ftpServer s) = Ok (a, w) ->
  bind (call c op) f s
  = mkOutcome (result (f a (mkState (argData s) w)))
              (final (f a (mkState (argData s) w)))
              (c :: trace (f a (mkState (argData s) w))).
Proof.
  intros H. rewrite (bind_Ok _ _ _ a) by (by rewrite (call_Ok _ _ _ _ _ H)).
  by rewrite (call_Ok _ _ _ _ _ H).
Qed.

Lemma bind_getArgs {B} (f : ParamArgData -> M W B) (s : State W) :
  bind getArgs f s = f (argData s) s.
Proof. unfold bind. simpl. by destruct (f (argData s) s). Qed.

Lemma call_trace {A} (c : Call) (op : W -> Result (A * W)) (s : State W) :
  trace (call c op s) = [c].
Proof. unfold call. by destruct (op (ftpServer s)) as [[a w]|e]. Qed.

Lemma call_args {A} (c : Call) (op : W -> Result (A * W)) (s : State W) :
  argData (final (call c op s)) = argData s.
Proof. unfold call. by destruct (op (ftpServer s)) as [[a w]|e]. Qed.

Lemma obeysAt_ret {A} P (a : A) (s : State W) : obeysAt P (ret a) s.
Proof. by split; [|constructor]. Qed.

Lemma obeysAt_throw {A} P e (s : State W) : obeysAt P (@throw W A e) s.
Proof. by split; [|constructor]. Qed.

Lemma obeysAt_lift {A} P (r : Result A) (s : State W) : obeysAt P (lift r) s.
Proof. by split; [|constructor]. Qed.

Lemma obeysAt_getArgs P (s : State W) : obeysAt P getArgs s.
Proof. by split; [|constructor]. Qed.

Lemma obeysAt_say P line (s : State W) : P (argData s) (print line) -> obeysAt P (say line) s.
Proof. intros H. split; [done|]. by repeat constructor. Qed.

Lemma obeysAt_call {A} P c (op : W -> Result (A * W)) s :
  P (argData s) c -> obeysAt P (call c op) s.
Proof.
  intros H. split; [apply call_args|]. rewrite call_trace. by repeat constructor.
Qed.

Lemma obeysAt_bind {A B} P (m : M W A) (f : A -> M W B) s :
  obeysAt P m s ->
  (forall a, result (m s) = Ok a -> obeysAt P (f a) (final (m s))) ->
  obeysAt P (bind m f) s.
Proof.
  intros [Ha Ht] Hf. unfold obeysAt. destruct (result (m s)) as [a|e] eqn:E.
  - rewrite (bind_Ok _ _ _ _ E). destruct (Hf a eq_refl) as [Ha' Ht'].
    split; simpl; [congruence|]. apply Forall_app. split; [done|]. by rewrite <- Ha.
  - rewrite (bind_Throw _ _ _ _ E). by split.
Qed.

Lemma obeysAt_for_each {A} P (l : list A) (body : A -> M W unit) s :
  (forall x s', x ∈ l -> argData s' = argData s -> obeysAt P (body x) s') ->
  obeysAt P (for_each l body) s.
Proof.
  revert s; induction l as [|x l IH]; intros s H; simpl.
  - apply obeysAt_ret.
  - apply obeysAt_bind.
    + apply H; [left|done].
    + intros _ _. apply IH. intros y s' Hy Hs'. apply H; [by right|].
      rewrite Hs'. apply H; [left|done].
Qed.

Lemma obeysAt_for_each_acc {A S} P (l : list A) (acc : S) (body : S -> A -> M W S) s :
  (forall acc' x s', x ∈ l -> argData s' = argData s -> obeysAt P (body acc' x) s') ->
  obeysAt P (for_each_acc l acc body) s.
Proof.
  revert s acc; induction l as [|x l IH]; intros s acc H; simpl.
  - apply obeysAt_ret.
  - apply obeysAt_bind.
    + apply H; [left|done].
    + intros acc' _. apply IH. intros acc'' y s' Hy Hs'. apply H; [by right|].
      rewrite Hs'. apply (H acc x s); [left|done].
Qed.

End MonadFacts.

Ltac obey :=
  repeat first
    [ apply obeysAt_ret | apply obeysAt_throw | apply obeysAt_lift
    | apply obeysAt_getArgs | apply obeysAt_call | apply obeysAt_say
    | apply obeysAt_bind; [|intros ? ?]
    | apply obeysAt_for_each; intros ? ? ? ?
    | apply obeysAt_for_each_acc; intros ? ? ? ? ?
    | match goal with
      | |- obeysAt _ (if ?b then _ else _) _ => destruct b eqn:?
      | |- obeysAt _ (match ?l with [] => _ | _ :: _ => _ end) _ => destruct l eqn:?
      end ].

(** ** The three passes *)

Section SyncFacts.
Context {DateTime : Type} `{DT : DateTimeOps DateTime} {W : Type}.
Variable ftp : Port DateTime W.

Lemma pass1_obeys (lf rf : list string) (s : State W) :
  obeysAt (onlyOrphans lf) (pass1 ftp lf rf) s.
Proof. unfold pass1. obey; simpl; auto. Qed.

Lemma pass3_obeys (lf rf : list string) (s : State W) :
  obeysAt (onlyOrphans lf) (pass3 ftp lf rf) s.
Proof.
  unfold pass3, fillModifiedTimes, recordModifiedTime, updateIfStale.
  obey; simpl; auto.
Qed.

Lemma pass2_obeys (lf rf : list string) (s : State W) :
  obeysAt (onlyOrphans lf) (pass2 ftp lf rf) s.
Proof.
  unfold pass2, removeIfOrphan. obey.
  - simpl in *. injection H1 as <-. exists a0.
    split; [done|]. by apply bool_decide_eq_false in Heqb.
  - rewrite call_args. simpl in *. injection H1 as <-. exists a0.
    split; [done|]. by apply bool_decide_eq_false in Heqb.
Qed.

Lemma threePasses_obeys (lf rf : list string) (s : State W) :
  obeysAt (onlyOrphans lf) (threePasses ftp lf rf) s.
Proof.
  unfold threePasses.
  apply obeysAt_bind; [apply pass1_obeys|intros p1 _].
  apply obeysAt_bind; [apply pass2_obeys|intros _ _].
  apply obeysAt_bind; [apply pass3_obeys|intros times _].
  apply obeysAt_ret.
Qed.

Lemma selectNewFiles_spec (a : ParamArgData) (rf lf new : list string) :
  selectNewFiles a rf lf = Ok new ->
  forall p, p ∈ new <-> p ∈ lf /\ exists r, localFileToRemote a p = Ok r /\ r ∉ rf.
Proof.
  revert new; induction lf as [|file rest IH]; intros new H p; simpl in H.
  - injection H as <-. split; [by intros ?%elem_of_nil|by intros [?%elem_of_nil _]].
  - destruct (localFileToRemote a file) as [r|e] eqn:Er; [|done].
    destruct (selectNewFiles a rf rest) as [new'|e] eqn:En; [|done].
    injection H as <-. specialize (IH new' eq_refl p).
    case_bool_decide as Hin.
    + rewrite IH, elem_of_cons. split; [intros [? ?]; auto|].
      intros [[->|?] (r' & Hr' & ?)]; [congruence|eauto].
    + rewrite !elem_of_cons, IH. split; [|intros [[->|?] ?]; auto].
      intros [->|[? ?]]; [eauto|eauto].
Qed.

Lemma selectNewFiles_total (a : ParamArgData) (rf lf : list string) :
  StdString.back (localDirectory a) = Some sep ->
  (forall p, p ∈ lf -> StdString.starts_with (localDirectory a) p = true) ->
  exists new, selectNewFiles a rf lf = Ok new.
Proof.
  intros Hb. induction lf as [|file rest IH]; intros H; simpl; [eauto|].
  destruct (mapping_total_local a file Hb) as [r ->]; [apply H; left|].
  destruct IH as [new ->]; [intros p ?; apply H; by right|]. eauto.
Qed.

End SyncFacts.

(** C3. PASS 1 selects for transfer exactly the local paths whose remote
    name is not in the remote list as listed; it asks [putFiles] for those
    and nothing else; the remote list it leaves is the listed one followed
    by the names [putFiles] reports as transferred; PASS 2 and PASS 3 then
    run on that list. ([putFiles] belongs to the Antik library: the list
    it returns is what the program takes as the transferred names.) *)
Theorem pass1_selects_and_extends
  {DateTime : Type} `{DT : DateTimeOps DateTime} {W : Type}
  (ftp : Port DateTime W) (lf rf : list string) (s : State W) :
  StdString.back (localDirectory (argData s)) = Some sep ->
  (forall p, p ∈ lf -> StdString.starts_with (localDirectory (argData s)) p = true) ->
  exists new,
    (forall p, p ∈ new <->
               p ∈ lf /\ exists r, localFileToRemote (argData s) p = Ok r /\ r ∉ rf) /\
    trace (pass1 ftp lf rf s)
    = (if decide (new = []) then []
       else [call_putFiles (localDirectory (argData s)) new]) /\
    (new = [] -> result (pass1 ftp lf rf s) = Ok (mkPass1 [] [] rf)) /\
    (forall done w,
       new <> [] ->
       putFiles ftp (localDirectory (argData s)) new (ftpServer s) = Ok (done, w) ->
       result (pass1 ftp lf rf s) = Ok (mkPass1 new done (rf ++ done)%list) /\
       forall x, x ∈ remoteFiles1 (mkPass1 new done (rf ++ done)%list) <-> x ∈ rf \/ x ∈ done) /\
    (forall p1,
       result (pass1 ftp lf rf s) = Ok p1 ->
       trace (threePasses ftp lf rf s)
       = (trace (pass1 ftp lf rf s)
          ++ trace ((pass2 ftp lf (remoteFiles1 p1) ;;;
                     times <- pass3 ftp lf (remoteFiles1 p1) ;;
                     ret (mkSyncLocals lf rf p1 times))%driver
                      (final (pass1 ftp lf rf s))))%list).
Proof.
  intros Hb Hlf.
  destruct (selectNewFiles_total (argData s) rf lf Hb Hlf) as [new Hnew].
  exists new. split; [by apply selectNewFiles_spec|].
  assert (Hrun : pass1 ftp lf rf s
                 = match new with
                   | [] => mkOutcome (Ok (mkPass1 [] [] rf)) s []
                   | _ :: _ =>
                       (done <- call (call_putFiles (localDirectory (argData s)) new)
                                     (putFiles ftp (localDirectory (argData s)) new) ;;
                        ret (mkPass1 new done (rf ++ done)%list))%driver s
                   end).
  { unfold pass1. rewrite (bind_Ok _ _ _ (argData s)) by done. simpl.
    rewrite (bind_Ok _ _ _ new) by (simpl; done). simpl.
    destruct new as [|p new']; [done|].
    match goal with |- mkOutcome (result ?o) _ _ = _ => by destruct o end. }
  repeat split.
  - rewrite Hrun. destruct new as [|p new']; [done|].
    rewrite decide_False by done. unfold bind, call.
    by destruct (putFiles ftp _ _ _) as [[done w]|e].
  - intros ->. by rewrite Hrun.
  - rewrite Hrun. destruct new as [|p new']; [done|].
    unfold bind, call. by rewrite H0.
  - simpl. by intros ?%elem_of_app.
  - simpl. by intros ?%elem_of_app.
  - intros p1 Hp1. unfold threePasses. by rewrite (bind_Ok _ _ _ p1).
Qed.

Lemma pass1_selects_and_extends_witness :
  exists new,
    (forall p, p ∈ new <->
               p ∈ ["/home/u/a.txt"; "/home/u/dir"; "/home/u/dir/b.txt"] /\
               exists r, localFileToRemote Scenario.args p = Ok r /\
                         r ∉ ["/backup/orphan.txt"; "/backup/a.txt"]) /\
    trace (pass1 Ideal.port ["/home/u/a.txt"; "/home/u/dir"; "/home/u/dir/b.txt"]
                 ["/backup/orphan.txt"; "/backup/a.txt"] Scenario.start)
    = (if decide (new = []) then [] else [call_putFiles "/home/u/" new]).
Proof.
  destruct (pass1_selects_and_extends Ideal.port
              ["/home/u/a.txt"; "/home/u/dir"; "/home/u/dir/b.txt"]
              ["/backup/orphan.txt"; "/backup/a.txt"] Scenario.start)
    as (new & Hsel & Htrace & _).
  - reflexivity.
  - intros p Hp. apply list_elem_of_In in Hp. simpl in Hp.
    destruct Hp as [<-|[<-|[<-|[]]]]; reflexivity.
  - exists new. split; [exact Hsel|exact Htrace].
Defined.

(** C4. A remote path is removed ([deleteFile], or [removeDirectory]
    after it) only when its local name is not in the local list: this
    holds of PASS 2 on its own and of the three passes together, so no
    remote path whose local counterpart is listed is ever removed. *)
Theorem pass2_removes_only_orphans
  {DateTime : Type} `{DT : DateTimeOps DateTime} {W : Type}
  (ftp : Port DateTime W) (lf rf : list string) (s : State W) (r : string) :
  (call_deleteFile r ∈ trace (pass2 ftp lf rf s) \/
   call_removeDirectory r ∈ trace (pass2 ftp lf rf s) \/
   call_deleteFile r ∈ trace (threePasses ftp lf rf s) \/
   call_removeDirectory r ∈ trace (threePasses ftp lf rf s)) ->
  exists l, remoteFileToLocal (argData s) r = Ok l /\ l ∉ lf.
Proof.
  destruct (pass2_obeys ftp lf rf s) as [_ H2].
  destruct (threePasses_obeys ftp lf rf s) as [_ H3].
  rewrite Forall_forall in H2, H3.
  intros [H|[H|[H|H]]];
    [apply H2 in H|apply H2 in H|apply H3 in H|apply H3 in H]; exact H.
Qed.

Lemma pass2_removes_only_orphans_witness :
  exists l, remoteFileToLocal Scenario.args "/backup/orphan.txt" = Ok l /\
            l ∉ ["/home/u/a.txt"; "/home/u/dir"; "/home/u/dir/b.txt"].
Proof.
  apply (pass2_removes_only_orphans Ideal.port
           ["/home/u/a.txt"; "/home/u/dir"; "/home/u/dir/b.txt"]
           ["/backup/orphan.txt"; "/backup/a.txt"] Scenario.start).
  left. apply (bool_decide_unpack _). vm_compute. exact I.
Defined.

(** ** Start of a run *)

Section StartFacts.
Context {DateTime : Type} `{DT : DateTimeOps DateTime} {W : Type}.
Variable ftp : Port DateTime W.

Lemma trace_bind {A B} (m : M W A) (f : A -> M W B) (s : State W) :
  trace (bind m f s)
  = (trace (m s) ++ match result (m s) with
                    | Ok a => trace (f a (final (m s)))
                    | Throw _ => []
                    end)%list.
Proof.
  unfold bind. destruct (result (m s)); simpl; [done|by rewrite app_nil_r].
Qed.

Lemma connectOrThrow_Ok (s : State W) (w1 : W) :
  connect ftp (ftpServer s) = Ok (230%Z, w1) ->
  connectOrThrow ftp s = mkOutcome (Ok tt) (mkState (argData s) w1) [call_connect].
Proof. intros H. unfold connectOrThrow. by rewrite (bind_call_Ok _ _ _ _ _ _ H). Qed.

Lemma createRemoteDirectory_found (s : State W) (w2 : W) :
  fileExists ftp (remoteDirectory (argData s)) (ftpServer s) = Ok (true, w2) ->
  createRemoteDirectory ftp s
  = mkOutcome (Ok tt) (mkState (argData s) w2)
      [call_fileExists (remoteDirectory (argData s))].
Proof.
  intros H. unfold createRemoteDirectory.
  by rewrite bind_getArgs, (bind_call_Ok _ _ _ _ _ _ H).
Qed.

Lemma createRemoteDirectory_made (s : State W) (w2 w3 w4 : W) (again : bool) :
  let R := remoteDirectory (argData s) in
  fileExists ftp R (ftpServer s) = Ok (false, w2) ->
  makeRemotePath ftp R w2 = Ok (tt, w3) ->
  fileExists ftp R w3 = Ok (again, w4) ->
  createRemoteDirectory ftp s
  = mkOutcome
      (if again then Ok tt
       else Throw (CFTP_Exception
                     ("Remote FTP server directory " +:+ R +:+ " could not created.")))
      (mkState (argData s) w4)
      [call_fileExists R; call_makeRemotePath R; call_fileExists R].
Proof.
  intros R H1 H2 H3. unfold createRemoteDirectory.
  rewrite bind_getArgs, (bind_call_Ok _ _ _ _ _ _ H1).
  erewrite bind_call_Ok by (simpl; exact H2).
  erewrite bind_call_Ok by (simpl; exact H3).
  by destruct again.
Qed.

Lemma enterRemoteDirectory_first {A} (k : unit -> M W A) (s : State W) :
  exists rest,
    trace (bind (enterRemoteDirectory ftp) k s)
    = call_changeWorkingDirectory (remoteDirectory (argData s)) :: rest.
Proof.
  rewrite trace_bind. unfold enterRemoteDirectory.
  rewrite (trace_bind getArgs). simpl. rewrite trace_bind, call_trace. simpl.
  eauto.
Qed.

End StartFacts.

(** C10. Once connected, the first thing [main] does is to ask whether
    the remote directory exists. When it does, the run goes on to change
    into it. When it does not, [makeRemotePath] is called on it and the
    question asked again: on a positive answer the run goes on; on a
    negative one the run ends there with a [CFTP::Exception] and the failure
    exit code, no listing and no pass having been started. *)
Theorem sync_checks_remote_directory
  {DateTime : Type} `{DT : DateTimeOps DateTime} {W : Type}
  (ftp : Port DateTime W) (s : State W) (w1 : W) :
  connect ftp (ftpServer s) = Ok (230%Z, w1) ->
  let R := remoteDirectory (argData s) in
  let o := FTPSync_main ftp s in
  (forall w2,
     fileExists ftp R w1 = Ok (true, w2) ->
     exists rest,
       trace o = [call_connect; call_fileExists R; call_changeWorkingDirectory R] ++ rest)%list /\
  (forall w2 w3 w4,
     fileExists ftp R w1 = Ok (false, w2) ->
     makeRemotePath ftp R w2 = Ok (tt, w3) ->
     fileExists ftp R w3 = Ok (true, w4) ->
     exists rest,
       trace o = [call_connect; call_fileExists R; call_makeRemotePath R;
                  call_fileExists R; call_changeWorkingDirectory R] ++ rest)%list /\
  (forall w2 w3 w4,
     fileExists ftp R w1 = Ok (false, w2) ->
     makeRemotePath ftp R w2 = Ok (tt, w3) ->
     fileExists ftp R w3 = Ok (false, w4) ->
     trace o = [call_connect; call_fileExists R; call_makeRemotePath R; call_fileExists R] /\
     result o = Throw (CFTP_Exception
                         ("Remote FTP server directory " +:+ R +:+ " could not created.")) /\
     exit_code o = EXIT_FAILURE).
Proof.
  intros Hc R o.
  pose (k := fun _ : unit => (enterRemoteDirectory ftp ;;; listAndSync ftp)%driver).
  assert (Htr : forall o1 : Outcome W unit,
             createRemoteDirectory ftp (mkState (argData s) w1) = o1 ->
             trace o = (call_connect :: trace o1
                        ++ match result o1 with
                           | Ok _ => trace (k tt (final o1))
                           | Throw _ => []
                           end)%list /\
             (forall e, result o1 = Throw e -> result o = Throw e)).
  { intros o1 Ho1. subst o. unfold FTPSync_main.
    rewrite (bind_Ok _ _ _ tt) by (by rewrite (connectOrThrow_Ok _ _ _ Hc)).
    rewrite (connectOrThrow_Ok _ _ _ Hc). cbn [result final trace].
    fold k. rewrite trace_bind, Ho1. split; [by destruct (result o1) as [[]|]|].
    intros e He. unfold bind. by rewrite Ho1, He. }
  assert (Hk : forall s', exists rest,
               trace (k tt s') = call_changeWorkingDirectory (remoteDirectory (argData s')) :: rest).
  { intros s'. apply enterRemoteDirectory_first. }
  clearbody k. repeat split.
  - intros w2 H. destruct (Htr _ (createRemoteDirectory_found ftp (mkState (argData s) w1) _ H)) as [-> _].
    cbn [result final trace argData ftpServer]. destruct (Hk (mkState (argData s) w2)) as [rest ->].
    by exists rest.
  - intros w2 w3 w4 H1 H2 H3.
    destruct (Htr _ (createRemoteDirectory_made ftp (mkState (argData s) w1)
                       w2 w3 w4 true H1 H2 H3)) as [-> _].
    cbn [result final trace argData ftpServer]. destruct (Hk (mkState (argData s) w4)) as [rest ->].
    by exists rest.
  - destruct (Htr _ (createRemoteDirectory_made ftp (mkState (argData s) w1)
                       w2 w3 w4 false H H0 H1)) as [-> _]. done.
  - destruct (Htr _ (createRemoteDirectory_made ftp (mkState (argData s) w1)
                       w2 w3 w4 false H H0 H1)) as [_ Hr]. by apply Hr.
  - destruct (Htr _ (createRemoteDirectory_made ftp (mkState (argData s) w1)
                       w2 w3 w4 false H H0 H1)) as [_ Hr].
    unfold exit_code. by rewrite (Hr _ eq_refl).
Qed.

Lemma sync_checks_remote_directory_witness :
  let s := mkState (mkArgs "/missing" "/home/u/") Scenario.tree in
  trace (FTPSync_main Ideal.readOnly s)
  = [call_connect; call_fileExists "/missing"; call_makeRemotePath "/missing";
     call_fileExists "/missing"] /\
  result (FTPSync_main Ideal.readOnly s)
  = Throw (CFTP_Exception "Remote FTP server directory /missing could not created.") /\
  exit_code (FTPSync_main Ideal.readOnly s) = EXIT_FAILURE.
Proof.
  destruct (sync_checks_remote_directory Ideal.readOnly
              (mkState (mkArgs "/missing" "/home/u/") Scenario.tree) Scenario.tree)
    as (_ & _ & H); [reflexivity|].
  apply (H Scenario.tree Scenario.tree Scenario.tree); reflexivity.
Defined.

(** ** The roots during a run *)

Section RootFacts.
Context {DateTime : Type} `{DT : DateTimeOps DateTime} {W : Type}.
Variable ftp : Port DateTime W.

Lemma normalizeLocalDirectory_back (dir l : string) :
  normalizeLocalDirectory dir = Some l -> StdString.back l = Some sep.
Proof.
  unfold normalizeLocalDirectory.
  destruct (StdString.back dir) as [c|] eqn:Hb; [|done].
  destruct (Ascii.eqb c sep) eqn:Hc; intros [= <-].
  - apply Ascii.eqb_eq in Hc. by subst c.
  - apply StdStringFacts.back_push_back.
Qed.

Lemma listAndSync_obeys (s : State W) : obeysAt anyCall (listAndSync ftp) s.
Proof.
  unfold listAndSync, threePasses, pass1, pass2, pass3, removeIfOrphan,
    fillModifiedTimes, recordModifiedTime, updateIfStale.
  obey; exact I.
Qed.

Lemma keepsLocal_bind {A B} (m : M W A) (f : A -> M W B) :
  keepsLocal m -> (forall a, keepsLocal (f a)) -> keepsLocal (bind m f).
Proof.
  intros Hm Hf s. unfold bind. destruct (result (m s)) as [a|e]; simpl.
  - by rewrite Hf, Hm.
  - apply Hm.
Qed.

Lemma obeys_keepsLocal {A} (m : M W A) :
  (forall s, obeysAt anyCall m s) -> keepsLocal m.
Proof. intros H s. destruct (H s) as [-> _]. done. Qed.

Lemma connectOrThrow_obeys (s : State W) : obeysAt anyCall (connectOrThrow ftp) s.
Proof. unfold connectOrThrow. obey; exact I. Qed.

Lemma createRemoteDirectory_obeys (s : State W) :
  obeysAt anyCall (createRemoteDirectory ftp) s.
Proof. unfold createRemoteDirectory. obey; exact I. Qed.

Lemma enterRemoteDirectory_keepsLocal : keepsLocal (enterRemoteDirectory ftp).
Proof.
  unfold enterRemoteDirectory.
  apply keepsLocal_bind; [done|intros a].
  apply keepsLocal_bind; [intros s; by rewrite call_args|intros _].
  apply keepsLocal_bind; [intros s; by rewrite call_args|intros dir].
  done.
Qed.

Lemma FTPSync_main_keepsLocal : keepsLocal (FTPSync_main ftp).
Proof.
  unfold FTPSync_main.
  apply keepsLocal_bind; [apply obeys_keepsLocal, connectOrThrow_obeys|intros _].
  apply keepsLocal_bind; [apply obeys_keepsLocal, createRemoteDirectory_obeys|intros _].
  apply keepsLocal_bind; [apply enterRemoteDirectory_keepsLocal|intros _].
  apply obeys_keepsLocal, listAndSync_obeys.
Qed.

Lemma enterRemoteDirectory_sets (s : State W) (st : Z) (w1 w2 : W) (reply : string) :
  changeWorkingDirectory ftp (remoteDirectory (argData s)) (ftpServer s) = Ok (st, w1) ->
  getCurrentWoringDirectory ftp (remoteDirectory (argData s)) w1 = Ok (reply, w2) ->
  enterRemoteDirectory ftp s
  = mkOutcome (Ok tt) (mkState (mkArgs reply (localDirectory (argData s))) w2)
      [call_changeWorkingDirectory (remoteDirectory (argData s));
       call_getCurrentWoringDirectory].
Proof.
  intros H1 H2. unfold enterRemoteDirectory.
  rewrite bind_getArgs, (bind_call_Ok _ _ _ _ _ _ H1).
  by erewrite bind_call_Ok by (simpl; exact H2).
Qed.

End RootFacts.

(** C9, as the code has it. The local root ends with the separator from
    [procCmdLine] on and is the same at the end of the run. The remote root
    is not given a separator: it is replaced once, before the listings, by
    the working directory the server reports, whatever that string is. From
    the listings to the end of the run, and in each pass, both roots stay as
    they are. *)
Theorem roots_of_a_sync_run
  {DateTime : Type} `{DT : DateTimeOps DateTime} {W : Type}
  (ftp : Port DateTime W) (dir l : string) :
  normalizeLocalDirectory dir = Some l ->
  StdString.back l = Some sep /\
  (forall r w,
     localDirectory (argData (final (FTPSync_main ftp (mkState (mkArgs r l) w)))) = l) /\
  (forall s st w1 reply w2,
     changeWorkingDirectory ftp (remoteDirectory (argData s)) (ftpServer s) = Ok (st, w1) ->
     getCurrentWoringDirectory ftp (remoteDirectory (argData s)) w1 = Ok (reply, w2) ->
     argData (final (enterRemoteDirectory ftp s))
     = mkArgs reply (localDirectory (argData s))) /\
  (forall s, argData (final (listAndSync ftp s)) = argData s) /\
  (forall lf rf s,
     argData (final (pass1 ftp lf rf s)) = argData s /\
     argData (final (pass2 ftp lf rf s)) = argData s /\
     argData (final (pass3 ftp lf rf s)) = argData s).
Proof.
  intros Hn. split; [by eapply normalizeLocalDirectory_back|].
  split; [intros r w; by rewrite FTPSync_main_keepsLocal|].
  split; [intros s st w1 reply w2 H1 H2; by rewrite (enterRemoteDirectory_sets _ _ _ _ _ _ H1 H2)|].
  split; [intros s; apply listAndSync_obeys|].
  intros lf rf s. split; [apply (pass1_obeys ftp lf rf s)|].
  split; [apply (pass2_obeys ftp lf rf s)|apply (pass3_obeys ftp lf rf s)].
Qed.

Lemma roots_of_a_sync_run_witness :
  StdString.back "/home/u/" = Some sep /\
  localDirectory (argData (final (FTPSync_main Ideal.port Scenario.start))) = "/home/u/".
Proof.
  destruct (roots_of_a_sync_run Ideal.port "/home/u" "/home/u/") as (H1 & H2 & _);
    [reflexivity|].
  split; [exact H1|exact (H2 "/backup" Scenario.tree)].
Defined.

(** C9 as stated fails: in a run that succeeds, the remote root the passes
    work with is the directory the server reports, here [/backup], which
    does not end with the separator. *)
Lemma remote_root_not_normalized_counterexample :
  exit_code (FTPSync_main Ideal.port Scenario.start) = EXIT_SUCCESS /\
  remoteDirectory (argData (final (FTPSync_main Ideal.port Scenario.start))) = "/backup" /\
  StdString.back (remoteDirectory (argData (final (FTPSync_main Ideal.port Scenario.start))))
  <> Some sep.
Proof. vm_compute. repeat split; discriminate. Qed.

(** ** PASS 3 *)

Section Pass3Facts.
Context {DateTime : Type} `{DT : DateTimeOps DateTime} {W : Type}.
Variable ftp : Port DateTime W.

Lemma bind_lift_Ok {A B} (a : A) (f : A -> M W B) (s : State W) :
  bind (lift (Ok a)) f s = f a s.
Proof. unfold bind. simpl. by destruct (f a s). Qed.

Lemma lookedUp_refl (times : gmap string DateTime) : lookedUp times times.
Proof. intros k. by left. Qed.

Lemma index_lookedUp (times now : gmap string DateTime) (r : string) :
  lookedUp times now ->
  fst (index now r) = oracleValue times r /\ lookedUp times (snd (index now r)).
Proof.
  intros H. unfold index, oracleValue.
  destruct (now !! r) as [t|] eqn:E; simpl.
  - split; [|done]. destruct (H r) as [Hr|[Hr1 Hr2]].
    + by rewrite <- Hr, E.
    + rewrite Hr1. simpl. congruence.
  - split.
    + destruct (H r) as [Hr|[Hr1 Hr2]]; [by rewrite <- Hr, E|congruence].
    + intros k. destruct (decide (k = r)) as [->|Hne].
      * right. rewrite lookup_insert_eq. split; [|done].
        destruct (H r) as [Hr|[Hr1 Hr2]]; congruence.
      * rewrite lookup_insert_ne by done. apply H.
Qed.

(** The local tree and the transfers, as far as PASS 3 depends on them:
    in the worlds the pass goes through (those satisfying [stable]) the
    answers of [isFile] and [lastWriteTime] do not change, and [putFile] and
    [getModifiedDateTime] report failure by their status. *)
Variable stable : W -> Prop.
Variable regular : string -> bool.
Variable mtime : string -> Z.
Hypothesis isFile_stable :
  forall p w, stable w -> isFile ftp p w = Ok (regular p, w).
Hypothesis lastWriteTime_stable :
  forall p w, stable w -> regular p = true -> lastWriteTime ftp p w = Ok (mtime p, w).
Hypothesis putFile_returns :
  forall r l w, stable w -> exists st w', putFile ftp r l w = Ok (st, w') /\ stable w'.
Hypothesis getModifiedDateTime_returns :
  forall p w, stable w ->
    exists st t w', getModifiedDateTime ftp p w = Ok (st, t, w') /\ stable w'.

Lemma updateIfStale_run (times now : gmap string DateTime) (file : string) (s : State W) :
  lookedUp times now ->
  stable (ftpServer s) ->
  is_Ok (localFileToRemote (argData s) file) = true ->
  exists now' w',
    updateIfStale ftp now file s
    = mkOutcome (Ok now') (mkState (argData s) w')
        (updateCalls regular mtime (argData s) times file) /\
    lookedUp times now' /\ stable w'.
Proof.
  intros Hrel Hst Hmap. unfold updateIfStale, updateCalls.
  rewrite (bind_call_Ok _ _ _ _ _ _ (isFile_stable file (ftpServer s) Hst)).
  destruct (regular file) eqn:Hreg.
  - erewrite bind_call_Ok by (simpl; by apply lastWriteTime_stable).
    rewrite bind_getArgs. cbn [argData].
    destruct (localFileToRemote (argData s) file) as [r|e]; [|done].
    rewrite bind_lift_Ok.
    destruct (index_lookedUp times now r Hrel) as [-> Hrel'].
    destruct (DateTime_lt _ _).
    + destruct (putFile_returns r file (ftpServer s) Hst) as (st & w' & Hput & Hst').
      erewrite bind_call_Ok by (simpl; exact Hput).
      exists (snd (index now r)), w'. by destruct s.
    + exists (snd (index now r)), (ftpServer s). by destruct s.
  - exists now, (ftpServer s). by destruct s.
Qed.

Lemma updateLoop_run (times : gmap string DateTime) (lf : list string) :
  forall (now : gmap string DateTime) (s : State W),
    lookedUp times now ->
    stable (ftpServer s) ->
    (forall p, p ∈ lf -> is_Ok (localFileToRemote (argData s) p) = true) ->
    exists now' w',
      for_each_acc lf now (updateIfStale ftp) s
      = mkOutcome (Ok now') (mkState (argData s) w')
          (flat_map (updateCalls regular mtime (argData s) times) lf) /\
      lookedUp times now' /\ stable w'.
Proof.
  induction lf as [|file rest IH]; intros now s Hrel Hst Hmap; simpl.
  - exists now, (ftpServer s). by destruct s.
  - destruct (updateIfStale_run times now file s Hrel Hst)
      as (now1 & w1 & Hrun & Hrel1 & Hst1); [apply Hmap; left|].
    destruct (IH now1 (mkState (argData s) w1) Hrel1 Hst1)
      as (now2 & w2 & Hrest & Hrel2 & Hst2); [intros p Hp; apply Hmap; by right|].
    exists now2, w2. split; [|done].
    rewrite (bind_Ok _ _ _ now1) by (by rewrite Hrun).
    rewrite Hrun. cbn [result final trace]. by rewrite Hrest.
Qed.

Lemma fillLoop_run (rf : list string) :
  forall (acc : gmap string DateTime) (s : State W),
    stable (ftpServer s) ->
    exists times w',
      for_each_acc rf acc (recordModifiedTime ftp) s
      = mkOutcome (Ok times) (mkState (argData s) w') (map call_getModifiedDateTime rf) /\
      stable w'.
Proof.
  induction rf as [|file rest IH]; intros acc s Hst; simpl.
  - exists acc, (ftpServer s). by destruct s.
  - destruct (getModifiedDateTime_returns file (ftpServer s) Hst)
      as (st & t & w1 & Hq & Hst1).
    destruct (IH (if Z.eqb st 213 then <[file := t]> acc else acc)
                (mkState (argData s) w1) Hst1) as (times & w2 & Hrest & Hst2).
    exists times, w2. split; [|done].
    unfold recordModifiedTime at 1.
    assert (Hstep : (reply <- call (call_getModifiedDateTime file)
                                   (getModifiedDateTime ftp file) ;;
                     ret (if Z.eqb (fst reply) 213 then <[file := snd reply]> acc
                          else acc))%driver s
                    = mkOutcome (Ok (if Z.eqb st 213 then <[file := t]> acc else acc))
                        (mkState (argData s) w1) [call_getModifiedDateTime file]).
    { by rewrite (bind_call_Ok _ _ _ _ _ _ Hq). }
    rewrite (bind_Ok _ _ _ _ ltac:(by rewrite Hstep)).
    rewrite Hstep. cbn [result final trace]. by rewrite Hrest.
Qed.

Lemma pass3_run (lf rf : list string) (s : State W) :
  stable (ftpServer s) ->
  (forall p, p ∈ lf -> is_Ok (localFileToRemote (argData s) p) = true) ->
  exists times now w',
    result (fillModifiedTimes ftp rf s) = Ok times /\
    pass3 ftp lf rf s
    = mkOutcome (Ok now) (mkState (argData s) w')
        (map call_getModifiedDateTime rf
         ++ flat_map (updateCalls regular mtime (argData s) times) lf) /\
    lookedUp times now /\ stable w'.
Proof.
  intros Hst Hmap.
  destruct (fillLoop_run rf ∅ s Hst) as (times & w1 & Hfill & Hst1).
  destruct (updateLoop_run times lf times (mkState (argData s) w1)
              (lookedUp_refl times) Hst1 Hmap) as (now & w2 & Hloop & Hrel & Hst2).
  exists times, now, w2. unfold pass3, fillModifiedTimes.
  rewrite Hfill. split; [done|]. split; [|done].
  rewrite (bind_Ok _ _ _ times) by (by rewrite Hfill).
  rewrite Hfill. cbn [result final trace]. by rewrite Hloop.
Qed.

Lemma putFile_in_updateCalls (a : ParamArgData) (times : gmap string DateTime)
  (file r p : string) :
  call_putFile r p ∈ updateCalls regular mtime a times file <->
  file = p /\ regular p = true /\ localFileToRemote a p = Ok r /\
  DateTime_lt (oracleValue times r) (DateTime_of_localtime (mtime p)) = true.
Proof.
  unfold updateCalls. rewrite elem_of_cons. split.
  - intros [?|H]; [done|]. destruct (regular file) eqn:Hreg; [|by apply elem_of_nil in H].
    apply elem_of_cons in H as [?|H]; [done|].
    destruct (localFileToRemote a file) as [r'|e] eqn:Hr; [|by apply elem_of_nil in H].
    destruct (DateTime_lt _ _) eqn:Hlt; [|by apply elem_of_nil in H].
    apply list_elem_of_singleton in H. injection H as -> ->. done.
  - intros (-> & Hreg & Hr & Hlt). right. rewrite Hreg, Hr, Hlt.
    right. by apply list_elem_of_singleton.
Qed.

End Pass3Facts.


(** The reference world meets the assumptions of PASS 3. *)

Section IdealStable.
Import Ideal.
Variable w0 : Store.

Lemma ideal_isFile_stable (p : string) (w : Store) :
  sameLocal w0 w -> isFile port p w = Ok (regularIn w0 p, w).
Proof.
  intros Hw. simpl. unfold regularIn, lookupLocal. by rewrite Hw.
Qed.

Lemma ideal_lastWriteTime_stable (p : string) (w : Store) :
  sameLocal w0 w -> regularIn w0 p = true ->
  lastWriteTime port p w = Ok (mtimeIn w0 p, w).
Proof.
  intros Hw. simpl. unfold regularIn, mtimeIn, lookupLocal. rewrite Hw.
  by destruct (List.find _ _).
Qed.



End IdealStable.


(** ** FTPBackup and FTPRestore *)

Section OneWayFacts.
Context {DateTime : Type} `{DT : DateTimeOps DateTime} {W : Type}.
Variable ftp : Port DateTime W.

Lemma bind_call_Throw {A B} (c : Call) (op : W -> Result (A * W)) (f : A -> M W B)
  (s : State W) (e : Exception) :
  op (ftpServer s) = Throw e ->
  bind (call c op) f s = mkOutcome (Throw e) s [c].
Proof.
  intros H. rewrite (bind_Throw _ _ _ e) by (by rewrite (call_Throw _ _ _ _ H)).
  by rewrite (call_Throw _ _ _ _ H).
Qed.

Lemma connectOrThrow_cases (s : State W) :
  match connect ftp (ftpServer s) with
  | Ok (st, w1) =>
      if Z.eqb st 230
      then connectOrThrow ftp s = mkOutcome (Ok tt) (mkState (argData s) w1) [call_connect]
      else result (connectOrThrow ftp s)
           = Throw (CFTP_Exception "Unable to connect status returned = ")
  | Throw e => result (connectOrThrow ftp s) = Throw e
  end.
Proof.
  unfold connectOrThrow.
  destruct (connect ftp (ftpServer s)) as [[st w1]|e] eqn:Hc.
  - rewrite (bind_call_Ok _ _ _ _ _ _ Hc). by destruct (Z.eqb st 230).
  - by rewrite (bind_call_Throw _ _ _ _ _ Hc).
Qed.

Lemma for_each_say {A} (g : A -> string) (l : list A) (s : State W) :
  for_each l (fun x => say (g x)) s
  = mkOutcome (Ok tt) s (map (fun x => print (g x)) l).
Proof.
  induction l as [|x l IH]; simpl; [done|].
  rewrite (bind_Ok _ _ _ tt) by done. cbn [say result final trace]. by rewrite IH.
Qed.

Lemma signal_run (ok failed : string) (files : list string) (s : State W) :
  signal ok failed files s = mkOutcome (Ok tt) s (verdict ok failed files).
Proof.
  unfold signal, verdict. destruct files as [|f files]; [done|].
  apply (for_each_say (fun file => ok +:+ file +:+ "]")).
Qed.

Lemma verdict_prints (ok failed : string) (files : list string) :
  filter (fun c => is_print c = true) (verdict ok failed files) = verdict ok failed files.
Proof.
  unfold verdict. destruct files as [|f files]; [done|].
  generalize (f :: files). intros l. induction l as [|x l IH]; [done|].
  simpl. rewrite filter_cons_True by done. by rewrite IH.
Qed.

Variables (ok failed : string).
Variables (listCall : ParamArgData -> Call)
          (listOp : ParamArgData -> W -> Result (list string * W)).
Variables (moveCall : ParamArgData -> list string -> Call)
          (moveOp : ParamArgData -> list string -> W -> Result (list string * W)).

Hypothesis listCall_quiet : forall a, is_print (listCall a) = false.
Hypothesis moveCall_quiet : forall a listed, is_print (moveCall a listed) = false.

Local Abbreviation driver :=
  (oneWayDriver ftp ok failed listCall listOp moveCall moveOp).

(** The result of a one-way driver, step by step. *)
Lemma oneWay_cases (s : State W) :
  match connect ftp (ftpServer s) with
  | Throw e => result (driver s) = Throw e
  | Ok (st, w1) =>
      if Z.eqb st 230 then
        match listOp (argData s) w1 with
        | Throw e => result (driver s) = Throw e
        | Ok (listed, w2) =>
            match match listed with
                  | [] => Ok ([], w2)
                  | _ :: _ => moveOp (argData s) listed w2
                  end with
            | Throw e => result (driver s) = Throw e
            | Ok (moved, w3) =>
                filter (fun c => is_print c = true) (trace (driver s))
                = verdict ok failed moved /\
                match disconnect ftp w3 with
                | Throw e => result (driver s) = Throw e
                | Ok (_, w4) => result (driver s) = Ok moved
                end
            end
        end
      else result (driver s) = Throw (CFTP_Exception "Unable to connect status returned = ")
  end.
Proof.
  pose proof (connectOrThrow_cases s) as Hc. unfold oneWayDriver, oneWay.
  destruct (connect ftp (ftpServer s)) as [[st w1]|e].
  2: { by rewrite (bind_Throw _ _ _ e). }
  destruct (Z.eqb st 230).
  2: { by rewrite (bind_Throw _ _ _ _ Hc). }
  rewrite (bind_Ok _ _ _ tt) by (by rewrite Hc). rewrite Hc.
  cbn [result final trace]. rewrite bind_getArgs. cbn [argData].
  destruct (listOp (argData s) w1) as [[listed w2]|e] eqn:Hl.
  2: { by erewrite bind_call_Throw by (simpl; exact Hl). }
  erewrite bind_call_Ok by (simpl; exact Hl). cbn [result final trace argData].
  destruct (match listed with
            | [] => Ok ([], w2)
            | _ :: _ => moveOp (argData s) listed w2
            end) as [[moved w3]|e] eqn:Hm.
  2: { destruct listed as [|x l]; [done|].
       by erewrite bind_call_Throw by (simpl; exact Hm). }
  assert (Hmove : exists tr,
             filter (fun c => is_print c = true) tr = [] /\
             match listed with
             | [] => ret []
             | _ :: _ => call (moveCall (argData s) listed) (moveOp (argData s) listed)
             end (mkState (argData s) w2)
             = mkOutcome (Ok moved) (mkState (argData s) w3) tr).
  { destruct listed as [|x l].
    - injection Hm as <- <-. by exists [].
    - exists [moveCall (argData s) (x :: l)]. split.
      + rewrite filter_cons_False; [done|]. by rewrite moveCall_quiet.
      + by erewrite call_Ok by (simpl; exact Hm). }
  destruct Hmove as (tr & Htr & Hrun).
  rewrite (bind_Ok _ _ _ moved) by (by rewrite Hrun). rewrite Hrun.
  cbn [result final trace].
  rewrite (bind_Ok _ _ _ tt) by (by rewrite signal_run). rewrite signal_run.
  cbn [result final trace].
  assert (Hfilter : forall tail,
             filter (fun c => is_print c = true) tail = [] ->
             filter (fun c => is_print c = true)
               (call_connect :: listCall (argData s) :: tr
                  ++ verdict ok failed moved ++ tail)%list
             = verdict ok failed moved).
  { intros tail Htail. rewrite filter_cons_False by done.
    rewrite filter_cons_False by (by rewrite listCall_quiet).
    rewrite !filter_app, Htr, Htail, verdict_prints. simpl. by rewrite app_nil_r. }
  destruct (disconnect ftp w3) as [[[] w4]|e] eqn:Hd.
  - erewrite bind_call_Ok by (simpl; exact Hd). cbn [result final trace ret].
    split; [|done]. by apply Hfilter.
  - erewrite bind_call_Throw by (simpl; exact Hd). cbn [result final trace].
    split; [|done]. by apply Hfilter.
Qed.

(** A one-way driver ends well exactly when it connected with status 230,
    the listing and the transfer did not throw, and the disconnection did
    not throw; the list the transfer answered plays no part. *)
Lemma oneWay_Ok_iff (s : State W) (moved : list string) :
  result (driver s) = Ok moved <->
  exists w1 listed w2 w3 w4,
    connect ftp (ftpServer s) = Ok (230%Z, w1) /\
    listOp (argData s) w1 = Ok (listed, w2) /\
    transferred (moveOp (argData s)) listed w2 moved w3 /\
    disconnect ftp w3 = Ok (tt, w4).
Proof.
  pose proof (oneWay_cases s) as H. split.
  - intros Hr. rewrite Hr in H.
    destruct (connect ftp (ftpServer s)) as [[st w1]|e] eqn:Hc; [|done].
    destruct (Z.eqb st 230) eqn:Hst; [|done]. apply Z.eqb_eq in Hst as ->.
    destruct (listOp (argData s) w1) as [[listed w2]|e] eqn:Hl; [|done].
    destruct (match listed with
              | [] => Ok ([], w2)
              | _ :: _ => moveOp (argData s) listed w2
              end) as [[moved' w3]|e] eqn:Hm; [|done].
    destruct H as [_ H].
    destruct (disconnect ftp w3) as [[[] w4]|e] eqn:Hd; [|done].
    injection H as <-. exists w1, listed, w2, w3, w4.
    split; [done|]. split; [done|]. split; [|done].
    unfold transferred. destruct listed; [by injection Hm as <- <-|done].
  - intros (w1 & listed & w2 & w3 & w4 & Hc & Hl & Hm & Hd).
    rewrite Hc, Hl in H. simpl in H.
    assert (Hm' : match listed with
                  | [] => Ok ([], w2)
                  | _ :: _ => moveOp (argData s) listed w2
                  end = Ok (moved, w3)).
    { unfold transferred in Hm. destruct listed; [by destruct Hm as [-> ->]|done]. }
    rewrite Hm', Hd in H. by destruct H.
Qed.

Lemma oneWay_verdict (s : State W) (moved : list string) :
  result (driver s) = Ok moved ->
  filter (fun c => is_print c = true) (trace (driver s)) = verdict ok failed moved.
Proof.
  pose proof (oneWay_cases s) as H. intros Hr. rewrite Hr in H.
  destruct (connect ftp (ftpServer s)) as [[st w1]|e]; [|done].
  destruct (Z.eqb st 230); [|done].
  destruct (listOp (argData s) w1) as [[listed w2]|e]; [|done].
  destruct (match listed with
            | [] => Ok ([], w2)
            | _ :: _ => moveOp (argData s) listed w2
            end) as [[moved' w3]|e]; [|done].
  destruct H as [Hv H].
  destruct (disconnect ftp w3) as [[[] w4]|e]; [|done].
  by injection H as <-.
Qed.

End OneWayFacts.

Lemma FTPBackup_main_shape
  {DateTime : Type} `{DT : DateTimeOps DateTime} {W : Type} (ftp : Port DateTime W) :
  FTPBackup_main ftp
  = oneWayDriver ftp "Sucessfully backed up [" "Backup failed."
      (fun a => call_listLocalRecursive (localDirectory a))
      (fun a => listLocalRecursive ftp (localDirectory a))
      (fun a listed => call_putFiles (localDirectory a) listed)
      (fun a listed => putFiles ftp (localDirectory a) listed).
Proof. reflexivity. Qed.

Lemma FTPRestore_main_shape
  {DateTime : Type} `{DT : DateTimeOps DateTime} {W : Type} (ftp : Port DateTime W) :
  FTPRestore_main ftp
  = oneWayDriver ftp "Successfully restored [" "Restore failed."
      (fun a => call_listRemoteRecursive (remoteDirectory a))
      (fun a => listRemoteRecursive ftp (remoteDirectory a))
      (fun a listed => call_getFiles (localDirectory a) listed)
      (fun a listed => getFiles ftp (localDirectory a) listed).
Proof. reflexivity. Qed.

(** C8. For [FTPBackup] and for [FTPRestore]: the run ends without an
    exception exactly when the connection was accepted (230), the listing
    and the transfer did not throw and the disconnection did not throw,
    whatever list of transferred files [putFiles]/[getFiles] answered; the
    exit code is [EXIT_SUCCESS] then and [EXIT_FAILURE] on any exception,
    and nothing else; and a run that ends prints the failure line exactly
    when no file was transferred, a success line per transferred file
    otherwise. *)
Theorem backup_restore_verdict_and_exit
  {DateTime : Type} `{DT : DateTimeOps DateTime} {W : Type}
  (ftp : Port DateTime W) (s : State W) :
  let a := argData s in
  let b := FTPBackup_main ftp s in
  let r := FTPRestore_main ftp s in
  (forall moved,
     result b = Ok moved <->
     exists w1 listed w2 w3 w4,
       connect ftp (ftpServer s) = Ok (230%Z, w1) /\
       listLocalRecursive ftp (localDirectory a) w1 = Ok (listed, w2) /\
       transferred (putFiles ftp (localDirectory a)) listed w2 moved w3 /\
       disconnect ftp w3 = Ok (tt, w4)) /\
  (forall moved,
     result r = Ok moved <->
     exists w1 listed w2 w3 w4,
       connect ftp (ftpServer s) = Ok (230%Z, w1) /\
       listRemoteRecursive ftp (remoteDirectory a) w1 = Ok (listed, w2) /\
       transferred (getFiles ftp (localDirectory a)) listed w2 moved w3 /\
       disconnect ftp w3 = Ok (tt, w4)) /\
  (forall moved,
     result b = Ok moved ->
     filter (fun c => is_print c = true) (trace b)
     = verdict "Sucessfully backed up [" "Backup failed." moved /\
     (print "Backup failed." ∈ trace b <-> moved = [])) /\
  (forall moved,
     result r = Ok moved ->
     filter (fun c => is_print c = true) (trace r)
     = verdict "Successfully restored [" "Restore failed." moved /\
     (print "Restore failed." ∈ trace r <-> moved = [])) /\
  (exit_code b = EXIT_SUCCESS <-> exists moved, result b = Ok moved) /\
  (exit_code b = EXIT_FAILURE <-> exists e, result b = Throw e) /\
  (exit_code r = EXIT_SUCCESS <-> exists moved, result r = Ok moved) /\
  (exit_code r = EXIT_FAILURE <-> exists e, result r = Throw e).
Proof.
  intros a b r.
  assert (Hexit : forall o : Outcome W (list string),
             (exit_code o = EXIT_SUCCESS <-> exists moved, result o = Ok moved) /\
             (exit_code o = EXIT_FAILURE <-> exists e, result o = Throw e)).
  { intros o. unfold exit_code. destruct (result o) as [moved|e]; split; split;
      try done; eauto; by intros [? ?]. }
  assert (Hfailed : forall (o : Outcome W (list string)) ok failed moved,
             (forall file, ok +:+ file +:+ "]" <> failed) ->
             filter (fun c => is_print c = true) (trace o) = verdict ok failed moved ->
             (print failed ∈ trace o <-> moved = [])).
  { intros o ok failed moved Hne Hv.
    assert (Hin : print failed ∈ trace o <-> print failed ∈ verdict ok failed moved).
    { rewrite <- Hv, list_elem_of_filter. simpl. tauto. }
    rewrite Hin. unfold verdict. destruct moved as [|f l].
    - split; [done|]. intros _. by apply list_elem_of_singleton.
    - split; [|done]. intros (file & Hf & _)%list_elem_of_fmap.
      injection Hf as Hf. by destruct (Hne file). }
  subst b r. rewrite (FTPBackup_main_shape ftp), (FTPRestore_main_shape ftp).
  split.
  { intros moved.
    exact (oneWay_Ok_iff ftp "Sucessfully backed up [" "Backup failed."
             (fun a => call_listLocalRecursive (localDirectory a))
             (fun a => listLocalRecursive ftp (localDirectory a))
             (fun a listed => call_putFiles (localDirectory a) listed)
             (fun a listed => putFiles ftp (localDirectory a) listed)
             (fun _ => eq_refl) (fun _ _ => eq_refl) s moved). }
  split.
  { intros moved.
    exact (oneWay_Ok_iff ftp "Successfully restored [" "Restore failed."
             (fun a => call_listRemoteRecursive (remoteDirectory a))
             (fun a => listRemoteRecursive ftp (remoteDirectory a))
             (fun a listed => call_getFiles (localDirectory a) listed)
             (fun a listed => getFiles ftp (localDirectory a) listed)
             (fun _ => eq_refl) (fun _ _ => eq_refl) s moved). }
  split.
  { intros moved Hr.
    pose proof (oneWay_verdict ftp "Sucessfully backed up [" "Backup failed."
                  (fun a => call_listLocalRecursive (localDirectory a))
                  (fun a => listLocalRecursive ftp (localDirectory a))
                  (fun a listed => call_putFiles (localDirectory a) listed)
                  (fun a listed => putFiles ftp (localDirectory a) listed)
                  (fun _ => eq_refl) (fun _ _ => eq_refl) s moved Hr) as Hv.
    split; [exact Hv|].
    apply (Hfailed _ "Sucessfully backed up [" "Backup failed." moved); [|exact Hv].
    intros file Hf. rewrite StdStringFacts.append_cons in Hf. discriminate. }
  split.
  { intros moved Hr.
    pose proof (oneWay_verdict ftp "Successfully restored [" "Restore failed."
                  (fun a => call_listRemoteRecursive (remoteDirectory a))
                  (fun a => listRemoteRecursive ftp (remoteDirectory a))
                  (fun a listed => call_getFiles (localDirectory a) listed)
                  (fun a listed => getFiles ftp (localDirectory a) listed)
                  (fun _ => eq_refl) (fun _ _ => eq_refl) s moved Hr) as Hv.
    split; [exact Hv|].
    apply (Hfailed _ "Successfully restored [" "Restore failed." moved); [|exact Hv].
    intros file Hf. rewrite StdStringFacts.append_cons in Hf. discriminate. }
  split; [apply Hexit|]. split; [apply Hexit|]. apply Hexit.
Qed.

(** ** The oracle *)

(** As the first loop of PASS 3 builds it, the map holds a time only for
    a listed path whose query answered 213 with that time. *)
Lemma fillModifiedTimes_only_answered
  {DateTime : Type} `{DT : DateTimeOps DateTime} {W : Type}
  (ftp : Port DateTime W) (rf : list string) :
  forall (acc : gmap string DateTime) (s : State W) (times : gmap string DateTime)
         (r : string) (t : DateTime),
    result (for_each_acc rf acc (recordModifiedTime ftp) s) = Ok times ->
    times !! r = Some t ->
    acc !! r = Some t \/
    (r ∈ rf /\ exists w w', getModifiedDateTime ftp r w = Ok (213%Z, t, w')).
Proof.
  induction rf as [|file rest IH]; intros acc s times r t Hres Hr; simpl in Hres.
  - injection Hres as <-. by left.
  - unfold bind in Hres.
    destruct (result (recordModifiedTime ftp acc file s)) as [acc'|e] eqn:Hstep;
      [|done].
    simpl in Hres.
    destruct (IH _ _ _ _ _ Hres Hr) as [Hacc|[Hin Hq]];
      [|right; split; [by right|done]].
    unfold recordModifiedTime, bind, call in Hstep.
    destruct (getModifiedDateTime ftp file (ftpServer s)) as [[[st t'] w']|e] eqn:Hq;
      [|done].
    simpl in Hstep. injection Hstep as <-.
    destruct (Z.eqb st 213) eqn:Hst; [|by left].
    apply Z.eqb_eq in Hst as ->.
    destruct (decide (file = r)) as [->|Hne].
    + rewrite lookup_insert_eq in Hacc. injection Hacc as ->.
      right. split; [left|eauto].
    + rewrite lookup_insert_ne in Hacc by done. by left.
Qed.

(** C6 at a failing input: the server answers no modification time query,
    so the oracle is built empty; yet after the update loop it holds the
    remote name of the local file, with the default-constructed time, put
    there by the lookup. *)
Theorem oracle_holds_default_after_lookup :
  (forall p w, getModifiedDateTime Ideal.noModifiedTime p w = Ok (500%Z, 0%Z, w)) /\
  result (fillModifiedTimes Ideal.noModifiedTime ["/backup/a.txt"] Scenario.start)
  = Ok ∅ /\
  exists times,
    result (pass3 Ideal.noModifiedTime ["/home/u/a.txt"] ["/backup/a.txt"] Scenario.start)
    = Ok times /\
    times !! "/backup/a.txt" = Some DateTime_default.
Proof.
  split; [done|]. split; [done|].
  eexists. split; [vm_compute; reflexivity|]. done.
Qed.

(** ** Two runs in a row *)

Section ComposeFacts.
Context {DateTime : Type} `{DT : DateTimeOps DateTime} {W : Type}.
Variable ftp : Port DateTime W.

Lemma threePasses_run (lf rf : list string) (s s1 s2 s3 : State W)
  (p1 : Pass1) (times : gmap string DateTime) (t1 t2 t3 : list Call) :
  pass1 ftp lf rf s = mkOutcome (Ok p1) s1 t1 ->
  pass2 ftp lf (remoteFiles1 p1) s1 = mkOutcome (Ok tt) s2 t2 ->
  pass3 ftp lf (remoteFiles1 p1) s2 = mkOutcome (Ok times) s3 t3 ->
  threePasses ftp lf rf s
  = mkOutcome (Ok (mkSyncLocals lf rf p1 times)) s3 (t1 ++ t2 ++ t3)%list.
Proof.
  intros H1 H2 H3. unfold threePasses.
  rewrite (bind_Ok _ _ _ p1) by (by rewrite H1). rewrite H1. cbn [result final trace].
  rewrite (bind_Ok _ _ _ tt) by (by rewrite H2). rewrite H2. cbn [result final trace].
  rewrite (bind_Ok _ _ _ times) by (by rewrite H3). rewrite H3. cbn [result final trace ret].
  by rewrite app_nil_r.
Qed.

Lemma selectNewFiles_none (a : ParamArgData) (rf lf : list string) :
  (forall p, p ∈ lf -> exists r, localFileToRemote a p = Ok r /\ r ∈ rf) ->
  selectNewFiles a rf lf = Ok [].
Proof.
  induction lf as [|file rest IH]; intros H; simpl; [done|].
  destruct (H file) as (r & -> & Hr); [left|].
  rewrite IH by (intros p Hp; apply H; by right).
  by rewrite bool_decide_eq_true_2.
Qed.

Lemma pass1_nothing_new (lf rf : list string) (s : State W) :
  (forall p, p ∈ lf -> exists r, localFileToRemote (argData s) p = Ok r /\ r ∈ rf) ->
  pass1 ftp lf rf s = mkOutcome (Ok (mkPass1 [] [] rf)) s [].
Proof.
  intros H. unfold pass1. rewrite bind_getArgs.
  by rewrite (selectNewFiles_none _ _ _ H), bind_lift_Ok.
Qed.


End ComposeFacts.

Section MappingFacts.
Import StdString StdStringFacts.

Lemma below_app (root p : string) :
  Ideal.below root p = true <-> exists s, p = root +:+ String sep s.
Proof.
  unfold Ideal.below, push_back. rewrite starts_with_app. split.
  - intros [s ->]. exists s. by rewrite append_assoc.
  - intros [s ->]. exists s. by rewrite append_assoc.
Qed.

Lemma localFileToRemote_below (a : ParamArgData) (p r : string) :
  back (localDirectory a) = Some sep ->
  starts_with (localDirectory a) p = true ->
  localFileToRemote a p = Ok r ->
  Ideal.below (remoteDirectory a) r = true /\ remoteFileToLocal a r = Ok p.
Proof.
  intros Hb [s ->]%starts_with_app Hr.
  rewrite localFileToRemote_under in Hr by done. injection Hr as <-.
  split; [apply below_app; eauto|apply remoteFileToLocal_under].
Qed.


Lemma localFileToRemote_inj (a : ParamArgData) (p p' r : string) :
  back (localDirectory a) = Some sep ->
  starts_with (localDirectory a) p = true ->
  starts_with (localDirectory a) p' = true ->
  localFileToRemote a p = Ok r -> localFileToRemote a p' = Ok r -> p = p'.
Proof.
  intros Hb Hp Hp' Hr Hr'.
  destruct (localFileToRemote_below a p r Hb Hp Hr) as [_ H1].
  destruct (localFileToRemote_below a p' r Hb Hp' Hr') as [_ H2].
  congruence.
Qed.

End MappingFacts.

Section IdealRun.
Import Ideal.



End IdealRun.

Section IdealTrees.
Import Ideal.







Variable a : ParamArgData.





End IdealTrees.

Section IdealFolds.
Import Ideal.
Variable a : ParamArgData.





Variable w0 : Store.
Variable times : gmap string Z.



End IdealFolds.

Section IdealPasses.
Import Ideal.
Variable a : ParamArgData.





Variable w0 : Store.
Variable times : gmap string Z.



End IdealPasses.

Section IdealSync.
Import Ideal.
Variable a : ParamArgData.
Hypothesis local_root : StdString.back (localDirectory a) = Some sep.





End IdealSync.

Section IdealTwice.
Import Ideal.
Variable a : ParamArgData.
Hypothesis local_root : StdString.back (localDirectory a) = Some sep.



End IdealTwice.

Section IdealIdle.
Import Ideal.
Variable a : ParamArgData.
Hypothesis local_root : StdString.back (localDirectory a) = Some sep.




End IdealIdle.

Section MirrorFacts.
Context {DateTime : Type} `{DT : DateTimeOps DateTime} {W : Type}.
Variable ftp : Port DateTime W.
Variable stable : W -> Prop.
Variable regular : string -> bool.
Variable mtime : string -> Z.
Hypothesis isFile_stable :
  forall p w, stable w -> isFile ftp p w = Ok (regular p, w).
Hypothesis lastWriteTime_stable :
  forall p w, stable w -> regular p = true -> lastWriteTime ftp p w = Ok (mtime p, w).
Hypothesis putFile_returns :
  forall r l w, stable w -> exists st w', putFile ftp r l w = Ok (st, w') /\ stable w'.
Hypothesis getModifiedDateTime_returns :
  forall p w, stable w ->
    exists st t w', getModifiedDateTime ftp p w = Ok (st, t, w') /\ stable w'.





End MirrorFacts.






(** * Further properties of the drivers *)

(** ** The path mapping, beyond the round trip *)

Section MappingMore.
Import StdString StdStringFacts.

Lemma substr_split (s : string) (pos : nat) (t : string) :
  substr s pos = Ok t -> exists h, s = h +:+ t /\ String.length h = pos.
Proof.
  revert s; induction pos as [|n IH]; intros s H; simpl in *.
  - injection H as <-. by exists EmptyString.
  - destruct s as [|c s]; [discriminate|].
    destruct (IH _ H) as (h & -> & <-). by exists (String c h).
Qed.

Lemma back_None (s : string) : back s = None -> s = EmptyString.
Proof.
  induction s as [|c s IH]; [done|]. simpl. destruct s as [|d s]; [done|].
  intros H. by specialize (IH H).
Qed.

Lemma normalizeLocalDirectory_cases (dir : string) :
  match normalizeLocalDirectory dir with
  | None => dir = EmptyString
  | Some l => dir <> EmptyString /\ (l = dir \/ l = push_back dir sep) /\ back l = Some sep
  end.
Proof.
  unfold normalizeLocalDirectory.
  destruct (back dir) as [x|] eqn:Hb; [|by apply back_None].
  assert (dir <> EmptyString) by (by intros ->).
  destruct (Ascii.eqb x sep) eqn:Hx.
  - apply Ascii.eqb_eq in Hx as ->. split; [done|]. split; [by left|done].
  - split; [done|]. split; [by right|apply back_push_back].
Qed.

End MappingMore.

(** X1. [remoteFileToLocal] skips the one character after the remote
    root whatever it is. So a remote path [root ++ c ++ s] comes back from
    [localFileToRemote] as itself exactly when [c] is the separator: with a
    remote root that itself ends in ['/'], the first character of the name
    below it is lost. *)
Theorem remote_round_trip_needs_separator (a : ParamArgData) (c : ascii) (s : string) :
  StdString.back (localDirectory a) = Some sep ->
  remoteFileToLocal a (remoteDirectory a +:+ String c s) = Ok (localDirectory a +:+ s) /\
  (localFileToRemote a (localDirectory a +:+ s) = Ok (remoteDirectory a +:+ String c s)
   <-> c = sep).
Proof.
  intros Hb. split.
  - unfold remoteFileToLocal.
    replace (remoteDirectory a +:+ String c s)
      with (StdString.push_back (remoteDirectory a) c +:+ s)
      by (unfold StdString.push_back; by rewrite StdStringFacts.append_assoc).
    replace (String.length (remoteDirectory a) + 1)
      with (String.length (StdString.push_back (remoteDirectory a) c))
      by (unfold StdString.push_back; rewrite StdStringFacts.append_length; simpl; lia).
    by rewrite StdStringFacts.substr_app.
  - rewrite localFileToRemote_under by done. split.
    + intros [= H]. revert H. generalize (remoteDirectory a). intros r H.
      induction r as [|x r IH]; [by injection H as ->|].
      rewrite !StdStringFacts.append_cons in H. injection H as H. by apply IH.
    + by intros ->.
Qed.

Lemma remote_round_trip_needs_separator_witness :
  remoteFileToLocal (mkArgs "/" "/home/u/") "/a.txt" = Ok "/home/u/.txt" /\
  (localFileToRemote (mkArgs "/" "/home/u/") "/home/u/.txt" = Ok "/a.txt"
   <-> "a"%char = sep).
Proof.
  apply (remote_round_trip_needs_separator (mkArgs "/" "/home/u/") "a"%char ".txt").
  reflexivity.
Defined.

(** X2. Below a local root that ends with ['/'], [localFileToRemote] is
    one to one: two local paths with the same remote name are the same
    path. *)
Theorem localFileToRemote_one_to_one (a : ParamArgData) (p p' : string) :
  StdString.back (localDirectory a) = Some sep ->
  StdString.starts_with (localDirectory a) p = true ->
  StdString.starts_with (localDirectory a) p' = true ->
  localFileToRemote a p = localFileToRemote a p' ->
  p = p'.
Proof.
  intros Hb Hp Hp' Heq.
  destruct (mapping_total_local a p Hb Hp) as [r Hr].
  rewrite Hr in Heq. symmetry in Heq.
  exact (localFileToRemote_inj a p p' r Hb Hp Hp' Hr Heq).
Qed.

Lemma localFileToRemote_one_to_one_witness :
  "/home/u/a.txt" = "/home/u/" +:+ "a.txt".
Proof.
  apply (localFileToRemote_one_to_one (mkArgs "/backup" "/home/u/")); reflexivity.
Defined.

(** X3. [localFileToRemote] looks only at what follows the position of
    the last ['/'] of the local root: two paths that agree from there on get
    the same remote name, whatever their first characters are. A path
    outside the local root can so collide with one inside. *)
Theorem localFileToRemote_ignores_head (a : ParamArgData) (x y s : string) :
  StdString.rfind (localDirectory a) sep = Some (String.length x) ->
  String.length y = String.length x ->
  localFileToRemote a (x +:+ s) = Ok (remoteDirectory a +:+ s) /\
  localFileToRemote a (y +:+ s) = Ok (remoteDirectory a +:+ s).
Proof.
  intros Hpos Hlen. unfold localFileToRemote. rewrite Hpos.
  split; [by rewrite StdStringFacts.substr_app|].
  by rewrite <- Hlen, StdStringFacts.substr_app.
Qed.

Lemma localFileToRemote_ignores_head_witness :
  localFileToRemote (mkArgs "/backup" "/home/u/") "/home/u/a.txt" = Ok "/backup/a.txt" /\
  localFileToRemote (mkArgs "/backup" "/home/u/") "/var/tm/a.txt" = Ok "/backup/a.txt".
Proof.
  apply (localFileToRemote_ignores_head (mkArgs "/backup" "/home/u/")
           "/home/u" "/var/tm" "/a.txt"); reflexivity.
Defined.

(** X4. What the two mappings return, whatever the path: the new root
    followed by a suffix of the path. [localFileToRemote] drops as many
    characters as precede the last ['/'] of the local root,
    [remoteFileToLocal] as many as the remote root has and one more; neither
    compares what it drops with the root. *)
Theorem mapping_keeps_a_suffix (a : ParamArgData) (p q : string) :
  (localFileToRemote a p = Ok q <->
   exists head tail,
     StdString.rfind (localDirectory a) sep = Some (String.length head) /\
     p = head +:+ tail /\ q = remoteDirectory a +:+ tail) /\
  (remoteFileToLocal a p = Ok q <->
   exists head tail,
     String.length head = String.length (remoteDirectory a) + 1 /\
     p = head +:+ tail /\ q = localDirectory a +:+ tail).
Proof.
  split; split.
  - unfold localFileToRemote.
    destruct (StdString.rfind (localDirectory a) sep) as [pos|]; [|done].
    destruct (StdString.substr p pos) as [t|e] eqn:E; [|done].
    intros [= <-]. destruct (substr_split _ _ _ E) as (h & -> & <-). by exists h, t.
  - intros (h & t & Hpos & -> & ->). unfold localFileToRemote.
    by rewrite Hpos, StdStringFacts.substr_app.
  - unfold remoteFileToLocal.
    destruct (StdString.substr p _) as [t|e] eqn:E; [|done].
    intros [= <-]. destruct (substr_split _ _ _ E) as (h & -> & Hlen). by exists h, t.
  - intros (h & t & Hlen & -> & ->). unfold remoteFileToLocal.
    by rewrite <- Hlen, StdStringFacts.substr_app.
Qed.

(** X5. The normalisation of the local directory in [procCmdLine] is
    defined on every non-empty name (and only there, [back()] having no
    value on the empty string), and normalising twice gives what normalising
    once gives. *)
Theorem normalizeLocalDirectory_idempotent (dir : string) :
  (normalizeLocalDirectory dir = None <-> dir = EmptyString) /\
  (forall l, normalizeLocalDirectory dir = Some l -> normalizeLocalDirectory l = Some l).
Proof.
  pose proof (normalizeLocalDirectory_cases dir) as H. split.
  - destruct (normalizeLocalDirectory dir) as [l|]; [|done].
    destruct H as [H _]. split; [done|]. intros ->. done.
  - intros l Hl. rewrite Hl in H. destruct H as (_ & _ & Hb).
    unfold normalizeLocalDirectory. rewrite Hb. by rewrite Ascii.eqb_refl.
Qed.

(** ** Which calls a step makes *)

Section CallFacts.
Context {W : Type}.

Lemma onlyCalls_ret {A} P (a : A) : onlyCalls P (@ret W A a).
Proof. intros s. constructor. Qed.

Lemma onlyCalls_throw {A} P e : onlyCalls P (@throw W A e).
Proof. intros s. constructor. Qed.

Lemma onlyCalls_lift {A} P (r : Result A) : onlyCalls P (@lift W A r).
Proof. intros s. constructor. Qed.

Lemma onlyCalls_getArgs P : onlyCalls P (@getArgs W).
Proof. intros s. constructor. Qed.

Lemma onlyCalls_setRemoteDirectory P dir : onlyCalls P (@setRemoteDirectory W dir).
Proof. intros s. constructor. Qed.

Lemma onlyCalls_say (P : Call -> Prop) line : P (print line) -> onlyCalls P (@say W line).
Proof. intros H s. by repeat constructor. Qed.

Lemma onlyCalls_call {A} (P : Call -> Prop) c (op : W -> Result (A * W)) :
  P c -> onlyCalls P (call c op).
Proof. intros H s. rewrite call_trace. by repeat constructor. Qed.

Lemma onlyCalls_bind {A B} P (m : M W A) (f : A -> M W B) :
  onlyCalls P m -> (forall a, onlyCalls P (f a)) -> onlyCalls P (bind m f).
Proof.
  intros Hm Hf s. rewrite trace_bind. apply Forall_app. split; [apply Hm|].
  destruct (result (m s)); [apply Hf|constructor].
Qed.

Lemma onlyCalls_for_each {A} P (l : list A) (body : A -> M W unit) :
  (forall x, onlyCalls P (body x)) -> onlyCalls P (for_each l body).
Proof.
  intros H. induction l as [|x l IH]; simpl; [apply onlyCalls_ret|].
  apply onlyCalls_bind; [apply H|by intros _].
Qed.

Lemma onlyCalls_for_each_acc {A S} P (l : list A) (acc : S) (body : S -> A -> M W S) :
  (forall acc' x, onlyCalls P (body acc' x)) -> onlyCalls P (for_each_acc l acc body).
Proof.
  intros H. revert acc. induction l as [|x l IH]; intros acc; simpl;
    [apply onlyCalls_ret|].
  apply onlyCalls_bind; [apply H|intros acc'; apply IH].
Qed.

Lemma onlyCalls_weaken {A} (P Q : Call -> Prop) (m : M W A) :
  (forall c, P c -> Q c) -> onlyCalls P m -> onlyCalls Q m.
Proof. intros H Hm s. eapply Forall_impl; [apply Hm|exact H]. Qed.

End CallFacts.

Ltac calls_only :=
  repeat first
    [ apply onlyCalls_ret | apply onlyCalls_throw | apply onlyCalls_lift
    | apply onlyCalls_getArgs | apply onlyCalls_setRemoteDirectory
    | apply onlyCalls_call | apply onlyCalls_say
    | apply onlyCalls_bind; [|intros ?]
    | apply onlyCalls_for_each; intros ?
    | apply onlyCalls_for_each_acc; intros ? ?
    | progress cbv zeta
    | match goal with
      | |- onlyCalls _ (if ?b then _ else _) => destruct b
      | |- onlyCalls _ (match ?l with [] => _ | _ :: _ => _ end) => destruct l
      end ].

Section SessionFacts.
Context {DateTime : Type} `{DT : DateTimeOps DateTime} {W : Type}.
Variable ftp : Port DateTime W.

Lemma pass1_only (lf rf : list string) : onlyCalls inPass1 (pass1 ftp lf rf).
Proof. unfold pass1. calls_only; exact I. Qed.

Lemma pass2_only (lf rf : list string) : onlyCalls inPass2 (pass2 ftp lf rf).
Proof. unfold pass2, removeIfOrphan. calls_only; exact I. Qed.

Lemma fillModifiedTimes_only (rf : list string) :
  onlyCalls inFill (fillModifiedTimes ftp rf).
Proof. unfold fillModifiedTimes, recordModifiedTime. calls_only; exact I. Qed.

Lemma updateLoop_only (lf : list string) (times : gmap string DateTime) :
  onlyCalls inUpdate (for_each_acc lf times (updateIfStale ftp)).
Proof. unfold updateIfStale. calls_only; exact I. Qed.

Lemma pass1_once (lf rf : list string) (s : State W) :
  length (trace (pass1 ftp lf rf s)) <= 1.
Proof.
  unfold pass1. rewrite bind_getArgs, trace_bind. simpl.
  destruct (selectNewFiles _ _ _) as [[|x new]|e]; simpl; [lia| |lia].
  rewrite trace_bind, call_trace. simpl. destruct (result _); simpl; lia.
Qed.

Lemma pass3_phases (lf rf : list string) (s : State W) :
  exists t3 t4,
    trace (pass3 ftp lf rf s) = (t3 ++ t4)%list /\ Forall inFill t3 /\ Forall inUpdate t4.
Proof.
  unfold pass3. rewrite trace_bind. eexists _, _. split; [done|].
  split; [apply fillModifiedTimes_only|].
  destruct (result _); [apply updateLoop_only|constructor].
Qed.

Lemma threePasses_quiet (lf rf : list string) :
  onlyCalls (fun c => c <> call_disconnect) (threePasses ftp lf rf).
Proof.
  unfold threePasses, pass3.
  apply onlyCalls_bind;
    [apply (onlyCalls_weaken inPass1); [by intros []|apply pass1_only]|intros p1].
  apply onlyCalls_bind;
    [apply (onlyCalls_weaken inPass2); [by intros []|apply pass2_only]|intros _].
  apply onlyCalls_bind; [|intros times; apply onlyCalls_ret].
  apply onlyCalls_bind;
    [apply (onlyCalls_weaken inFill); [by intros []|apply fillModifiedTimes_only]|
     intros times].
  apply (onlyCalls_weaken inUpdate); [by intros []|apply updateLoop_only].
Qed.

Lemma quiet_not_in {A} (m : M W A) (s : State W) :
  onlyCalls (fun c => c <> call_disconnect) m -> call_disconnect ∉ trace (m s).
Proof.
  intros H Hin. specialize (H s). rewrite Forall_forall in H. by apply (H _ Hin).
Qed.

Lemma disconnectsLast_bind {A B} (m : M W A) (f : A -> M W B) :
  onlyCalls (fun c => c <> call_disconnect) m ->
  (forall a, disconnectsLast ftp (f a)) ->
  disconnectsLast ftp (bind m f).
Proof.
  intros Hm Hf s. pose proof (quiet_not_in m s Hm) as Hq.
  destruct (result (m s)) as [a|e] eqn:E.
  - rewrite (bind_Ok _ _ _ _ E). cbn [result final trace].
    destruct (Hf a (final (m s))) as [(pre & Htr & Hpre & He)|[Hno [e He]]].
    + left. exists (trace (m s) ++ pre)%list. rewrite Htr, app_assoc.
      split; [done|]. split; [|done]. by intros [?|?]%elem_of_app.
    + right. split; [by intros [?|?]%elem_of_app|eauto].
  - rewrite (bind_Throw _ _ _ _ E). cbn [result final trace]. right. eauto.
Qed.

Lemma disconnectsLast_end {A} (x : A) :
  disconnectsLast ftp (call call_disconnect (disconnect ftp) ;;; ret x)%driver.
Proof.
  intros s. left. exists []. unfold bind, call.
  destruct (disconnect ftp (ftpServer s)) as [[[] w]|e] eqn:E; cbn.
  - split; [done|]. split; [apply not_elem_of_nil|done].
  - split; [done|]. split; [apply not_elem_of_nil|]. by intros e' [= <-].
Qed.

Lemma connectOrThrow_quiet :
  onlyCalls (fun c => c <> call_disconnect) (connectOrThrow ftp).
Proof. unfold connectOrThrow. calls_only; done. Qed.

Lemma FTPSync_main_disconnectsLast : disconnectsLast ftp (FTPSync_main ftp).
Proof.
  unfold FTPSync_main.
  apply disconnectsLast_bind; [apply connectOrThrow_quiet|intros _].
  apply disconnectsLast_bind; [unfold createRemoteDirectory; calls_only; done|intros _].
  apply disconnectsLast_bind; [unfold enterRemoteDirectory; calls_only; done|intros _].
  unfold listAndSync.
  apply disconnectsLast_bind; [apply onlyCalls_getArgs|intros a].
  apply disconnectsLast_bind; [by apply onlyCalls_call|intros rf].
  apply disconnectsLast_bind; [by apply onlyCalls_call|intros lf].
  apply disconnectsLast_bind; [apply threePasses_quiet|intros locals].
  apply disconnectsLast_end.
Qed.

Lemma oneWayDriver_disconnectsLast (ok failed : string)
  (listCall : ParamArgData -> Call)
  (listOp : ParamArgData -> W -> Result (list string * W))
  (moveCall : ParamArgData -> list string -> Call)
  (moveOp : ParamArgData -> list string -> W -> Result (list string * W)) :
  (forall a, listCall a <> call_disconnect) ->
  (forall a l, moveCall a l <> call_disconnect) ->
  disconnectsLast ftp (oneWayDriver ftp ok failed listCall listOp moveCall moveOp).
Proof.
  intros Hl Hm. unfold oneWayDriver, oneWay.
  apply disconnectsLast_bind; [apply connectOrThrow_quiet|intros _].
  apply disconnectsLast_bind; [apply onlyCalls_getArgs|intros a].
  apply disconnectsLast_bind; [by apply onlyCalls_call|intros listed].
  apply disconnectsLast_bind.
  { destruct listed; [apply onlyCalls_ret|by apply onlyCalls_call]. }
  intros moved.
  apply disconnectsLast_bind; [|intros _; apply disconnectsLast_end].
  unfold signal. destruct moved; [by apply onlyCalls_say|].
  apply onlyCalls_for_each. intros x. by apply onlyCalls_say.
Qed.

Lemma refused_first {A} (k : unit -> M W A) (s : State W) :
  (forall w1, connect ftp (ftpServer s) <> Ok (230%Z, w1)) ->
  trace (bind (connectOrThrow ftp) k s) = [call_connect] /\
  exit_code (bind (connectOrThrow ftp) k s) = EXIT_FAILURE.
Proof.
  intros H. unfold connectOrThrow, exit_code.
  destruct (connect ftp (ftpServer s)) as [[st w1]|e] eqn:Hc.
  - destruct (Z.eqb_spec st 230) as [->|Hne]; [by destruct (H w1)|].
    assert (Hstep : result ((st <- call call_connect (connect ftp) ;;
                             if Z.eqb st 230 then ret tt
                             else throw (CFTP_Exception
                                           "Unable to connect status returned = "))%driver s)
                    = Throw (CFTP_Exception "Unable to connect status returned = ")).
    { rewrite (bind_call_Ok _ _ _ _ _ _ Hc). cbn [result].
      by destruct (Z.eqb_spec st 230). }
    rewrite (bind_Throw _ _ _ _ Hstep). cbn [result trace]. split; [|done].
    rewrite (bind_call_Ok _ _ _ _ _ _ Hc). cbn [trace].
    by destruct (Z.eqb_spec st 230).
  - assert (Hstep : (st <- call call_connect (connect ftp) ;;
                     if Z.eqb st 230 then ret tt
                     else throw (CFTP_Exception
                                   "Unable to connect status returned = "))%driver s
                    = mkOutcome (Throw e) s [call_connect]).
    { by rewrite (bind_call_Throw _ _ _ _ _ Hc). }
    rewrite (bind_Throw _ _ _ e) by (by rewrite Hstep). by rewrite Hstep.
Qed.

End SessionFacts.

(** ** The session *)

(** X6. When the server does not accept the connection (a status other
    than 230, or an exception of [connect]), [FTPSync], [FTPBackup] and
    [FTPRestore] ask nothing more of the server or of the local file
    system, and end with the failure exit code. *)
Theorem refused_connection_ends_run
  {DateTime : Type} `{DT : DateTimeOps DateTime} {W : Type}
  (ftp : Port DateTime W) (s : State W) :
  (forall w1, connect ftp (ftpServer s) <> Ok (230%Z, w1)) ->
  (trace (FTPSync_main ftp s) = [call_connect] /\
   exit_code (FTPSync_main ftp s) = EXIT_FAILURE) /\
  (trace (FTPBackup_main ftp s) = [call_connect] /\
   exit_code (FTPBackup_main ftp s) = EXIT_FAILURE) /\
  (trace (FTPRestore_main ftp s) = [call_connect] /\
   exit_code (FTPRestore_main ftp s) = EXIT_FAILURE).
Proof.
  intros H. split; [|split]; by apply refused_first.
Qed.

Lemma refused_connection_ends_run_witness :
  (trace (FTPSync_main Servers.closed Scenario.start) = [call_connect] /\
   exit_code (FTPSync_main Servers.closed Scenario.start) = EXIT_FAILURE) /\
  (trace (FTPBackup_main Servers.closed Scenario.start) = [call_connect] /\
   exit_code (FTPBackup_main Servers.closed Scenario.start) = EXIT_FAILURE) /\
  (trace (FTPRestore_main Servers.closed Scenario.start) = [call_connect] /\
   exit_code (FTPRestore_main Servers.closed Scenario.start) = EXIT_FAILURE).
Proof.
  apply (refused_connection_ends_run Servers.closed Scenario.start).
  intros w1. simpl. discriminate.
Defined.

(** X7. [FTPSync], [FTPBackup] and [FTPRestore] call [disconnect] at
    most once, as the last thing they ask of the server. A run that ends
    without an exception has called it; a run stopped by an exception of an
    earlier step has not: the session is then left as it is. *)
Theorem session_closed_last_or_never
  {DateTime : Type} `{DT : DateTimeOps DateTime} {W : Type} (ftp : Port DateTime W) :
  disconnectsLast ftp (FTPSync_main ftp) /\
  disconnectsLast ftp (FTPBackup_main ftp) /\
  disconnectsLast ftp (FTPRestore_main ftp).
Proof.
  split; [apply FTPSync_main_disconnectsLast|].
  split; [rewrite FTPBackup_main_shape|rewrite FTPRestore_main_shape];
    by apply oneWayDriver_disconnectsLast.
Qed.

(** X8. What the programs never ask. [FTPSync] never fetches from the
    server: it makes no [getFiles] call. [FTPBackup] only connects, lists
    the local directory, calls [putFiles] and disconnects: it never removes
    or fetches anything. [FTPRestore] only connects, lists the remote
    directory, calls [getFiles] and disconnects: it never sends or removes
    anything. This holds of every run, also of one that ends with an
    exception. *)
Theorem programs_keep_to_their_calls
  {DateTime : Type} `{DT : DateTimeOps DateTime} {W : Type} (ftp : Port DateTime W) :
  onlyCalls syncCall (FTPSync_main ftp) /\
  onlyCalls backupCall (FTPBackup_main ftp) /\
  onlyCalls restoreCall (FTPRestore_main ftp).
Proof.
  split; [|split].
  - unfold FTPSync_main, connectOrThrow, createRemoteDirectory, enterRemoteDirectory,
      listAndSync, threePasses, pass1, pass2, removeIfOrphan, pass3,
      fillModifiedTimes, recordModifiedTime, updateIfStale.
    calls_only; exact I.
  - unfold FTPBackup_main, connectOrThrow, signal. calls_only; exact I.
  - unfold FTPRestore_main, connectOrThrow, signal. calls_only; exact I.
Qed.

(** X9. The passes of [FTPSync] do not interleave: the calls of a run of
    the three passes are at most one [putFiles], then the [deleteFile] and
    [removeDirectory] calls, then the [getModifiedDateTime] queries, then
    the [isFile], [lastWriteTime] and [putFile] calls. No time is asked of
    the server before the last removal, and none after the first update. *)
Theorem passes_do_not_interleave
  {DateTime : Type} `{DT : DateTimeOps DateTime} {W : Type}
  (ftp : Port DateTime W) (lf rf : list string) (s : State W) :
  exists t1 t2 t3 t4,
    trace (threePasses ftp lf rf s) = (t1 ++ t2 ++ t3 ++ t4)%list /\
    Forall inPass1 t1 /\ length t1 <= 1 /\
    Forall inPass2 t2 /\ Forall inFill t3 /\ Forall inUpdate t4.
Proof.
  unfold threePasses. rewrite trace_bind.
  exists (trace (pass1 ftp lf rf s)).
  pose proof (pass1_only ftp lf rf s) as H1.
  pose proof (pass1_once ftp lf rf s) as Hlen.
  destruct (result (pass1 ftp lf rf s)) as [p1|e].
  2: { exists [], [], []. by repeat split. }
  rewrite trace_bind.
  exists (trace (pass2 ftp lf (remoteFiles1 p1) (final (pass1 ftp lf rf s)))).
  pose proof (pass2_only ftp lf (remoteFiles1 p1) (final (pass1 ftp lf rf s))) as H2.
  destruct (result (pass2 _ _ _ _)) as [[]|e].
  2: { exists [], []. by repeat split. }
  rewrite trace_bind.
  destruct (pass3_phases ftp lf (remoteFiles1 p1)
              (final (pass2 ftp lf (remoteFiles1 p1) (final (pass1 ftp lf rf s)))))
    as (t3 & t4 & Heq & H3 & H4).
  exists t3, t4. rewrite Heq. split; [|done].
  destruct (result _); simpl; by rewrite app_nil_r.
Qed.

(** ** PASS 1 and PASS 2, call by call *)

Section RemovalFacts.
Context {DateTime : Type} `{DT : DateTimeOps DateTime} {W : Type}.
Variable ftp : Port DateTime W.

Lemma localFileToRemote_Throw (a : ParamArgData) (p : string) (e : Exception) :
  localFileToRemote a p = Throw e -> e = out_of_range.
Proof.
  unfold localFileToRemote.
  destruct (StdString.rfind (localDirectory a) sep) as [pos|]; [|by intros [= <-]].
  destruct (StdString.substr p pos) as [t|e'] eqn:E; [done|].
  intros [= <-]. by apply StdStringFacts.substr_Throw in E as [-> _].
Qed.

Lemma remoteFileToLocal_short (a : ParamArgData) (r : string) :
  String.length r < String.length (remoteDirectory a) + 1 ->
  remoteFileToLocal a r = Throw out_of_range.
Proof.
  intros Hlen. unfold remoteFileToLocal.
  destruct (StdString.substr r _) as [t|e] eqn:E.
  - apply StdStringFacts.substr_Ok_length in E. lia.
  - by apply StdStringFacts.substr_Throw in E as [-> _].
Qed.

Lemma selectNewFiles_filter (a : ParamArgData) (rf lf : list string) :
  selectNewFiles a rf lf
  = if forallb (fun p => is_Ok (localFileToRemote a p)) lf
    then Ok (filter (fun p => isNew a rf p = true) lf)
    else Throw out_of_range.
Proof.
  induction lf as [|file rest IH]; simpl; [done|].
  unfold isNew at 1.
  destruct (localFileToRemote a file) as [r|e] eqn:Er; simpl.
  - rewrite IH. destruct (forallb _ rest); [|done].
    case_bool_decide as Hin.
    + rewrite filter_cons_False; [done|]. unfold isNew. rewrite Er.
      by rewrite bool_decide_eq_true_2.
    + rewrite filter_cons_True; [done|]. unfold isNew. rewrite Er.
      by rewrite bool_decide_eq_false_2.
  - by rewrite (localFileToRemote_Throw _ _ _ Er).
Qed.

Lemma removeIfOrphan_Ok (lf : list string) (file : string) (s : State W) :
  result (removeIfOrphan ftp lf file s) = Ok tt ->
  is_Ok (remoteFileToLocal (argData s) file) = true /\
  forall rest w',
    replays ftp rest (ftpServer (final (removeIfOrphan ftp lf file s))) w' ->
    if isOrphan (argData s) lf file
    then exists st,
        trace (removeIfOrphan ftp lf file s) = removalCalls (file, st) /\
        replays ftp ((file, st) :: rest) (ftpServer s) w'
    else trace (removeIfOrphan ftp lf file s) = [] /\
         replays ftp rest (ftpServer s) w'.
Proof.
  unfold removeIfOrphan, isOrphan. rewrite bind_getArgs.
  destruct (remoteFileToLocal (argData s) file) as [l|e]; [|done].
  rewrite bind_lift_Ok. case_bool_decide as Hin; [done|]. simpl negb. cbv iota.
  destruct (deleteFile ftp file (ftpServer s)) as [[st w1]|e] eqn:Ed.
  2: { by rewrite (bind_call_Throw _ _ _ _ _ Ed). }
  rewrite (bind_call_Ok _ _ _ _ _ _ Ed). cbn [result final trace].
  unfold removalCalls. cbn [replays fst snd].
  destruct (Z.eqb st 250) eqn:E250.
  - intros _. split; [done|]. intros rest w' Hrest. exists st. rewrite E250.
    split; [done|]. by exists w1.
  - destruct (removeDirectory ftp file w1) as [[st2 w2]|e] eqn:Er.
    2: { by erewrite bind_call_Throw by (simpl; exact Er). }
    erewrite bind_call_Ok by (simpl; exact Er). cbn [result final trace ret ftpServer].
    intros _. split; [done|]. intros rest w' Hrest. exists st. rewrite E250.
    split; [done|]. exists w1. split; [done|]. by exists st2, w2.
Qed.

Lemma pass2_attempts (lf rf : list string) :
  forall s : State W,
    result (pass2 ftp lf rf s) = Ok tt ->
    Forall (fun r => is_Ok (remoteFileToLocal (argData s) r) = true) rf /\
    exists attempts : list (string * Z),
      map fst attempts = filter (fun r => isOrphan (argData s) lf r = true) rf /\
      replays ftp attempts (ftpServer s) (ftpServer (final (pass2 ftp lf rf s))) /\
      trace (pass2 ftp lf rf s) = flat_map removalCalls attempts.
Proof.
  unfold pass2. induction rf as [|file rest IH]; intros s Hres.
  - split; [constructor|]. by exists [].
  - simpl in Hres |- *.
    destruct (result (removeIfOrphan ftp lf file s)) as [[]|e] eqn:Hstep.
    2: { by rewrite (bind_Throw _ _ _ _ Hstep) in Hres. }
    rewrite (bind_Ok _ _ _ _ Hstep) in Hres |- *.
    cbn [result final trace] in Hres |- *.
    destruct (removeIfOrphan_Ok lf file s Hstep) as [Hmap Hcase].
    assert (Hargs : argData (final (removeIfOrphan ftp lf file s)) = argData s).
    { destruct (pass2_obeys ftp lf [file] s) as [Ha _]. unfold pass2 in Ha.
      simpl in Ha. rewrite (bind_Ok _ _ _ _ Hstep) in Ha. exact Ha. }
    destruct (IH _ Hres) as (Hrest & attempts & Hfst & Hall & Htr).
    rewrite Hargs in Hrest, Hfst. split; [by constructor|].
    specialize (Hcase attempts _ Hall).
    destruct (isOrphan (argData s) lf file) eqn:Ho.
    + destruct Hcase as (st & Htr1 & Hchain).
      exists ((file, st) :: attempts). rewrite filter_cons_True by done.
      split; [simpl; by rewrite Hfst|]. split; [done|].
      rewrite Htr1, Htr. done.
    + destruct Hcase as [Htr1 Hchain].
      exists attempts. rewrite filter_cons_False by (by rewrite Ho).
      split; [done|]. split; [done|]. by rewrite Htr1, Htr.
Qed.

Lemma removalCalls_deleteFile (attempts : list (string * Z)) :
  filter (fun c => is_deleteFile c = true) (flat_map removalCalls attempts)
  = map call_deleteFile (map fst attempts).
Proof.
  induction attempts as [|[r st] rest IH]; [done|].
  change (flat_map removalCalls ((r, st) :: rest))
    with (removalCalls (r, st) ++ flat_map removalCalls rest)%list.
  rewrite filter_app, IH. unfold removalCalls. cbn [fst snd].
  rewrite filter_cons_True by done.
  destruct (Z.eqb st 250); [done|]. by rewrite filter_cons_False by done.
Qed.

Lemma for_each_app {A} (l1 l2 : list A) (body : A -> M W unit) :
  forall s : State W,
    for_each (l1 ++ l2) body s
    = bind (for_each l1 body) (fun _ => for_each l2 body) s.
Proof.
  induction l1 as [|x l1 IH]; intros s; simpl.
  - unfold bind, ret. simpl. by destruct (for_each l2 body s).
  - unfold bind. destruct (result (body x s)); simpl; [|done].
    rewrite IH. unfold bind.
    destruct (result (for_each l1 body (final (body x s)))); simpl; [|done].
    by rewrite app_assoc.
Qed.

Lemma all_orphans (a : ParamArgData) (rf : list string) :
  Forall (fun r => is_Ok (remoteFileToLocal a r) = true) rf ->
  filter (fun r => isOrphan a [] r = true) rf = rf.
Proof.
  induction 1 as [|r rest Hr _ IH]; [done|].
  rewrite filter_cons_True, IH; [done|].
  unfold isOrphan. destruct (remoteFileToLocal a r); [|done].
  by rewrite bool_decide_eq_false_2 by apply not_elem_of_nil.
Qed.

Lemma filter_none_of {A} (P Q : A -> Prop) `{forall x, Decision (Q x)} (l : list A) :
  Forall P l -> (forall x, P x -> ~ Q x) -> filter Q l = [].
Proof.
  induction 1 as [|x l Hx _ IH]; intros HPQ; [done|].
  rewrite filter_cons_False by (by apply HPQ). by apply IH.
Qed.

End RemovalFacts.

(** X10. PASS 1 hands [putFiles] the local paths that pass its test in
    the order of the local listing, each as often as it is listed, in one
    call, and makes no call when none passes. The selection is finished
    before the transfer starts: when the remote name of any listed path
    cannot be formed, the pass ends with [std::out_of_range] and nothing has
    been transferred. *)
Theorem pass1_transfers_in_listing_order
  {DateTime : Type} `{DT : DateTimeOps DateTime} {W : Type}
  (ftp : Port DateTime W) (lf rf : list string) (s : State W) :
  let a := argData s in
  let new := filter (fun p => isNew a rf p = true) lf in
  if forallb (fun p => is_Ok (localFileToRemote a p)) lf
  then trace (pass1 ftp lf rf s)
       = match new with
         | [] => []
         | _ :: _ => [call_putFiles (localDirectory a) new]
         end
  else pass1 ftp lf rf s = mkOutcome (Throw out_of_range) s [].
Proof.
  intros a new. unfold pass1. rewrite bind_getArgs. fold a.
  rewrite selectNewFiles_filter. fold new.
  destruct (forallb _ lf); [|done].
  rewrite bind_lift_Ok. destruct new as [|p new']; [done|].
  by rewrite trace_bind, call_trace; destruct (result _).
Qed.

(** X11. A run of PASS 2 that ends without an exception has asked
    [deleteFile] once for every remote path that passes its test, in the
    order of the remote list, and for nothing else; [removeDirectory] is
    asked for a path exactly when [deleteFile] answered a status other than
    250 for it, right after that answer; whatever status [removeDirectory]
    answers, the pass goes on with the next path. *)
Theorem pass2_tries_every_orphan
  {DateTime : Type} `{DT : DateTimeOps DateTime} {W : Type}
  (ftp : Port DateTime W) (lf rf : list string) (s : State W) :
  result (pass2 ftp lf rf s) = Ok tt ->
  exists attempts : list (string * Z),
    map fst attempts = filter (fun r => isOrphan (argData s) lf r = true) rf /\
    replays ftp attempts (ftpServer s) (ftpServer (final (pass2 ftp lf rf s))) /\
    trace (pass2 ftp lf rf s) = flat_map removalCalls attempts.
Proof. intros Hres. by destruct (pass2_attempts ftp lf rf s Hres) as [_ ?]. Qed.

Lemma pass2_tries_every_orphan_witness :
  exists attempts : list (string * Z),
    map fst attempts
    = filter (fun r => isOrphan Scenario.args ["/home/u/a.txt"] r = true)
        ["/backup/orphan.txt"; "/backup/a.txt"; "/backup/gone"] /\
    replays Ideal.port attempts Scenario.tree
      (ftpServer (final (pass2 Ideal.port ["/home/u/a.txt"]
                           ["/backup/orphan.txt"; "/backup/a.txt"; "/backup/gone"]
                           Scenario.start))) /\
    trace (pass2 Ideal.port ["/home/u/a.txt"]
             ["/backup/orphan.txt"; "/backup/a.txt"; "/backup/gone"] Scenario.start)
    = flat_map removalCalls attempts.
Proof.
  apply (pass2_tries_every_orphan Ideal.port ["/home/u/a.txt"]
           ["/backup/orphan.txt"; "/backup/a.txt"; "/backup/gone"] Scenario.start).
  vm_compute. reflexivity.
Defined.

(** X12. With an empty local listing, a run of the three passes that
    ends without an exception has asked [deleteFile] for every path of the
    remote listing, in order, and has sent nothing to the server. *)
Theorem empty_local_listing_empties_server
  {DateTime : Type} `{DT : DateTimeOps DateTime} {W : Type}
  (ftp : Port DateTime W) (rf : list string) (s : State W) :
  is_Ok (result (threePasses ftp [] rf s)) = true ->
  filter (fun c => is_deleteFile c = true) (trace (threePasses ftp [] rf s))
  = map call_deleteFile rf /\
  filter (fun c => is_push c = true) (trace (threePasses ftp [] rf s)) = [].
Proof.
  assert (H1 : pass1 ftp [] rf s = mkOutcome (Ok (mkPass1 [] [] rf)) s []).
  { apply pass1_nothing_new. intros p Hp. by apply elem_of_nil in Hp. }
  unfold threePasses. rewrite (bind_Ok _ _ _ (mkPass1 [] [] rf)) by (by rewrite H1).
  rewrite H1. cbn [result final trace remoteFiles1]. rewrite app_nil_l.
  destruct (result (pass2 ftp [] rf s)) as [[]|e] eqn:H2.
  2: { by rewrite (bind_Throw _ _ _ _ H2). }
  rewrite (bind_Ok _ _ _ _ H2). cbn [result final trace]. intros _.
  destruct (pass2_attempts ftp [] rf s H2) as (Hmap & attempts & Hfst & _ & Htr).
  rewrite (all_orphans _ _ Hmap) in Hfst.
  rewrite trace_bind.
  set (t3 := trace (pass3 ftp [] rf (final (pass2 ftp [] rf s)))).
  assert (H3 : Forall inFill t3).
  { subst t3. unfold pass3. rewrite trace_bind. apply Forall_app.
    split; [apply fillModifiedTimes_only|].
    destruct (result (fillModifiedTimes _ _ _)); constructor. }
  assert (Htail : match result (pass3 ftp [] rf (final (pass2 ftp [] rf s))) with
                  | Ok times => trace (ret (mkSyncLocals [] rf (mkPass1 [] [] rf) times)
                                         (final (pass3 ftp [] rf (final (pass2 ftp [] rf s)))))
                  | Throw _ => []
                  end = []).
  { by destruct (result (pass3 _ _ _ _)). }
  rewrite Htail, app_nil_r, !filter_app, Htr. split.
  - rewrite removalCalls_deleteFile, Hfst.
    rewrite (filter_none_of _ _ _ H3); [by rewrite app_nil_r|].
    intros c Hc. by destruct c.
  - rewrite <- Htr.
    rewrite (filter_none_of _ _ _ (pass2_only ftp [] rf s)) by (intros c Hc; by destruct c).
    rewrite (filter_none_of _ _ _ H3); [done|].
    intros c Hc. by destruct c.
Qed.

Lemma empty_local_listing_empties_server_witness :
  filter (fun c => is_deleteFile c = true)
    (trace (threePasses Ideal.port [] ["/backup/orphan.txt"; "/backup/a.txt"]
              Scenario.start))
  = map call_deleteFile ["/backup/orphan.txt"; "/backup/a.txt"] /\
  filter (fun c => is_push c = true)
    (trace (threePasses Ideal.port [] ["/backup/orphan.txt"; "/backup/a.txt"]
              Scenario.start)) = [].
Proof.
  apply (empty_local_listing_empties_server Ideal.port
           ["/backup/orphan.txt"; "/backup/a.txt"] Scenario.start).
  vm_compute. reflexivity.
Defined.

(** X13. A remote path too short to hold the remote root and one more
    character stops PASS 2: the pass ends there with [std::out_of_range],
    having made the calls for the paths listed before it and none for those
    listed after it. *)
Theorem short_remote_name_stops_pass2
  {DateTime : Type} `{DT : DateTimeOps DateTime} {W : Type}
  (ftp : Port DateTime W) (lf pre post : list string) (r : string) (s : State W) :
  result (pass2 ftp lf pre s) = Ok tt ->
  String.length r < String.length (remoteDirectory (argData s)) + 1 ->
  result (pass2 ftp lf (pre ++ r :: post) s) = Throw out_of_range /\
  trace (pass2 ftp lf (pre ++ r :: post) s) = trace (pass2 ftp lf pre s).
Proof.
  intros Hres Hlen.
  destruct (pass2_obeys ftp lf pre s) as [Hargs _].
  unfold pass2 in *. rewrite for_each_app, (bind_Ok _ _ _ _ Hres).
  cbn [result trace]. simpl for_each.
  set (s1 := final (for_each pre (removeIfOrphan ftp lf) s)) in *.
  assert (Hstep : removeIfOrphan ftp lf r s1 = mkOutcome (Throw out_of_range) s1 []).
  { unfold removeIfOrphan. rewrite bind_getArgs, Hargs.
    by rewrite (remoteFileToLocal_short _ _ Hlen). }
  rewrite (bind_Throw _ _ _ out_of_range) by (by rewrite Hstep).
  rewrite Hstep. cbn [result trace]. by rewrite app_nil_r.
Qed.

Lemma short_remote_name_stops_pass2_witness :
  result (pass2 Ideal.port ["/home/u/a.txt"]
            (["/backup/orphan.txt"] ++ "/backup" :: ["/backup/a.txt"]) Scenario.start)
  = Throw out_of_range /\
  trace (pass2 Ideal.port ["/home/u/a.txt"]
           (["/backup/orphan.txt"] ++ "/backup" :: ["/backup/a.txt"]) Scenario.start)
  = trace (pass2 Ideal.port ["/home/u/a.txt"] ["/backup/orphan.txt"] Scenario.start).
Proof.
  apply (short_remote_name_stops_pass2 Ideal.port ["/home/u/a.txt"]
           ["/backup/orphan.txt"] ["/backup/a.txt"] "/backup" Scenario.start).
  - vm_compute. reflexivity.
  - simpl. lia.
Defined.

(** ** Refusals *)

Section AnsweringFacts.
Context {DateTime : Type} `{DT : DateTimeOps DateTime} {W : Type}.
Variable ftp : Port DateTime W.
Variable good : W -> Prop.
Hypothesis answering : Answering ftp good.
Variable a : ParamArgData.

Lemma for_each_answered {A} (allowed : A -> Prop) (body : A -> M W unit) (l : list A) :
  (forall x w, allowed x -> good w ->
     exists w' tr, body x (mkState a w) = mkOutcome (Ok tt) (mkState a w') tr /\ good w') ->
  Forall allowed l ->
  forall w, good w ->
    exists w' tr, for_each l body (mkState a w) = mkOutcome (Ok tt) (mkState a w') tr /\
                  good w'.
Proof.
  intros Hbody. induction 1 as [|x l Hx _ IH]; intros w Hw; simpl.
  - by exists w, [].
  - destruct (Hbody x w Hx Hw) as (w1 & t1 & Hstep & Hw1).
    destruct (IH w1 Hw1) as (w2 & t2 & Hrest & Hw2).
    exists w2, (t1 ++ t2)%list. split; [|done].
    rewrite (bind_Ok _ _ _ tt) by (by rewrite Hstep).
    rewrite Hstep. cbn [result final trace]. by rewrite Hrest.
Qed.

Lemma for_each_acc_answered {A S} (allowed : A -> Prop) (body : S -> A -> M W S)
  (l : list A) :
  (forall acc x w, allowed x -> good w ->
     exists acc' w' tr,
       body acc x (mkState a w) = mkOutcome (Ok acc') (mkState a w') tr /\ good w') ->
  Forall allowed l ->
  forall acc w, good w ->
    exists acc' w' tr,
      for_each_acc l acc body (mkState a w) = mkOutcome (Ok acc') (mkState a w') tr /\
      good w'.
Proof.
  intros Hbody. induction 1 as [|x l Hx _ IH]; intros acc w Hw; simpl.
  - by exists acc, w, [].
  - destruct (Hbody acc x w Hx Hw) as (acc1 & w1 & t1 & Hstep & Hw1).
    destruct (IH acc1 w1 Hw1) as (acc2 & w2 & t2 & Hrest & Hw2).
    exists acc2, w2, (t1 ++ t2)%list. split; [|done].
    rewrite (bind_Ok _ _ _ acc1) by (by rewrite Hstep).
    rewrite Hstep. cbn [result final trace]. by rewrite Hrest.
Qed.

Lemma removeIfOrphan_answered (lf : list string) (file : string) (w : W) :
  is_Ok (remoteFileToLocal a file) = true -> good w ->
  exists w' tr,
    removeIfOrphan ftp lf file (mkState a w) = mkOutcome (Ok tt) (mkState a w') tr /\
    good w'.
Proof.
  intros Hmap Hw. unfold removeIfOrphan. rewrite bind_getArgs. cbn [argData].
  destruct (remoteFileToLocal a file) as [l|e]; [|done]. rewrite bind_lift_Ok.
  case_bool_decide; [by exists w, []|].
  destruct (deleteFile_answers _ _ answering file w Hw) as (st & w1 & Hd & Hw1).
  erewrite bind_call_Ok by (simpl; exact Hd). cbn [argData].
  destruct (Z.eqb st 250); [by exists w1, [call_deleteFile file]|].
  destruct (removeDirectory_answers _ _ answering file w1 Hw1) as (st2 & w2 & Hr & Hw2).
  erewrite bind_call_Ok by (simpl; exact Hr). cbn.
  by exists w2, [call_deleteFile file; call_removeDirectory file].
Qed.

Lemma recordModifiedTime_answered (times : gmap string DateTime) (file : string) (w : W) :
  good w ->
  exists times' w' tr,
    recordModifiedTime ftp times file (mkState a w)
    = mkOutcome (Ok times') (mkState a w') tr /\ good w'.
Proof.
  intros Hw. unfold recordModifiedTime.
  destruct (getModifiedDateTime_answers _ _ answering file w Hw)
    as (st & t & w1 & Hq & Hw1).
  erewrite bind_call_Ok by (simpl; exact Hq). cbn.
  by eexists _, w1, _.
Qed.

Lemma updateIfStale_answered (times : gmap string DateTime) (file : string) (w : W) :
  is_Ok (localFileToRemote a file) = true -> good w ->
  exists times' w' tr,
    updateIfStale ftp times file (mkState a w)
    = mkOutcome (Ok times') (mkState a w') tr /\ good w'.
Proof.
  intros Hmap Hw. unfold updateIfStale.
  destruct (isFile_answers _ _ answering file w Hw) as (b & w1 & Hf & Hw1 & Htime).
  erewrite bind_call_Ok by (simpl; exact Hf). cbn [argData].
  destruct b; [|by eexists _, w1, _].
  destruct (Htime eq_refl) as (t & w2 & Ht & Hw2).
  erewrite bind_call_Ok by (simpl; exact Ht). cbn [argData].
  rewrite bind_getArgs. cbn [argData].
  destruct (localFileToRemote a file) as [r|e]; [|done]. rewrite bind_lift_Ok.
  cbv zeta. destruct (DateTime_lt _ _); [|by eexists _, w2, _].
  destruct (putFile_answers _ _ answering r file w2 Hw2) as (st & w3 & Hp & Hw3).
  erewrite bind_call_Ok by (simpl; exact Hp). cbn.
  by eexists _, w3, _.
Qed.

Lemma forallb_mappable {A B} (f : A -> Result B) (l : list A) :
  Forall (fun x => is_Ok (f x) = true) l -> forallb (fun x => is_Ok (f x)) l = true.
Proof. induction 1 as [|x l Hx _ IH]; simpl; [done|by rewrite Hx, IH]. Qed.

Lemma threePasses_answered (lf rf : list string) (w : W) :
  good w ->
  Forall (fun p => is_Ok (localFileToRemote a p) = true) lf ->
  Forall (fun r => is_Ok (remoteFileToLocal a r) = true) rf ->
  (forall files w1 done w2,
     good w1 -> putFiles ftp (localDirectory a) files w1 = Ok (done, w2) ->
     Forall (fun r => is_Ok (remoteFileToLocal a r) = true) done) ->
  exists locals w' tr,
    threePasses ftp lf rf (mkState a w) = mkOutcome (Ok locals) (mkState a w') tr /\
    good w'.
Proof.
  intros Hw Hlf Hrf Hdone.
  assert (H1 : exists p1 w1 t1,
             pass1 ftp lf rf (mkState a w) = mkOutcome (Ok p1) (mkState a w1) t1 /\
             good w1 /\
             Forall (fun r => is_Ok (remoteFileToLocal a r) = true) (remoteFiles1 p1)).
  { unfold pass1. rewrite bind_getArgs. cbn [argData].
    rewrite selectNewFiles_filter, (forallb_mappable _ _ Hlf), bind_lift_Ok.
    destruct (filter _ lf) as [|p new]; [by eexists _, w, _|].
    destruct (putFiles_answers _ _ answering (localDirectory a) (p :: new) w Hw)
      as (done & w1 & Hp & Hw1).
    erewrite bind_call_Ok by (simpl; exact Hp). cbn.
    eexists _, w1, _. split; [done|]. split; [done|]. simpl.
    apply Forall_app. split; [done|]. by apply (Hdone _ _ _ _ Hw Hp). }
  destruct H1 as (p1 & w1 & t1 & H1 & Hw1 & Hrf1).
  destruct (for_each_answered _ (removeIfOrphan ftp lf) (remoteFiles1 p1)
              (fun x w Hx Hw => removeIfOrphan_answered lf x w Hx Hw) Hrf1 w1 Hw1)
    as (w2 & t2 & H2 & Hw2).
  destruct (for_each_acc_answered (fun _ => True) (recordModifiedTime ftp)
              (remoteFiles1 p1)
              (fun acc x w _ Hw => recordModifiedTime_answered acc x w Hw)
              ltac:(by apply Forall_true) ∅ w2 Hw2)
    as (times & w3 & t3 & H3 & Hw3).
  destruct (for_each_acc_answered _ (updateIfStale ftp) lf
              (fun acc x w Hx Hw => updateIfStale_answered acc x w Hx Hw)
              Hlf times w3 Hw3)
    as (now & w4 & t4 & H4 & Hw4).
  exists (mkSyncLocals lf rf p1 now), w4, (t1 ++ t2 ++ t3 ++ t4)%list.
  split; [|done].
  apply (threePasses_run ftp lf rf _ _ _ _ p1 now _ _ _ H1 H2).
  unfold pass3, fillModifiedTimes. rewrite (bind_Ok _ _ _ times) by (by rewrite H3).
  rewrite H3. cbn [result final trace]. by rewrite H4.
Qed.

End AnsweringFacts.

Lemma deaf_answers (w0 : Ideal.Store) : Answering Servers.deaf (Ideal.sameLocal w0).
Proof.
  split; try (intros; simpl; by eauto 6).
  intros p w Hw. exists (Ideal.regularIn w p), w. split; [done|]. split; [done|].
  unfold Ideal.regularIn. simpl. destruct (Ideal.lookupLocal w p); [eauto|done].
Qed.

(** X14. Refusals do not stop a run. When the collaborators answer every
    request of the passes (none throws), and the names in the two listings
    and those that [putFiles] reports can be mapped, the three passes end
    without an exception whatever the status codes are: a refused transfer,
    removal or time query is not an error of the run. *)
Theorem refusals_do_not_stop_the_passes
  {DateTime : Type} `{DT : DateTimeOps DateTime} {W : Type}
  (ftp : Port DateTime W) (good : W -> Prop) (lf rf : list string) (s : State W) :
  Answering ftp good ->
  good (ftpServer s) ->
  Forall (fun p => is_Ok (localFileToRemote (argData s) p) = true) lf ->
  Forall (fun r => is_Ok (remoteFileToLocal (argData s) r) = true) rf ->
  (forall files w1 done w2,
     good w1 -> putFiles ftp (localDirectory (argData s)) files w1 = Ok (done, w2) ->
     Forall (fun r => is_Ok (remoteFileToLocal (argData s) r) = true) done) ->
  is_Ok (result (threePasses ftp lf rf s)) = true /\
  good (ftpServer (final (threePasses ftp lf rf s))).
Proof.
  intros Hans Hw Hlf Hrf Hdone. destruct s as [a w].
  destruct (threePasses_answered ftp good Hans a lf rf w Hw Hlf Hrf Hdone)
    as (locals & w' & tr & -> & Hw').
  done.
Qed.

Lemma refusals_do_not_stop_the_passes_witness :
  is_Ok (result (threePasses Servers.deaf
                   ["/home/u/a.txt"; "/home/u/dir"; "/home/u/dir/b.txt"]
                   ["/backup/orphan.txt"; "/backup/a.txt"] Scenario.start)) = true /\
  Ideal.sameLocal Scenario.tree
    (ftpServer (final (threePasses Servers.deaf
                         ["/home/u/a.txt"; "/home/u/dir"; "/home/u/dir/b.txt"]
                         ["/backup/orphan.txt"; "/backup/a.txt"] Scenario.start))).
Proof.
  apply (refusals_do_not_stop_the_passes Servers.deaf (Ideal.sameLocal Scenario.tree)
           ["/home/u/a.txt"; "/home/u/dir"; "/home/u/dir/b.txt"]
           ["/backup/orphan.txt"; "/backup/a.txt"] Scenario.start).
  - exact (deaf_answers Scenario.tree).
  - reflexivity.
  - by repeat constructor.
  - by repeat constructor.
  - intros files w1 done w2 _ [= <- _]. constructor.
Defined.

(** ** The oracle and the retry *)

(** X15. The oracle that the first loop of PASS 3 builds holds a time
    only for a path of the remote list, and only a time that
    [getModifiedDateTime] answered for that path with status 213: a path
    that is not listed, or whose query was refused, has no entry. *)
Theorem oracle_holds_only_answered_times
  {DateTime : Type} `{DT : DateTimeOps DateTime} {W : Type}
  (ftp : Port DateTime W) (rf : list string) (s : State W)
  (times : gmap string DateTime) (r : string) (t : DateTime) :
  result (fillModifiedTimes ftp rf s) = Ok times ->
  times !! r = Some t ->
  r ∈ rf /\ exists w w', getModifiedDateTime ftp r w = Ok (213%Z, t, w').
Proof.
  intros Hres Hr.
  destruct (fillModifiedTimes_only_answered ftp rf ∅ s times r t Hres Hr) as [H|H];
    [by rewrite lookup_empty in H|done].
Qed.

Lemma oracle_holds_only_answered_times_witness :
  "/backup/a.txt" ∈ ["/backup/a.txt"; "/backup/none"] /\
  exists w w', getModifiedDateTime Ideal.port "/backup/a.txt" w = Ok (213%Z, 10%Z, w').
Proof.
  apply (oracle_holds_only_answered_times Ideal.port ["/backup/a.txt"; "/backup/none"]
           Scenario.start {[ "/backup/a.txt" := 10%Z ]} "/backup/a.txt" 10%Z).
  - vm_compute. reflexivity.
  - reflexivity.
Defined.

Section RetryFacts.
Context {DateTime : Type} `{DT : DateTimeOps DateTime} {W : Type}.
Variable ftp : Port DateTime W.
Variable stable : W -> Prop.
Variable regular : string -> bool.
Variable mtime : string -> Z.
Hypothesis answering : Answering ftp stable.
Hypothesis isFile_same :
  forall p w, stable w -> isFile ftp p w = Ok (regular p, w).
Hypothesis lastWriteTime_same :
  forall p w, stable w -> regular p = true -> lastWriteTime ftp p w = Ok (mtime p, w).

Lemma retry_run (a : ParamArgData) (lf rf : list string) (w : W) (p r : string) :
  stable w ->
  Forall (fun p => is_Ok (localFileToRemote a p) = true) lf ->
  Forall (fun r => is_Ok (remoteFileToLocal a r) = true) rf ->
  (forall files w1 done w2,
     stable w1 -> putFiles ftp (localDirectory a) files w1 = Ok (done, w2) ->
     (r ∉ done) /\ Forall (fun r => is_Ok (remoteFileToLocal a r) = true) done) ->
  p ∈ lf -> regular p = true -> localFileToRemote a p = Ok r -> r ∉ rf ->
  DateTime_lt DateTime_default (DateTime_of_localtime (mtime p)) = true ->
  exists new rest,
    p ∈ new /\
    trace (threePasses ftp lf rf (mkState a w))
    = (call_putFiles (localDirectory a) new :: rest) /\
    call_putFile r p ∈ rest.
Proof.
  intros Hw Hlf Hrf Hdone Hp Hreg Hr Hnew Hzero.
  set (new := filter (fun p => isNew a rf p = true) lf).
  assert (Hin : p ∈ new).
  { apply list_elem_of_filter. split; [|done]. unfold isNew. rewrite Hr.
    by rewrite bool_decide_eq_false_2. }
  destruct (putFiles_answers _ _ answering (localDirectory a) new w Hw)
    as (done & w1 & Hput & Hw1).
  destruct (Hdone _ _ _ _ Hw Hput) as [Hnot Hmap].
  assert (H1 : pass1 ftp lf rf (mkState a w)
               = mkOutcome (Ok (mkPass1 new done (rf ++ done)%list)) (mkState a w1)
                   [call_putFiles (localDirectory a) new]).
  { unfold pass1. rewrite bind_getArgs. cbn [argData].
    rewrite selectNewFiles_filter, (forallb_mappable _ _ Hlf), bind_lift_Ok.
    fold new. destruct new as [|x new']; [by apply elem_of_nil in Hin|].
    by erewrite bind_call_Ok by (simpl; exact Hput). }
  assert (Hrf1 : Forall (fun r => is_Ok (remoteFileToLocal a r) = true) (rf ++ done)%list).
  { apply Forall_app. by split. }
  destruct (for_each_answered stable a _ (removeIfOrphan ftp lf) (rf ++ done)%list
              (fun x w Hx Hw => removeIfOrphan_answered ftp stable answering a lf x w Hx Hw)
              Hrf1 w1 Hw1)
    as (w2 & t2 & H2 & Hw2).
  destruct (pass3_run ftp stable regular mtime isFile_same lastWriteTime_same
              (putFile_answers _ _ answering)
              (getModifiedDateTime_answers _ _ answering)
              lf (rf ++ done)%list (mkState a w2) Hw2)
    as (times & now & w3 & Hfill & H3 & _ & _).
  { intros q Hq. rewrite Forall_forall in Hlf. by apply Hlf. }
  cbn [argData] in H3.
  exists new, (t2 ++ map call_getModifiedDateTime (rf ++ done)
                  ++ flat_map (updateCalls regular mtime a times) lf)%list.
  split; [done|]. split.
  - by rewrite (threePasses_run ftp lf rf _ _ _ _ _ now _ _ _ H1 H2 H3).
  - apply elem_of_app. right. apply elem_of_app. right.
    apply list_elem_of_In, in_flat_map. exists p. rewrite <- !list_elem_of_In.
    split; [done|]. apply putFile_in_updateCalls. repeat split; [done..|].
    assert (Hnone : times !! r = None).
    { destruct (times !! r) as [t|] eqn:Ht; [|done].
      destruct (fillModifiedTimes_only_answered ftp _ ∅ _ times r t Hfill Ht)
        as [H|[H _]]; [by rewrite lookup_empty in H|].
      by apply elem_of_app in H as [?|?]. }
    unfold oracleValue. by rewrite Hnone.
Qed.

End RetryFacts.

(** X16. What PASS 1 failed to transfer, PASS 3 tries again. Take a
    regular local file whose remote name is not in the remote listing, so
    that PASS 1 hands it to [putFiles], and suppose [putFiles] does not
    report it as transferred. Then the oracle has no entry for its remote
    name, and PASS 3 calls [putFile] for it. (The
    collaborators answer every request, the local tree does not change, and
    the default-constructed [DateTime] is older than the time of the file.) *)
Theorem pass3_retries_failed_transfer
  {DateTime : Type} `{DT : DateTimeOps DateTime} {W : Type}
  (ftp : Port DateTime W) (stable : W -> Prop)
  (regular : string -> bool) (mtime : string -> Z)
  (lf rf : list string) (s : State W) (p r : string) :
  Answering ftp stable ->
  (forall p w, stable w -> isFile ftp p w = Ok (regular p, w)) ->
  (forall p w, stable w -> regular p = true -> lastWriteTime ftp p w = Ok (mtime p, w)) ->
  stable (ftpServer s) ->
  Forall (fun p => is_Ok (localFileToRemote (argData s) p) = true) lf ->
  Forall (fun r => is_Ok (remoteFileToLocal (argData s) r) = true) rf ->
  (forall files w1 done w2,
     stable w1 ->
     putFiles ftp (localDirectory (argData s)) files w1 = Ok (done, w2) ->
     (r ∉ done) /\ Forall (fun r => is_Ok (remoteFileToLocal (argData s) r) = true) done) ->
  p ∈ lf -> regular p = true -> localFileToRemote (argData s) p = Ok r -> r ∉ rf ->
  DateTime_lt DateTime_default (DateTime_of_localtime (mtime p)) = true ->
  exists new rest,
    p ∈ new /\
    trace (threePasses ftp lf rf s)
    = (call_putFiles (localDirectory (argData s)) new :: rest) /\
    call_putFile r p ∈ rest.
Proof.
  intros Hans Hfile Htime Hw. destruct s as [a w]. cbn [argData ftpServer] in *.
  by apply (retry_run ftp stable regular mtime Hans Hfile Htime).
Qed.

Lemma pass3_retries_failed_transfer_witness :
  exists new rest,
    "/home/u/dir/b.txt" ∈ new /\
    trace (threePasses Servers.deaf ["/home/u/a.txt"; "/home/u/dir/b.txt"]
             ["/backup/a.txt"] Scenario.start)
    = (call_putFiles "/home/u/" new :: rest) /\
    call_putFile "/backup/dir/b.txt" "/home/u/dir/b.txt" ∈ rest.
Proof.
  apply (pass3_retries_failed_transfer Servers.deaf (Ideal.sameLocal Scenario.tree)
           (Ideal.regularIn Scenario.tree) (Ideal.mtimeIn Scenario.tree)
           ["/home/u/a.txt"; "/home/u/dir/b.txt"] ["/backup/a.txt"] Scenario.start
           "/home/u/dir/b.txt" "/backup/dir/b.txt").
  - exact (deaf_answers Scenario.tree).
  - exact (ideal_isFile_stable Scenario.tree).
  - exact (ideal_lastWriteTime_stable Scenario.tree).
  - reflexivity.
  - by repeat constructor.
  - by repeat constructor.
  - intros files w1 done w2 _ [= <- _]. split; [apply not_elem_of_nil|constructor].
  - apply (bool_decide_unpack _). vm_compute. exact I.
  - reflexivity.
  - reflexivity.
  - apply (bool_decide_unpack _). vm_compute. exact I.
  - reflexivity.
Defined.

(** ** FTPBackup and FTPRestore, call by call *)

Section OneWayTrace.
Context {DateTime : Type} `{DT : DateTimeOps DateTime} {W : Type}.
Variable ftp : Port DateTime W.
Variables (ok failed : string).
Variables (listCall : ParamArgData -> Call)
          (listOp : ParamArgData -> W -> Result (list string * W)).
Variables (moveCall : ParamArgData -> list string -> Call)
          (moveOp : ParamArgData -> list string -> W -> Result (list string * W)).

Lemma oneWay_trace (s : State W) (w1 w2 w3 : W) (listed moved : list string) :
  connect ftp (ftpServer s) = Ok (230%Z, w1) ->
  listOp (argData s) w1 = Ok (listed, w2) ->
  transferred (moveOp (argData s)) listed w2 moved w3 ->
  trace (oneWayDriver ftp ok failed listCall listOp moveCall moveOp s)
  = ([call_connect; listCall (argData s)]
     ++ match listed with
        | [] => []
        | _ :: _ => [moveCall (argData s) listed]
        end
     ++ verdict ok failed moved ++ [call_disconnect])%list.
Proof.
  intros Hc Hl Hm. unfold oneWayDriver, oneWay.
  rewrite (bind_Ok _ _ _ tt) by (by rewrite (connectOrThrow_Ok _ _ _ Hc)).
  rewrite (connectOrThrow_Ok _ _ _ Hc). cbn [result final trace].
  rewrite bind_getArgs. cbn [argData].
  erewrite bind_call_Ok by (simpl; exact Hl). cbn [result final trace argData].
  assert (Hmove : match listed with
                  | [] => ret []
                  | _ :: _ => call (moveCall (argData s) listed) (moveOp (argData s) listed)
                  end (mkState (argData s) w2)
                  = mkOutcome (Ok moved) (mkState (argData s) w3)
                      match listed with
                      | [] => []
                      | _ :: _ => [moveCall (argData s) listed]
                      end).
  { unfold transferred in Hm. destruct listed as [|x l].
    - by destruct Hm as [-> ->].
    - by erewrite call_Ok by (simpl; exact Hm). }
  rewrite (bind_Ok _ _ _ moved) by (by rewrite Hmove). rewrite Hmove.
  cbn [result final trace].
  rewrite (bind_Ok _ _ _ tt) by (by rewrite signal_run). rewrite signal_run.
  cbn [result final trace].
  rewrite trace_bind, call_trace. simpl.
  do 2 f_equal. f_equal. f_equal.
  by destruct (result (call _ _ _)).
Qed.

End OneWayTrace.

(** X17. A run of [FTPBackup] or [FTPRestore] whose connection is
    accepted and whose listing and transfer answer makes these calls, in
    this order: [connect]; the listing of the one side; one [putFiles]
    ([getFiles]) for the whole listing, and none at all when the listing is
    empty; the lines of the verdict; [disconnect]. *)
Theorem one_way_run_call_by_call
  {DateTime : Type} `{DT : DateTimeOps DateTime} {W : Type}
  (ftp : Port DateTime W) (s : State W) (w1 : W) :
  connect ftp (ftpServer s) = Ok (230%Z, w1) ->
  let a := argData s in
  (forall listed w2 moved w3,
     listLocalRecursive ftp (localDirectory a) w1 = Ok (listed, w2) ->
     transferred (putFiles ftp (localDirectory a)) listed w2 moved w3 ->
     trace (FTPBackup_main ftp s)
     = ([call_connect; call_listLocalRecursive (localDirectory a)]
        ++ match listed with
           | [] => []
           | _ :: _ => [call_putFiles (localDirectory a) listed]
           end
        ++ verdict "Sucessfully backed up [" "Backup failed." moved
        ++ [call_disconnect])%list) /\
  (forall listed w2 moved w3,
     listRemoteRecursive ftp (remoteDirectory a) w1 = Ok (listed, w2) ->
     transferred (getFiles ftp (localDirectory a)) listed w2 moved w3 ->
     trace (FTPRestore_main ftp s)
     = ([call_connect; call_listRemoteRecursive (remoteDirectory a)]
        ++ match listed with
           | [] => []
           | _ :: _ => [call_getFiles (localDirectory a) listed]
           end
        ++ verdict "Successfully restored [" "Restore failed." moved
        ++ [call_disconnect])%list).
Proof.
  intros Hc a. split; intros listed w2 moved w3 Hl Hm.
  - rewrite FTPBackup_main_shape.
    exact (oneWay_trace ftp _ _ _ _ _ _ s w1 w2 w3 listed moved Hc Hl Hm).
  - rewrite FTPRestore_main_shape.
    exact (oneWay_trace ftp _ _ _ _ _ _ s w1 w2 w3 listed moved Hc Hl Hm).
Qed.

Lemma one_way_run_call_by_call_witness :
  trace (FTPBackup_main Ideal.port (mkState Scenario.args (Ideal.mkStore ∅ [] "/" [])))
  = [call_connect; call_listLocalRecursive "/home/u/"; print "Backup failed.";
     call_disconnect] /\
  trace (FTPRestore_main Ideal.port
           (mkState Scenario.args (Ideal.entered "/backup" Scenario.tree)))
  = [call_connect; call_listRemoteRecursive "/backup";
     call_getFiles "/home/u/" ["/backup/orphan.txt"; "/backup/a.txt"];
     print "Successfully restored [/home/u/orphan.txt]";
     print "Successfully restored [/home/u/a.txt]"; call_disconnect].
Proof.
  split.
  - destruct (one_way_run_call_by_call Ideal.port
                (mkState Scenario.args (Ideal.mkStore ∅ [] "/" []))
                (Ideal.mkStore ∅ [] "/" []) eq_refl) as [H _].
    exact (H [] (Ideal.mkStore ∅ [] "/" []) [] (Ideal.mkStore ∅ [] "/" [])
             eq_refl (conj eq_refl eq_refl)).
  - destruct (one_way_run_call_by_call Ideal.port
                (mkState Scenario.args (Ideal.entered "/backup" Scenario.tree))
                (Ideal.entered "/backup" Scenario.tree) eq_refl) as [_ H].
    apply (H ["/backup/orphan.txt"; "/backup/a.txt"]
             (Ideal.entered "/backup" Scenario.tree)
             ["/home/u/orphan.txt"; "/home/u/a.txt"]
             (snd (Ideal.getAll Scenario.args ["/backup/orphan.txt"; "/backup/a.txt"]
                     (Ideal.entered "/backup" Scenario.tree)))).
    + vm_compute. reflexivity.
    + vm_compute. reflexivity.
Defined.

(** ** The whole of [main] *)

Section MainFacts.
Context {DateTime : Type} `{DT : DateTimeOps DateTime} {W : Type}.
Variable ftp : Port DateTime W.

Lemma listAndSync_run (a : ParamArgData) (w5 w6 w7 : W) (rf lf : list string) :
  listRemoteRecursive ftp (remoteDirectory a) w5 = Ok (rf, w6) ->
  listLocalRecursive ftp (localDirectory a) w6 = Ok (lf, w7) ->
  let passes := threePasses ftp lf rf (mkState a w7) in
  trace (listAndSync ftp (mkState a w5))
  = ([call_listRemoteRecursive (remoteDirectory a);
      call_listLocalRecursive (localDirectory a)]
     ++ trace passes
     ++ match result passes with Ok _ => [call_disconnect] | Throw _ => [] end)%list /\
  (forall e, result passes = Throw e ->
             result (listAndSync ftp (mkState a w5)) = Throw e) /\
  (forall locals w8,
     result passes = Ok locals ->
     disconnect ftp (ftpServer (final passes)) = Ok (tt, w8) ->
     result (listAndSync ftp (mkState a w5)) = Ok locals).
Proof.
  intros Hr Hl passes. unfold listAndSync. rewrite bind_getArgs. cbn [argData].
  erewrite bind_call_Ok by (simpl; exact Hr). cbn [result final trace argData].
  erewrite bind_call_Ok by (simpl; exact Hl). cbn [result final trace argData].
  fold passes. destruct (result passes) as [locals|e] eqn:Hp.
  - rewrite (bind_Ok _ _ _ _ Hp). cbn [result final trace].
    split; [|split; [done|]].
    + simpl. do 3 f_equal. rewrite trace_bind, call_trace.
      by destruct (result (call _ _ _)).
    + intros locals' w8 [= <-] Hd.
      by erewrite bind_call_Ok by exact Hd.
  - rewrite (bind_Throw _ _ _ _ Hp). cbn [result final trace].
    split; [by rewrite app_nil_r|]. split; [by intros e' [= <-]|done].
Qed.

Lemma FTPSync_main_run (s : State W) (st : Z) (w1 w2 w3 w4 : W) (reply : string)
  {A} (k : M W A) :
  let R := remoteDirectory (argData s) in
  connect ftp (ftpServer s) = Ok (230%Z, w1) ->
  fileExists ftp R w1 = Ok (true, w2) ->
  changeWorkingDirectory ftp R w2 = Ok (st, w3) ->
  getCurrentWoringDirectory ftp R w3 = Ok (reply, w4) ->
  let s4 := mkState (mkArgs reply (localDirectory (argData s))) w4 in
  (connectOrThrow ftp ;;; createRemoteDirectory ftp ;;; enterRemoteDirectory ftp ;;; k)%driver s
  = mkOutcome (result (k s4)) (final (k s4))
      ([call_connect; call_fileExists R; call_changeWorkingDirectory R;
        call_getCurrentWoringDirectory] ++ trace (k s4))%list.
Proof.
  intros R Hc Hf Hd Hg s4.
  rewrite (bind_Ok _ _ _ tt) by (by rewrite (connectOrThrow_Ok _ _ _ Hc)).
  rewrite (connectOrThrow_Ok _ _ _ Hc). cbn [result final trace].
  pose proof (createRemoteDirectory_found ftp (mkState (argData s) w1) w2 Hf) as Hcr.
  cbn [argData ftpServer] in Hcr.
  rewrite (bind_Ok _ _ _ tt) by (by rewrite Hcr). rewrite Hcr. cbn [result final trace].
  pose proof (enterRemoteDirectory_sets ftp (mkState (argData s) w2) st w3 w4 reply Hd Hg)
    as Hen.
  cbn [argData ftpServer] in Hen.
  rewrite (bind_Ok _ _ _ tt) by (by rewrite Hen). rewrite Hen. cbn [result final trace].
  done.
Qed.

End MainFacts.

(** X18. [main] of [FTPSync] as the composition of its steps. When the
    connection is accepted, the remote directory exists and the server
    reports [reply] as its working directory, the two listings are asked for
    [reply] and for the local root; the three passes run on the lists that
    the listings answer, with [reply] as the remote root of the path
    mapping, whatever remote directory was configured and whatever status
    [changeWorkingDirectory] answered; [disconnect] follows when the passes
    end without an exception, and an exception of the passes is that of the
    run. *)
Theorem sync_run_uses_reported_directory
  {DateTime : Type} `{DT : DateTimeOps DateTime} {W : Type}
  (ftp : Port DateTime W) (s : State W) (st : Z) (w1 w2 w3 w4 w5 w6 : W)
  (reply : string) (rf lf : list string) :
  let R := remoteDirectory (argData s) in
  let L := localDirectory (argData s) in
  connect ftp (ftpServer s) = Ok (230%Z, w1) ->
  fileExists ftp R w1 = Ok (true, w2) ->
  changeWorkingDirectory ftp R w2 = Ok (st, w3) ->
  getCurrentWoringDirectory ftp R w3 = Ok (reply, w4) ->
  listRemoteRecursive ftp reply w4 = Ok (rf, w5) ->
  listLocalRecursive ftp L w5 = Ok (lf, w6) ->
  let passes := threePasses ftp lf rf (mkState (mkArgs reply L) w6) in
  trace (FTPSync_main ftp s)
  = ([call_connect; call_fileExists R; call_changeWorkingDirectory R;
      call_getCurrentWoringDirectory;
      call_listRemoteRecursive reply; call_listLocalRecursive L]
     ++ trace passes
     ++ match result passes with Ok _ => [call_disconnect] | Throw _ => [] end)%list /\
  (forall e, result passes = Throw e ->
             result (FTPSync_main ftp s) = Throw e /\
             exit_code (FTPSync_main ftp s) = EXIT_FAILURE) /\
  (forall locals w7,
     result passes = Ok locals ->
     disconnect ftp (ftpServer (final passes)) = Ok (tt, w7) ->
     result (FTPSync_main ftp s) = Ok locals /\
     exit_code (FTPSync_main ftp s) = EXIT_SUCCESS).
Proof.
  intros R L Hc Hf Hd Hg Hr Hl passes. unfold FTPSync_main.
  rewrite (FTPSync_main_run ftp s st w1 w2 w3 w4 reply _ Hc Hf Hd Hg).
  fold L. unfold exit_code. cbn [result trace].
  destruct (listAndSync_run ftp (mkArgs reply L) w4 w5 w6 rf lf Hr Hl)
    as (Htr & Hthrow & Hok).
  cbn [remoteDirectory localDirectory] in Htr. fold passes in Htr, Hthrow, Hok.
  split; [by rewrite Htr|]. split.
  - intros e He. by rewrite (Hthrow e He).
  - intros locals w7 Hp Hdis. by rewrite (Hok locals w7 Hp Hdis).
Qed.

Lemma sync_run_uses_reported_directory_witness :
  trace (FTPSync_main Ideal.port Scenario.start)
  = ([call_connect; call_fileExists "/backup"; call_changeWorkingDirectory "/backup";
      call_getCurrentWoringDirectory;
      call_listRemoteRecursive "/backup"; call_listLocalRecursive "/home/u/"]
     ++ trace (threePasses Ideal.port
                 ["/home/u/a.txt"; "/home/u/dir"; "/home/u/dir/b.txt"]
                 ["/backup/orphan.txt"; "/backup/a.txt"]
                 (mkState Scenario.args (Ideal.entered "/backup" Scenario.tree)))
     ++ match result (threePasses Ideal.port
                        ["/home/u/a.txt"; "/home/u/dir"; "/home/u/dir/b.txt"]
                        ["/backup/orphan.txt"; "/backup/a.txt"]
                        (mkState Scenario.args (Ideal.entered "/backup" Scenario.tree)))
        with Ok _ => [call_disconnect] | Throw _ => [] end)%list.
Proof.
  refine (proj1 (sync_run_uses_reported_directory Ideal.port Scenario.start 250%Z
            Scenario.tree Scenario.tree
            (Ideal.entered "/backup" Scenario.tree) (Ideal.entered "/backup" Scenario.tree)
            (Ideal.entered "/backup" Scenario.tree) (Ideal.entered "/backup" Scenario.tree)
            "/backup" ["/backup/orphan.txt"; "/backup/a.txt"]
            ["/home/u/a.txt"; "/home/u/dir"; "/home/u/dir/b.txt"] _ _ _ _ _ _)).
  all: vm_compute; reflexivity.
Defined.

(** ** The command line *)

Section CmdLineFacts.
Import CmdLine.
Context {VM Stream : Type}.
Variable lib : Options VM Stream.

Lemma lastStatement_not_exit (program : Program) (a : ParamArgData) (status : Z) :
  lastStatement program a <> exits status.
Proof.
  unfold lastStatement. destruct program; [|done..].
  by destruct (normalizeLocalDirectory _).
Qed.

Lemma procCmdLine_help (program : Program) (argv : list string) :
  procCmdLine lib program argv = exits EXIT_SUCCESS <->
  exists vm, parse_command_line lib argv = Done vm /\ 0 < count lib "help" vm.
Proof.
  unfold procCmdLine, tryBlock. split.
  - destruct (parse_command_line lib argv) as [vm|[what|e]]; [|done..].
    destruct (Nat.ltb_spec 0 (count lib "help" vm)) as [Hh|Hh]; [eauto|].
    destruct (storeConfigFile lib vm) as [vm'|[what|e]]; [|done..].
    destruct (notify lib vm') as [a|[what|e]]; [|done..].
    intros H. by apply lastStatement_not_exit in H.
  - intros (vm & -> & Hh). by destruct (Nat.ltb_spec 0 (count lib "help" vm)); [|lia].
Qed.

Lemma procCmdLine_returns (program : Program) (argv : list string) (a : ParamArgData) :
  procCmdLine lib program argv = returns a ->
  exists vm a0,
    notify lib vm = Done a0 /\
    remoteDirectory a = remoteDirectory a0 /\
    match program with
    | FTPSync => normalizeLocalDirectory (localDirectory a0) = Some (localDirectory a) /\
                 StdString.back (localDirectory a) = Some sep
    | FTPBackup | FTPRestore => a = a0
    end.
Proof.
  unfold procCmdLine, tryBlock.
  destruct (parse_command_line lib argv) as [vm|[what|e]]; [|done..].
  destruct (Nat.ltb 0 (count lib "help" vm)); [done|].
  destruct (storeConfigFile lib vm) as [vm'|[what|e]]; [|done..].
  destruct (notify lib vm') as [a0|[what|e]] eqn:Hn; [|done..].
  unfold lastStatement. destruct program.
  - destruct (normalizeLocalDirectory (localDirectory a0)) as [l|] eqn:Hl; [|done].
    intros [= <-]. exists vm', a0. split; [done|]. split; [done|]. split; [done|].
    simpl. by eapply normalizeLocalDirectory_back.
  - intros [= <-]. by exists vm', a0.
  - intros [= <-]. by exists vm', a0.
Qed.

Lemma procCmdLine_config (program : Program) (argv : list string) (vm : VM) :
  parse_command_line lib argv = Done vm ->
  count lib "help" vm = 0 ->
  0 < count lib "config" vm ->
  match file_exists lib (config lib vm) with
  | Done false => procCmdLine lib program argv = exits EXIT_FAILURE
  | Done true =>
      open lib (config lib vm) = None ->
      procCmdLine lib program argv
      = match notify lib vm with
        | Done a => lastStatement program a
        | Raise (po_error _) => exits EXIT_FAILURE
        | Raise (other e) => throws e
        end
  | Raise _ => True
  end.
Proof.
  intros Hp Hh Hc. unfold procCmdLine, tryBlock, storeConfigFile. rewrite Hp, Hh.
  destruct (Nat.ltb_spec 0 (count lib "config" vm)); [|lia]. simpl.
  destruct (file_exists lib (config lib vm)) as [[|]|r]; [|done..].
  intros ->. by destruct (notify lib vm) as [a|[what|e]].
Qed.

End CmdLineFacts.

(** X19. [procCmdLine] of the three programs. It ends the program with
    the success status exactly when the command line parses and holds
    [--help]: neither the configuration file nor the required options are
    looked at then. When it returns, the roots are those that
    [po::notify] stored, and in [FTPSync] the local root has been given its
    final ['/']. When the command line names a configuration file (and no
    [--help]): a file that does not exist ends the program with the failure
    status, even when the command line is complete; a file that exists but
    cannot be opened is passed over, and the options of the command line
    alone decide. *)
Theorem procCmdLine_endings {VM Stream : Type}
  (lib : CmdLine.Options VM Stream) (program : CmdLine.Program) (argv : list string) :
  (CmdLine.procCmdLine lib program argv = CmdLine.exits EXIT_SUCCESS <->
   exists vm, CmdLine.parse_command_line lib argv = CmdLine.Done vm /\
              0 < CmdLine.count lib "help" vm) /\
  (forall a,
     CmdLine.procCmdLine lib program argv = CmdLine.returns a ->
     exists vm a0,
       CmdLine.notify lib vm = CmdLine.Done a0 /\
       remoteDirectory a = remoteDirectory a0 /\
       match program with
       | CmdLine.FTPSync =>
           normalizeLocalDirectory (localDirectory a0) = Some (localDirectory a) /\
           StdString.back (localDirectory a) = Some sep
       | CmdLine.FTPBackup | CmdLine.FTPRestore => a = a0
       end) /\
  (forall vm,
     CmdLine.parse_command_line lib argv = CmdLine.Done vm ->
     CmdLine.count lib "help" vm = 0 ->
     0 < CmdLine.count lib "config" vm ->
     match CmdLine.file_exists lib (CmdLine.config lib vm) with
     | CmdLine.Done false =>
         CmdLine.procCmdLine lib program argv = CmdLine.exits EXIT_FAILURE
     | CmdLine.Done true =>
         CmdLine.open lib (CmdLine.config lib vm) = None ->
         CmdLine.procCmdLine lib program argv
         = match CmdLine.notify lib vm with
           | CmdLine.Done a => CmdLine.lastStatement program a
           | CmdLine.Raise (CmdLine.po_error _) => CmdLine.exits EXIT_FAILURE
           | CmdLine.Raise (CmdLine.other e) => CmdLine.throws e
           end
     | CmdLine.Raise _ => True
     end).
Proof.
  split; [apply procCmdLine_help|]. split; [apply procCmdLine_returns|].
  apply procCmdLine_config.
Qed.

(** ** The SSH programs *)

Section SSHFacts.
Import SSH.
Context {W : Type}.
Variable ssh : Port W.

Lemma ssh_trace_bind {A B} (m : M W A) (f : A -> M W B) (w : W) :
  trace (bind m f w)
  = (trace (m w) ++ match result (m w) with
                    | Ok a => trace (f a (final (m w)))
                    | Throw _ => []
                    end)%list.
Proof.
  unfold bind. destruct (result (m w)); simpl; [done|by rewrite app_nil_r].
Qed.

Lemma ssh_bind_Ok {A B} (m : M W A) (f : A -> M W B) (w w' : W) (a : A) tr :
  m w = mkOutcome (Ok a) w' tr ->
  bind m f w = mkOutcome (result (f a w')) (final (f a w')) (tr ++ trace (f a w')).
Proof. intros H. unfold bind. by rewrite H. Qed.

Lemma ssh_bind_Throw {A B} (m : M W A) (f : A -> M W B) (w w' : W) e tr :
  m w = mkOutcome (Throw e) w' tr ->
  bind m f w = mkOutcome (Throw e) w' tr.
Proof. intros H. unfold bind. by rewrite H. Qed.

Lemma ssh_call_Ok {A} (c : Call) (op : W -> Result (A * W)) (w w' : W) (a : A) :
  op w = Ok (a, w') -> call c op w = mkOutcome (Ok a) w' [c].
Proof. intros H. unfold call. by rewrite H. Qed.

Lemma ssh_call_Throw {A} (c : Call) (op : W -> Result (A * W)) (w : W) e :
  op w = Throw e -> call c op w = mkOutcome (Throw e) w [c].
Proof. intros H. unfold call. by rewrite H. Qed.

Lemma ssh_call_trace {A} (c : Call) (op : W -> Result (A * W)) (w : W) :
  trace (call c op w) = [c].
Proof. unfold call. by destruct (op w) as [[a w']|e]. Qed.

Lemma ssh_signal_run (ok failed : string) (files : list string) (w : W) :
  signal ok failed files w = mkOutcome (Ok tt) w (verdict ok failed files).
Proof.
  unfold signal, verdict. destruct files as [|f files]; [done|].
  generalize (f :: files). intros l.
  induction l as [|x l IH]; [done|].
  simpl. unfold bind at 1. simpl. by rewrite IH.
Qed.

Lemma verdict_prints_only (ok failed : string) (files : list string) (c : Call) :
  c ∈ verdict ok failed files -> exists line, c = print line.
Proof.
  unfold verdict. destruct files as [|f files].
  - intros ->%list_elem_of_singleton. eauto.
  - intros (file & -> & _)%list_elem_of_fmap. eauto.
Qed.

Lemma startSession_quiet (a : ParamArgData) (w : W) :
  Forall (fun c => is_transfer c = false) (trace (startSession ssh a w)).
Proof.
  unfold startSession, bind, lift, call. simpl.
  destruct (stoi ssh (serverPort a)); simpl; [|constructor].
  destruct (connect ssh w) as [[[] w1]|e]; simpl; [|by repeat constructor].
  destruct (verifyKnownServer ssh w1) as [[[|] w2]|e]; simpl;
    [|by repeat constructor..].
  destruct (userAuthorize ssh w2) as [[[|] w3]|e]; simpl; by repeat constructor.
Qed.

Lemma startSession_Ok (a : ParamArgData) (w : W) :
  result (startSession ssh a w) = Ok tt ->
  exists n w1 w2,
    stoi ssh (serverPort a) = Ok n /\
    connect ssh w = Ok (tt, w1) /\
    verifyKnownServer ssh w1 = Ok (true, w2) /\
    userAuthorize ssh w2 = Ok (true, final (startSession ssh a w)).
Proof.
  unfold startSession, bind, lift, call. simpl.
  destruct (stoi ssh (serverPort a)) as [n|e]; simpl; [|done].
  destruct (connect ssh w) as [[[] w1]|e]; simpl; [|done].
  destruct (verifyKnownServer ssh w1) as [[[|] w2]|e] eqn:Hv; simpl; [|done..].
  destruct (userAuthorize ssh w2) as [[[|] w3]|e] eqn:Ha; simpl; [|done..].
  intros _. by exists n, w1, w2.
Qed.

Lemma after_startSession {A} (a : ParamArgData) (k : M W A) (w : W) (c : Call) :
  c ∈ trace (bind (startSession ssh a) (fun _ => k) w) ->
  is_transfer c = true ->
  result (startSession ssh a w) = Ok tt.
Proof.
  rewrite ssh_trace_bind. intros [Hin|Hin]%elem_of_app Hc.
  - pose proof (startSession_quiet a w) as Hq. rewrite Forall_forall in Hq.
    specialize (Hq _ Hin). congruence.
  - destruct (result (startSession ssh a w)) as [[]|e]; [done|].
    by apply elem_of_nil in Hin.
Qed.

Lemma startSession_unverified (a : ParamArgData) (w w1 w2 : W) (n : Z) :
  stoi ssh (serverPort a) = Ok n ->
  connect ssh w = Ok (tt, w1) ->
  verifyKnownServer ssh w1 = Ok (false, w2) ->
  startSession ssh a w
  = mkOutcome (Throw (runtime_error "Unable to verify server.")) w2
      [call_connect; call_verifyKnownServer].
Proof.
  intros Hs Hc Hv. unfold startSession, bind, lift, call. simpl.
  rewrite Hs. simpl. rewrite Hc. simpl. by rewrite Hv.
Qed.

Lemma startSession_unauthorized (a : ParamArgData) (w w1 w2 w3 : W) (n : Z) :
  stoi ssh (serverPort a) = Ok n ->
  connect ssh w = Ok (tt, w1) ->
  verifyKnownServer ssh w1 = Ok (true, w2) ->
  userAuthorize ssh w2 = Ok (false, w3) ->
  startSession ssh a w
  = mkOutcome (Throw (runtime_error "Server unable to authorize client")) w3
      [call_connect; call_verifyKnownServer; call_userAuthorize].
Proof.
  intros Hs Hc Hv Ha. unfold startSession, bind, lift, call. simpl.
  rewrite Hs. simpl. rewrite Hc. simpl. rewrite Hv. simpl. by rewrite Ha.
Qed.

Lemma not_close_in_block (R : string) (moves : list Call) (ok failed : string)
  (files : list string) :
  (call_close ∉ moves) ->
  call_close ∉ (call_open :: call_listRemoteRecursive R :: moves
                ++ verdict ok failed files)%list.
Proof.
  intros Hm Hin. apply elem_of_cons in Hin as [?|Hin]; [done|].
  apply elem_of_cons in Hin as [?|Hin]; [done|].
  apply elem_of_app in Hin as [?|Hin]; [done|].
  by apply verdict_prints_only in Hin as [line ?].
Qed.

Lemma restoreBlock_cases (a : ParamArgData) (w : W) :
  match result (restoreBlock ssh a w) with
  | Ok _ =>
      exists pre, trace (restoreBlock ssh a w) = (pre ++ [call_close])%list /\
                  (call_close ∉ pre)
  | Throw e =>
      (call_close ∉ trace (restoreBlock ssh a w)) \/
      exists pre,
        trace (restoreBlock ssh a w) = (pre ++ [call_close])%list /\
        (call_close ∉ pre) /\
        close ssh (final (restoreBlock ssh a w)) = Throw e
  end.
Proof.
  unfold restoreBlock.
  set (R := remoteDirectory a). set (L := localDirectory a).
  destruct (open ssh w) as [[[] w1]|e] eqn:Ho.
  2: { rewrite (ssh_bind_Throw _ _ _ _ _ _ (ssh_call_Throw _ _ _ _ Ho)).
       cbn [result final trace]. left. by intros [=]%list_elem_of_singleton. }
  rewrite (ssh_bind_Ok _ _ _ _ _ _ (ssh_call_Ok _ _ _ _ _ Ho)).
  cbn [result final trace].
  destruct (listRemoteRecursive ssh R w1) as [[listed w2]|e] eqn:Hl.
  2: { rewrite (ssh_bind_Throw _ _ _ _ _ _ (ssh_call_Throw _ _ _ _ Hl)).
       cbn [result final trace]. left. intros Hin.
       apply elem_of_app in Hin as [Hin|Hin]; by apply list_elem_of_singleton in Hin. }
  rewrite (ssh_bind_Ok _ _ _ _ _ _ (ssh_call_Ok _ _ _ _ _ Hl)).
  cbn [result final trace].
  assert (Hmove : exists moves,
             (call_close ∉ moves) /\
             ((exists moved w3,
                  match listed with
                  | [] => ret []
                  | _ :: _ => call (call_getFiles L R listed) (getFiles ssh L R listed)
                  end w2 = mkOutcome (Ok moved) w3 moves) \/
              (exists e,
                  match listed with
                  | [] => ret []
                  | _ :: _ => call (call_getFiles L R listed) (getFiles ssh L R listed)
                  end w2 = mkOutcome (Throw e) w2 moves))).
  { destruct listed as [|x l].
    - exists []. split; [apply not_elem_of_nil|]. left. by exists [], w2.
    - exists [call_getFiles L R (x :: l)].
      split; [by intros [=]%list_elem_of_singleton|].
      unfold call. destruct (getFiles ssh L R (x :: l) w2) as [[moved w3]|e];
        [left; by exists moved, w3|right; by exists e]. }
  destruct Hmove as (moves & Hmoves & [(moved & w3 & Hm)|(e & Hm)]).
  - rewrite (ssh_bind_Ok _ _ _ _ _ _ Hm). cbn [result final trace].
    rewrite (ssh_bind_Ok _ _ _ _ _ _ (ssh_signal_run _ _ _ _)).
    cbn [result final trace].
    pose proof (not_close_in_block R moves "Successfully restored [" "Restore failed."
                  moved Hmoves) as Hpre.
    destruct (close ssh w3) as [[[] w4]|e] eqn:Hc.
    + rewrite (ssh_call_Ok _ _ _ _ _ Hc). cbn [result final trace].
      eexists. split; [|exact Hpre]. simpl. by rewrite <- !app_assoc.
    + rewrite (ssh_call_Throw _ _ _ _ Hc). cbn [result final trace].
      right. eexists. split; [|split; [exact Hpre|done]].
      simpl. by rewrite <- !app_assoc.
  - rewrite (ssh_bind_Throw _ _ _ _ _ _ Hm). cbn [result final trace].
    left. intros Hin. apply elem_of_cons in Hin as [?|Hin]; [done|].
    by apply elem_of_cons in Hin as [?|Hin].
Qed.

Lemma handler_trace (e : Exception) (w : W) :
  trace ((call call_close (close ssh) ;;; @throw W unit e)%ssh w) = [call_close].
Proof.
  rewrite ssh_trace_bind, ssh_call_trace. by destruct (result (call _ _ _)).
Qed.

Lemma performRestore_closes (a : ParamArgData) (w : W) :
  (exists pre,
      trace (performRestore ssh a w) = (pre ++ [call_close])%list /\
      (call_close ∉ pre)) \/
  (exists pre e w',
      trace (performRestore ssh a w) = (pre ++ [call_close; call_close])%list /\
      (call_close ∉ pre) /\
      close ssh w' = Throw e /\
      is_Ok (result (performRestore ssh a w)) = false).
Proof.
  pose proof (restoreBlock_cases a w) as Hb. unfold performRestore, catching.
  destruct (result (restoreBlock ssh a w)) as [[]|e] eqn:Hr.
  - left. exact Hb.
  - cbn [trace result]. rewrite handler_trace.
    destruct Hb as [Hno|(pre & Htr & Hpre & Hc)].
    + left. by exists (trace (restoreBlock ssh a w)).
    + right. exists pre, e, (final (restoreBlock ssh a w)).
      rewrite Htr, <- app_assoc. split; [done|]. split; [done|]. split; [done|].
      unfold bind, call. by rewrite Hc.
Qed.

Lemma ssh_only_ret {A} P (x : A) : onlyCalls P (@ret W A x).
Proof. intros w. constructor. Qed.

Lemma ssh_only_throw {A} P e : onlyCalls P (@throw W A e).
Proof. intros w. constructor. Qed.

Lemma ssh_only_lift {A} P (r : Result A) : onlyCalls P (@lift W A r).
Proof. intros w. constructor. Qed.

Lemma ssh_only_call {A} (P : Call -> Prop) c (op : W -> Result (A * W)) :
  P c -> onlyCalls P (call c op).
Proof. intros H w. rewrite ssh_call_trace. by repeat constructor. Qed.

Lemma ssh_only_bind {A B} P (m : M W A) (f : A -> M W B) :
  onlyCalls P m -> (forall x, onlyCalls P (f x)) -> onlyCalls P (bind m f).
Proof.
  intros Hm Hf w. rewrite ssh_trace_bind. apply Forall_app. split; [apply Hm|].
  destruct (result (m w)); [apply Hf|constructor].
Qed.

Lemma ssh_only_catching {A} P (body : M W A) (handler : Exception -> M W A) :
  onlyCalls P body -> (forall e, onlyCalls P (handler e)) ->
  onlyCalls P (catching body handler).
Proof.
  intros Hb Hh w. unfold catching. destruct (result (body w)) eqn:Hr; [apply Hb|].
  simpl. apply Forall_app. split; [apply Hb|apply Hh].
Qed.

Lemma ssh_only_signal (P : Call -> Prop) (ok failed : string) (files : list string) :
  (forall line, P (print line)) -> onlyCalls P (@signal W ok failed files).
Proof.
  intros H w. rewrite ssh_signal_run. apply Forall_forall.
  by intros c [line ->]%verdict_prints_only.
Qed.

Lemma startSession_only (P : Call -> Prop) (a : ParamArgData) :
  P call_connect -> P call_verifyKnownServer -> P call_userAuthorize ->
  onlyCalls P (startSession ssh a).
Proof.
  intros H1 H2 H3. unfold startSession.
  apply ssh_only_bind; [apply ssh_only_lift|intros _].
  apply ssh_only_bind; [by apply ssh_only_call|intros _].
  apply ssh_only_bind; [by apply ssh_only_call|intros verified].
  destruct (negb verified); [apply ssh_only_throw|].
  apply ssh_only_bind; [by apply ssh_only_call|intros authorized].
  destruct (negb authorized); [apply ssh_only_throw|apply ssh_only_ret].
Qed.

Lemma performBackup_only (P : Call -> Prop) (a : ParamArgData) :
  (forall l r, P (call_putFiles l r)) -> (forall line, P (print line)) ->
  onlyCalls P (performBackup ssh a).
Proof.
  intros H1 H2. unfold performBackup.
  apply ssh_only_catching; [|intros e; apply ssh_only_throw].
  apply ssh_only_bind; [by apply ssh_only_call|intros files].
  by apply ssh_only_signal.
Qed.

Lemma performRestore_only (P : Call -> Prop) (a : ParamArgData) :
  P call_open -> (forall r, P (call_listRemoteRecursive r)) ->
  (forall l r files, P (call_getFiles l r files)) -> P call_close ->
  (forall line, P (print line)) ->
  onlyCalls P (performRestore ssh a).
Proof.
  intros H1 H2 H3 H4 H5. unfold performRestore, restoreBlock.
  apply ssh_only_catching.
  - apply ssh_only_bind; [by apply ssh_only_call|intros _].
    apply ssh_only_bind; [by apply ssh_only_call|intros listed].
    apply ssh_only_bind.
    { destruct listed; [apply ssh_only_ret|by apply ssh_only_call]. }
    intros files. apply ssh_only_bind; [by apply ssh_only_signal|intros _].
    by apply ssh_only_call.
  - intros e. apply ssh_only_bind; [by apply ssh_only_call|intros _].
    apply ssh_only_throw.
Qed.

Lemma ssh_disconnectsLast_bind {A B} (m : M W A) (f : A -> M W B) :
  onlyCalls (fun c => c <> call_disconnect) m ->
  (forall x, disconnectsLast ssh (f x)) ->
  disconnectsLast ssh (bind m f).
Proof.
  intros Hm Hf w.
  assert (Hq : call_disconnect ∉ trace (m w)).
  { intros Hin. specialize (Hm w). rewrite Forall_forall in Hm. by apply (Hm _ Hin). }
  unfold bind. destruct (result (m w)) as [x|e] eqn:E; cbn [result final trace].
  - destruct (Hf x (final (m w))) as [(pre & Htr & Hpre & He)|[Hno [e He]]].
    + left. exists (trace (m w) ++ pre)%list. rewrite Htr, app_assoc.
      split; [done|]. split; [|done]. by intros [?|?]%elem_of_app.
    + right. split; [by intros [?|?]%elem_of_app|eauto].
  - right. eauto.
Qed.

Lemma ssh_disconnectsLast_end :
  disconnectsLast ssh (call call_disconnect (disconnect ssh)).
Proof.
  intros w. left. exists []. unfold call.
  destruct (disconnect ssh w) as [[[] w']|e] eqn:E; cbn.
  - split; [done|]. split; [apply not_elem_of_nil|done].
  - split; [done|]. split; [apply not_elem_of_nil|]. by intros e' [= <-].
Qed.

End SSHFacts.

(** X20. In [SCPBackup] and [SFTPRestore] nothing is sent or fetched, and
    no SFTP session is opened or closed, unless the port number was read,
    the connection made, the server verified and the client authorised, in
    this order. *)
Theorem ssh_transfer_needs_verified_session {W : Type}
  (ssh : SSH.Port W) (a : SSH.ParamArgData) (w : W) (c : SSH.Call) :
  c ∈ SSH.trace (SSH.SCPBackup_main ssh a w) \/
  c ∈ SSH.trace (SSH.SFTPRestore_main ssh a w) ->
  SSH.is_transfer c = true ->
  exists n w1 w2 w3,
    SSH.stoi ssh (SSH.serverPort a) = Ok n /\
    SSH.connect ssh w = Ok (tt, w1) /\
    SSH.verifyKnownServer ssh w1 = Ok (true, w2) /\
    SSH.userAuthorize ssh w2 = Ok (true, w3).
Proof.
  intros Hin Hc.
  assert (Hs : SSH.result (SSH.startSession ssh a w) = Ok tt).
  { destruct Hin as [Hin|Hin]; by eapply after_startSession. }
  destruct (startSession_Ok ssh a w Hs) as (n & w1 & w2 & ?).
  by exists n, w1, w2, (SSH.final (SSH.startSession ssh a w)).
Qed.

Lemma ssh_transfer_needs_verified_session_witness :
  exists n w1 w2 w3,
    SSH.stoi SSH.counting "22" = Ok n /\
    SSH.connect SSH.counting 0%Z = Ok (tt, w1) /\
    SSH.verifyKnownServer SSH.counting w1 = Ok (true, w2) /\
    SSH.userAuthorize SSH.counting w2 = Ok (true, w3).
Proof.
  apply (ssh_transfer_needs_verified_session SSH.counting
           (SSH.mkArgs "22" "/backup" "/home/u/") 0%Z
           (SSH.call_putFiles "/home/u/" "/backup")).
  - left. apply list_elem_of_In. vm_compute. do 3 right. by left.
  - reflexivity.
Defined.

(** X21. A server that is not verified, or a client that is not
    authorised, ends [SCPBackup] and [SFTPRestore] with a
    [std::runtime_error] and the failure exit code, right after that
    answer: nothing is transferred, and the session that [connect] opened is
    not disconnected. *)
Theorem unverified_session_ends_run {W : Type}
  (ssh : SSH.Port W) (a : SSH.ParamArgData) (w w1 w2 : W) (n : Z) (verified : bool) :
  SSH.stoi ssh (SSH.serverPort a) = Ok n ->
  SSH.connect ssh w = Ok (tt, w1) ->
  SSH.verifyKnownServer ssh w1 = Ok (verified, w2) ->
  (verified = true -> exists w3, SSH.userAuthorize ssh w2 = Ok (false, w3)) ->
  let what := if verified then "Server unable to authorize client"
              else "Unable to verify server." in
  let calls := SSH.call_connect :: SSH.call_verifyKnownServer ::
               if verified then [SSH.call_userAuthorize] else [] in
  (SSH.result (SSH.SCPBackup_main ssh a w) = Throw (SSH.runtime_error what) /\
   SSH.trace (SSH.SCPBackup_main ssh a w) = calls /\
   SSH.exit_code (SSH.SCPBackup_main ssh a w) = EXIT_FAILURE) /\
  (SSH.result (SSH.SFTPRestore_main ssh a w) = Throw (SSH.runtime_error what) /\
   SSH.trace (SSH.SFTPRestore_main ssh a w) = calls /\
   SSH.exit_code (SSH.SFTPRestore_main ssh a w) = EXIT_FAILURE).
Proof.
  intros Hs Hc Hv Ha what calls.
  assert (Hstart : exists w', SSH.startSession ssh a w
                   = SSH.mkOutcome (Throw (SSH.runtime_error what)) w' calls).
  { subst what calls. destruct verified.
    - destruct (Ha eq_refl) as [w3 Hu]. exists w3.
      by apply (startSession_unauthorized ssh a w w1 w2 w3 n).
    - exists w2. by apply (startSession_unverified ssh a w w1 w2 n). }
  destruct Hstart as [w' Hstart].
  unfold SSH.SCPBackup_main, SSH.SFTPRestore_main, SSH.exit_code.
  by rewrite !(ssh_bind_Throw _ _ _ _ _ _ Hstart).
Qed.

Lemma unverified_session_ends_run_witness :
  (SSH.result (SSH.SCPBackup_main SSH.unknown (SSH.mkArgs "22" "/backup" "/home/u/") 0%Z)
   = Throw (SSH.runtime_error "Unable to verify server.") /\
   SSH.trace (SSH.SCPBackup_main SSH.unknown (SSH.mkArgs "22" "/backup" "/home/u/") 0%Z)
   = [SSH.call_connect; SSH.call_verifyKnownServer] /\
   SSH.exit_code (SSH.SCPBackup_main SSH.unknown (SSH.mkArgs "22" "/backup" "/home/u/") 0%Z)
   = EXIT_FAILURE) /\
  (SSH.result (SSH.SFTPRestore_main SSH.unknown (SSH.mkArgs "22" "/backup" "/home/u/") 0%Z)
   = Throw (SSH.runtime_error "Unable to verify server.") /\
   SSH.trace (SSH.SFTPRestore_main SSH.unknown (SSH.mkArgs "22" "/backup" "/home/u/") 0%Z)
   = [SSH.call_connect; SSH.call_verifyKnownServer] /\
   SSH.exit_code (SSH.SFTPRestore_main SSH.unknown (SSH.mkArgs "22" "/backup" "/home/u/") 0%Z)
   = EXIT_FAILURE).
Proof.
  apply (unverified_session_ends_run SSH.unknown (SSH.mkArgs "22" "/backup" "/home/u/")
           0%Z 0%Z 0%Z 22%Z false); [reflexivity..|discriminate].
Defined.

(** X22. [performRestore] of [SFTPRestore] closes the SFTP session on
    every path: [close] is the last call whatever happened before, also when
    [open] itself threw. It is called once, or twice when the [close] of the
    [try] block threw: the handler then calls it again, and
    [performRestore] ends with an exception. In [main], a run that opened
    the SFTP session has closed it. *)
Theorem sftp_session_closed_on_every_path {W : Type}
  (ssh : SSH.Port W) (a : SSH.ParamArgData) (w : W) :
  ((exists pre,
       SSH.trace (SSH.performRestore ssh a w) = (pre ++ [SSH.call_close])%list /\
       (SSH.call_close ∉ pre)) \/
   (exists pre e w',
       SSH.trace (SSH.performRestore ssh a w)
       = (pre ++ [SSH.call_close; SSH.call_close])%list /\
       (SSH.call_close ∉ pre) /\
       SSH.close ssh w' = Throw e /\
       is_Ok (SSH.result (SSH.performRestore ssh a w)) = false)) /\
  (SSH.call_open ∈ SSH.trace (SSH.SFTPRestore_main ssh a w) ->
   SSH.call_close ∈ SSH.trace (SSH.SFTPRestore_main ssh a w)).
Proof.
  split; [apply performRestore_closes|].
  intros Hin.
  pose proof (after_startSession ssh a _ w _ Hin eq_refl) as Hs.
  unfold SSH.SFTPRestore_main. rewrite ssh_trace_bind, Hs, ssh_trace_bind.
  apply elem_of_app. right. apply elem_of_app. left.
  destruct (performRestore_closes ssh a (SSH.final (SSH.startSession ssh a w)))
    as [(pre & -> & _)|(pre & e & w' & -> & _)].
  - apply elem_of_app. right. by left.
  - apply elem_of_app. right. by left.
Qed.

(** X23. [SCPBackup] and [SFTPRestore] call [disconnect] on the SSH
    session at most once, as their last call. A run that ends without an
    exception has called it; a run stopped by an exception of an earlier
    step has not, also when the SFTP session was closed by the handler of
    [performRestore]. *)
Theorem ssh_session_disconnected_last_or_never {W : Type}
  (ssh : SSH.Port W) (a : SSH.ParamArgData) :
  SSH.disconnectsLast ssh (SSH.SCPBackup_main ssh a) /\
  SSH.disconnectsLast ssh (SSH.SFTPRestore_main ssh a).
Proof.
  split.
  - unfold SSH.SCPBackup_main.
    apply ssh_disconnectsLast_bind; [by apply startSession_only|intros _].
    apply ssh_disconnectsLast_bind; [by apply performBackup_only|intros _].
    apply ssh_disconnectsLast_end.
  - unfold SSH.SFTPRestore_main.
    apply ssh_disconnectsLast_bind; [by apply startSession_only|intros _].
    apply ssh_disconnectsLast_bind; [by apply performRestore_only|intros _].
    apply ssh_disconnectsLast_end.
Qed.
